(** * fzf terminal engine (src/terminal.go): a shallow embedding

    The development follows the Go source function by function.  Go's
    machine integers are mathematical integers wrapped to their width,
    slices are lists whose slicing operations fail when Go would panic,
    the [Terminal] struct is a record, and the body of the input loop is
    a function from a state and an event to the next state together with
    the requests it posts.  Definitions come first; the facts proved
    about them follow in the second half of the file. *)

From Stdlib Require Import ZArith Lia Ascii String.
From stdpp Require Import gmap list sorting.

Local Open Scope Z_scope.

(** ** Machine integers *)

Module GoInt.

(** Two's-complement reduction of [z] to a signed integer of [bits] bits. *)
Definition wrap (bits z : Z) : Z :=
  (z + 2 ^ (bits - 1)) mod 2 ^ bits - 2 ^ (bits - 1).

Definition min_int : Z := - 2 ^ 63.
Definition max_int : Z := 2 ^ 63 - 1.
Definition min_int32 : Z := - 2 ^ 31.
Definition max_int32 : Z := 2 ^ 31 - 1.

(** Go's [int] on the 64-bit targets fzf is built for. *)
Definition add (x y : Z) : Z := wrap 64 (x + y).
Definition sub (x y : Z) : Z := wrap 64 (x - y).
Definition mul (x y : Z) : Z := wrap 64 (x * y).
Definition neg (x : Z) : Z := wrap 64 (- x).

(** [%] truncates towards zero. *)
Definition rem (x y : Z) : Z := Z.rem x y.

(** [int32], the type of match offsets. *)
Definition add32 (x y : Z) : Z := wrap 32 (x + y).
Definition sub32 (x y : Z) : Z := wrap 32 (x - y).
Definition to_int32 (x : Z) : Z := wrap 32 x.

Definition fits (z : Z) : Prop := min_int <= z <= max_int.
Definition fits32 (z : Z) : Prop := min_int32 <= z <= max_int32.

End GoInt.

Infix "+%" := GoInt.add (at level 50, left associativity).
Infix "-%" := GoInt.sub (at level 50, left associativity).

(** A bound well inside [int], and one well inside [int32]: sums and
    differences of a few such quantities do not wrap. *)
Definition small (z : Z) : Prop :=
  - 1152921504606846976 <= z <= 1152921504606846976.

Definition small32 (z : Z) : Prop := - 268435456 <= z <= 268435456.

(** ** The util package *)

Module Util.

(** Modelled from the spec: [util.Constrain] lives in the util package,
    which is not part of the sources at hand; the spec uses it as the
    clamp of a value into [[min, max]].  It is written as two guards in
    a row, the lower bound first. *)
Definition Constrain (val min max : Z) : Z :=
  if val <? min then min else if val >? max then max else val.

(** Modelled from the spec: [util.Constrain32], the same clamp on
    [int32] values. *)
Definition Constrain32 (val min max : Z) : Z :=
  if val <? min then min else if val >? max then max else val.

(** Modelled from the spec: [util.Max], [util.Max32] and [util.Min32],
    the larger and the smaller of two integers. *)
Definition Max (a b : Z) : Z := if a >=? b then a else b.
Definition Max32 (a b : Z) : Z := if a >? b then a else b.
Definition Min32 (a b : Z) : Z := if a <=? b then a else b.

(** Modelled from the spec: [util.Between], membership in a closed
    interval. *)
Definition Between (val min max : Z) : bool :=
  (val >=? min) && (val <=? max).

End Util.

(** ** Runes, strings and slices *)

(** A [rune] is a Unicode code point ([int32]). *)
Definition rune : Type := Z.

(** The runes of an ASCII literal, for writing examples. *)
Definition runes_of (s : string) : list rune :=
  map (fun a => Z.of_N (N_of_ascii a)) (list_ascii_of_string s).

(** [len], as an [int]. *)
Definition len {A} (l : list A) : Z := Z.of_nat (length l).

(** [copySlice]: a fresh slice with the same elements. *)
Definition copySlice (slice : list rune) : list rune := slice.

(** Slice expressions.  Go panics when the bounds are out of order or
    past the end; a panic is [None].  The model identifies a slice with
    its visible elements, so its capacity is its length. *)
Definition slice_from {A} (l : list A) (lo : Z) : option (list A) :=
  if (0 <=? lo) && (lo <=? len l) then Some (drop (Z.to_nat lo) l) else None.

Definition slice_to {A} (l : list A) (hi : Z) : option (list A) :=
  if (0 <=? hi) && (hi <=? len l) then Some (take (Z.to_nat hi) l) else None.

Definition slice {A} (l : list A) (lo hi : Z) : option (list A) :=
  if (0 <=? lo) && (lo <=? hi) && (hi <=? len l)
  then Some (take (Z.to_nat (hi - lo)) (drop (Z.to_nat lo) l))
  else None.

(** [string(runes)]: the UTF-8 bytes of a rune slice.  A rune that is not
    a valid code point is written as U+FFFD. *)
Definition utf8_rune (r : rune) : list Z :=
  if (r <? 0) || (r >? 1114111) || ((55296 <=? r) && (r <=? 57343))
  then [239; 191; 189]
  else if r <? 128 then [r]
  else if r <? 2048 then
    [Z.lor 192 (Z.shiftr r 6); Z.lor 128 (Z.land r 63)]
  else if r <? 65536 then
    [Z.lor 224 (Z.shiftr r 12);
     Z.lor 128 (Z.land (Z.shiftr r 6) 63);
     Z.lor 128 (Z.land r 63)]
  else
    [Z.lor 240 (Z.shiftr r 18);
     Z.lor 128 (Z.land (Z.shiftr r 12) 63);
     Z.lor 128 (Z.land (Z.shiftr r 6) 63);
     Z.lor 128 (Z.land r 63)].

Definition string_of_runes (runes : list rune) : list Z :=
  flat_map utf8_rune runes.

(** ** Items and colored offsets *)

(** A match offset, [[2]int32]: start and end in code points. *)
Definition Offset : Type := (Z * Z)%type.

(** Modelled from the spec: the [Item] type is declared outside the
    sources at hand.  An item carries its identity key, its display text,
    its match offsets and the text that [AsString] and [StringPtr] hand
    out. *)
Record Item := mkItem {
  index : Z;
  text : list rune;
  offsets : list Offset;
  asString : list rune
}.

(** Modelled from the spec: an element of what [colorOffsets] returns, an
    offset pair with the color and weight to paint it in. *)
Record colorOffset := mkColorOffset {
  co_offset : Offset;
  co_color : Z;
  co_bold : bool
}.

(** A call of the driver's [CPrint], with the bounds of the slice of the
    text it was handed. *)
Record CPrint := mkCPrint {
  cp_color : Z;
  cp_bold : bool;
  cp_from : Z;
  cp_to : Z;
  cp_str : list rune
}.

(** A call of [CPrint] was handed a slice that lies within the text. *)
Definition within (text : list rune) (c : CPrint) : Prop :=
  0 <= cp_from c <= cp_to c /\ cp_to c <= len text.

(** An offset pair whose end is not before its start. *)
Definition ordered (o : colorOffset) : Prop :=
  (co_offset o).1 <= (co_offset o).2.

(** An offset pair that lies in a text of [n] runes. *)
Definition span_in (n : Z) (o : colorOffset) : Prop :=
  0 <= (co_offset o).1 /\ (co_offset o).1 <= (co_offset o).2 /\
  (co_offset o).2 <= n.

(** A text all of whose runes take one byte of UTF-8. *)
Definition single_byte (runes : list rune) : Prop :=
  Forall (fun r => 0 <= r < 128) runes.

(** ** The render engine *)

Definition TAB : rune := 9.
Definition DOT : rune := 46.
Definition SPACE : rune := 32.

(** The ellipsis, [[]rune("..")]. *)
Definition dots : list rune := [DOT; DOT].

Section Render.

(** [runewidth.RuneWidth] of the go-runewidth package. *)
Variable RuneWidth : rune -> Z.

(** [runeWidth] with the memo table [_runeWidths] threaded through. *)
Definition runeWidth_memo (cache : gmap Z Z) (r : rune) (prefixWidth : Z)
  : Z * gmap Z Z :=
  if r =? TAB then (8 -% GoInt.rem prefixWidth 8, cache)
  else match cache !! r with
       | Some w => (w, cache)
       | None => let w := RuneWidth r in (w, <[r := w]> cache)
       end.

(** The table only ever holds values of [RuneWidth]. *)
Definition cache_ok (cache : gmap Z Z) : Prop :=
  forall r w, cache !! r = Some w -> w = RuneWidth r.

(** What [runeWidth] returns, the table left implicit. *)
Definition runeWidth (r : rune) (prefixWidth : Z) : Z :=
  if r =? TAB then 8 -% GoInt.rem prefixWidth 8 else RuneWidth r.

(** The first rune of a text is no wider than [width]. *)
Definition first_fits (runes : list rune) (width : Z) : Prop :=
  match runes with
  | [] => True
  | r :: _ => runeWidth r 0 <= width
  end.

Fixpoint displayWidth_loop (l : Z) (runes : list rune) : Z :=
  match runes with
  | [] => l
  | r :: rest => displayWidth_loop (l +% runeWidth r l) rest
  end.

Definition displayWidth (runes : list rune) : Z :=
  displayWidth_loop 0 runes.

(** [trimRight]: [idx] counts the runes already scanned, [l] is their
    width and [rest] what is left to scan. *)
Fixpoint trimRight_loop (runes : list rune) (width : Z)
    (idx : nat) (l : Z) (rest : list rune) : list rune * Z :=
  match rest with
  | [] => (runes, 0)
  | r :: rest' =>
      let l' := l +% runeWidth r l in
      if (Z.of_nat idx >? 0) && (l' >? width)
      then (take idx runes, len runes -% Z.of_nat idx)
      else trimRight_loop runes width (S idx) l' rest'
  end.

Definition trimRight (runes : list rune) (width : Z) : list rune * Z :=
  trimRight_loop runes width 0%nat 0 runes.

Fixpoint displayWidthWithLimit_loop (prefixWidth limit l : Z)
    (runes : list rune) : Z :=
  match runes with
  | [] => l
  | r :: rest =>
      let l' := l +% runeWidth r (l +% prefixWidth) in
      if l' >? limit then l'
      else displayWidthWithLimit_loop prefixWidth limit l' rest
  end.

Definition displayWidthWithLimit (runes : list rune)
    (prefixWidth limit : Z) : Z :=
  displayWidthWithLimit_loop prefixWidth limit 0 runes.

(** [trimLeft]: every turn of the loop drops one rune. *)
Fixpoint trimLeft_loop (width : Z) (runes : list rune)
    (trimmed currentWidth : Z) : list rune * Z :=
  match runes with
  | [] => ([], trimmed)
  | _ :: rest =>
      if currentWidth >? width
      then trimLeft_loop width rest (GoInt.add32 trimmed 1)
             (displayWidthWithLimit rest 2 width)
      else (runes, trimmed)
  end.

Definition trimLeft (runes : list rune) (width : Z) : list rune * Z :=
  trimLeft_loop width runes 0 (displayWidth runes).

(** [processTabs]: the string written and the column reached. *)
Fixpoint processTabs_loop (strbuf : list rune) (l : Z)
    (runes : list rune) : list rune * Z :=
  match runes with
  | [] => (strbuf, l)
  | r :: rest =>
      let w := runeWidth r l in
      let l' := l +% w in
      if r =? TAB
      then processTabs_loop (strbuf ++ replicate (Z.to_nat w) SPACE) l' rest
      else processTabs_loop (strbuf ++ [r]) l' rest
  end.

Definition processTabs (runes : list rune) (prefixWidth : Z)
  : list rune * Z :=
  processTabs_loop [] prefixWidth runes.

(** The first loop of [printHighlighted]: the furthest match end. *)
Definition maxe_of (offs : list Offset) : Z :=
  fold_left (fun maxe off => if off.2 >? maxe then off.2 else maxe) offs 0.

(** The block of [printHighlighted] under [// Overflow]: the text and the
    offsets that go on to be painted.  [hscroll] is the terminal's
    field, [MaxX] the driver's screen width and [offs] what
    [item.colorOffsets] returned. *)
Definition printHighlighted_overflow (hscroll : bool) (MaxX : Z)
    (item : Item) (offs : list colorOffset)
  : option (list rune * list colorOffset) :=
  let maxe := maxe_of (offsets item) in
  let text := text item in
  let maxWidth := MaxX -% 3 in
  let fullWidth := displayWidth text in
  if fullWidth >? maxWidth then
    if hscroll then
      head ← slice_to text maxe;
      let matchEndWidth := displayWidth head in
      if matchEndWidth <=? maxWidth -% 2 then
        let text1 := (trimRight text (maxWidth -% 2)).1 in
        Some (text1 ++ dots, offs)
      else
        let text1 :=
          if matchEndWidth <? fullWidth -% 2 then head ++ dots else text in
        let '(text2, diff) := trimLeft text1 (maxWidth -% 2) in
        let shift (o : colorOffset) :=
          let b := GoInt.add32 (co_offset o).1 (GoInt.sub32 2 diff) in
          let e := GoInt.add32 (co_offset o).2 (GoInt.sub32 2 diff) in
          let b := Util.Max32 b 2 in
          mkColorOffset (b, Util.Max32 b e) (co_color o) (co_bold o) in
        Some (dots ++ text2, map shift offs)
    else
      let text1 := (trimRight text (maxWidth -% 2)).1 in
      let clip (o : colorOffset) :=
        mkColorOffset
          (Util.Min32 (co_offset o).1 (GoInt.to_int32 (maxWidth -% 2)),
           Util.Min32 (co_offset o).2 (GoInt.to_int32 maxWidth))
          (co_color o) (co_bold o) in
      Some (text1 ++ dots, map clip offs)
  else Some (text, offs).

(** The painting loop of [printHighlighted]: [index] and [prefixWidth]
    are the loop's variables, [out] the calls of [CPrint] made so far.
    The result is [None] if a slice expression panics. *)
Fixpoint printHighlighted_loop (text : list rune) (col1 : Z) (bold : bool)
    (maxOffset : Z) (offs : list colorOffset)
    (index prefixWidth : Z) (out : list CPrint)
  : option (Z * Z * list CPrint) :=
  match offs with
  | [] => Some (index, prefixWidth, out)
  | o :: rest =>
      let b := Util.Constrain32 (co_offset o).1 index maxOffset in
      let e := Util.Constrain32 (co_offset o).2 index maxOffset in
      gap ← slice text index b;
      let '(substr, prefixWidth) := processTabs gap prefixWidth in
      let out := out ++ [mkCPrint col1 bold index b substr] in
      '(prefixWidth, out) ←
        (if b <? e then
           span ← slice text b e;
           let '(substr, prefixWidth) := processTabs span prefixWidth in
           Some (prefixWidth,
                 out ++ [mkCPrint (co_color o) (co_bold o) b e substr])
         else Some (prefixWidth, out));
      let index := e in
      if index >=? maxOffset then Some (index, prefixWidth, out)
      else printHighlighted_loop text col1 bold maxOffset rest
             index prefixWidth out
  end.

Definition printHighlighted_paint (text : list rune) (col1 : Z)
    (bold : bool) (offs : list colorOffset) : option (list CPrint) :=
  let maxOffset := GoInt.to_int32 (len text) in
  '(index, prefixWidth, out) ←
    printHighlighted_loop text col1 bold maxOffset offs 0 0 [];
  if index <? maxOffset then
    tail ← slice_from text index;
    let '(substr, _) := processTabs tail prefixWidth in
    Some (out ++ [mkCPrint col1 bold index maxOffset substr])
  else Some out.

(** [printHighlighted]: the calls of [CPrint] it makes, in order. *)
Definition printHighlighted (hscroll : bool) (MaxX : Z)
    (colorOffsets : Item -> Z -> bool -> bool -> list colorOffset)
    (item : Item) (bold : bool) (col1 col2 : Z) (current : bool)
  : option (list CPrint) :=
  let offs := colorOffsets item col2 bold current in
  '(text, offs) ← printHighlighted_overflow hscroll MaxX item offs;
  printHighlighted_paint text col1 bold offs.

End Render.

(** A stand-in for the width table of go-runewidth, used to evaluate
    examples: the CJK ideographs, Hangul syllables and full-width forms
    take two columns, every other code point one. *)
Definition RuneWidth_table (r : rune) : Z :=
  if ((4352 <=? r) && (r <=? 4447))
     || ((11904 <=? r) && (r <=? 42191))
     || ((44032 <=? r) && (r <=? 55203))
     || ((63744 <=? r) && (r <=? 64255))
     || ((65280 <=? r) && (r <=? 65376))
  then 2 else 1.

(** ** The terminal state *)

(** A selection: when it was made and the text captured then. *)
Record selectedItem := mkSelectedItem {
  sel_at : Z;
  sel_text : list rune
}.

(** The selections in a map, in the order of [map_to_list]. *)
Definition selections (m : gmap Z selectedItem) : list selectedItem :=
  (map_to_list m).*2.

(** Earlier, and strictly earlier, in selection time. *)
Definition time_le (a b : selectedItem) : Prop := sel_at a <= sel_at b.
Definition time_lt (a b : selectedItem) : Prop := sel_at a < sel_at b.

(** Request kinds of the mailbox. *)
Inductive EventType :=
  | reqPrompt | reqInfo | reqList | reqRefresh | reqRedraw | reqClose | reqQuit.

#[global] Instance EventType_eq_dec : EqDecision EventType.
Proof. solve_decision. Defined.

Inductive actionType :=
  | actIgnore | actInvalid | actRune | actMouse | actBeginningOfLine
  | actAbort | actAccept | actBackwardChar | actBackwardDeleteChar
  | actBackwardWord | actClearScreen | actDeleteChar | actEndOfLine
  | actForwardChar | actForwardWord | actKillLine | actKillWord
  | actUnixLineDiscard | actUnixWordRubout | actYank | actBackwardKillWord
  | actSelectAll | actDeselectAll | actToggle | actToggleAll
  | actToggleDown | actToggleUp | actDown | actUp | actPageUp | actPageDown
  | actToggleSort | actPreviousHistory | actNextHistory | actExecute.

(** Modelled from the spec: the driver's event types.  A mouse event
    carries its row and column, the wheel delta [S] and three flags. *)
Record MouseEvent := mkMouseEvent {
  me_Y : Z;
  me_X : Z;
  me_S : Z;
  me_Down : bool;
  me_Double : bool;
  me_Mod : bool
}.

Record Event := mkEvent {
  ev_Type : Z;
  ev_Char : rune;
  ev_Mouse : MouseEvent
}.

(** The key codes of the driver that the terminal code names.  Their
    values are the driver's business. *)
Record KeyCodes := mkKeyCodes {
  C_Rune : Z;
  C_Mouse : Z;
  C_Invalid : Z;
  C_CtrlA : Z;
  C_CtrlZ : Z;
  C_F1 : Z;
  C_F4 : Z;
  C_AltA : Z;
  C_AltZ : Z
}.

Section Term.

(** The history collaborator, with [override], [previous] and [next].
    Lines are kept as rune slices. *)
Context {History : Type}.
Variable history_override : History -> list rune -> History.
Variable history_previous : History -> list rune * History.
Variable history_next : History -> list rune * History.

(** The [Terminal] struct.  The mailboxes, the mutex, the start channel
    and the driver's init function are left to the model of the loop;
    [ticks] is not a field of the struct: it counts the readings of the
    clock taken so far, so that each [time.Now()] gets the next one. *)
Record Terminal := mkTerminal {
  inlineInfo : bool;
  prompt : string;
  reverse : bool;
  hscroll : bool;
  cx : Z;
  cy : Z;
  offset : Z;
  yanked : list rune;
  input : list rune;
  multi : bool;
  sort : bool;
  toggleSort : bool;
  expect : list Z;
  keymap : gmap Z actionType;
  execmap : gmap Z string;
  pressed : Z;
  printQuery : bool;
  history : option History;
  cycle : bool;
  count : Z;
  progress : Z;
  reading : bool;
  merger : list Item;
  selected : gmap Z selectedItem;
  suppress : bool;
  ticks : nat
}.

Definition set_cx (v : Z) (t : Terminal) : Terminal :=
  {| inlineInfo := inlineInfo t; prompt := prompt t; reverse := reverse t;
     hscroll := hscroll t; cx := v; cy := cy t; offset := offset t;
     yanked := yanked t; input := input t; multi := multi t;
     sort := sort t; toggleSort := toggleSort t; expect := expect t;
     keymap := keymap t; execmap := execmap t; pressed := pressed t;
     printQuery := printQuery t; history := history t; cycle := cycle t;
     count := count t; progress := progress t; reading := reading t;
     merger := merger t; selected := selected t; suppress := suppress t;
     ticks := ticks t |}.

Definition set_cy (v : Z) (t : Terminal) : Terminal :=
  {| inlineInfo := inlineInfo t; prompt := prompt t; reverse := reverse t;
     hscroll := hscroll t; cx := cx t; cy := v; offset := offset t;
     yanked := yanked t; input := input t; multi := multi t;
     sort := sort t; toggleSort := toggleSort t; expect := expect t;
     keymap := keymap t; execmap := execmap t; pressed := pressed t;
     printQuery := printQuery t; history := history t; cycle := cycle t;
     count := count t; progress := progress t; reading := reading t;
     merger := merger t; selected := selected t; suppress := suppress t;
     ticks := ticks t |}.

Definition set_offset (v : Z) (t : Terminal) : Terminal :=
  {| inlineInfo := inlineInfo t; prompt := prompt t; reverse := reverse t;
     hscroll := hscroll t; cx := cx t; cy := cy t; offset := v;
     yanked := yanked t; input := input t; multi := multi t;
     sort := sort t; toggleSort := toggleSort t; expect := expect t;
     keymap := keymap t; execmap := execmap t; pressed := pressed t;
     printQuery := printQuery t; history := history t; cycle := cycle t;
     count := count t; progress := progress t; reading := reading t;
     merger := merger t; selected := selected t; suppress := suppress t;
     ticks := ticks t |}.

Definition set_yanked (v : list rune) (t : Terminal) : Terminal :=
  {| inlineInfo := inlineInfo t; prompt := prompt t; reverse := reverse t;
     hscroll := hscroll t; cx := cx t; cy := cy t; offset := offset t;
     yanked := v; input := input t; multi := multi t; sort := sort t;
     toggleSort := toggleSort t; expect := expect t; keymap := keymap t;
     execmap := execmap t; pressed := pressed t;
     printQuery := printQuery t; history := history t; cycle := cycle t;
     count := count t; progress := progress t; reading := reading t;
     merger := merger t; selected := selected t; suppress := suppress t;
     ticks := ticks t |}.

Definition set_input (v : list rune) (t : Terminal) : Terminal :=
  {| inlineInfo := inlineInfo t; prompt := prompt t; reverse := reverse t;
     hscroll := hscroll t; cx := cx t; cy := cy t; offset := offset t;
     yanked := yanked t; input := v; multi := multi t; sort := sort t;
     toggleSort := toggleSort t; expect := expect t; keymap := keymap t;
     execmap := execmap t; pressed := pressed t;
     printQuery := printQuery t; history := history t; cycle := cycle t;
     count := count t; progress := progress t; reading := reading t;
     merger := merger t; selected := selected t; suppress := suppress t;
     ticks := ticks t |}.

Definition set_sort (v : bool) (t : Terminal) : Terminal :=
  {| inlineInfo := inlineInfo t; prompt := prompt t; reverse := reverse t;
     hscroll := hscroll t; cx := cx t; cy := cy t; offset := offset t;
     yanked := yanked t; input := input t; multi := multi t; sort := v;
     toggleSort := toggleSort t; expect := expect t; keymap := keymap t;
     execmap := execmap t; pressed := pressed t;
     printQuery := printQuery t; history := history t; cycle := cycle t;
     count := count t; progress := progress t; reading := reading t;
     merger := merger t; selected := selected t; suppress := suppress t;
     ticks := ticks t |}.

Definition set_pressed (v : Z) (t : Terminal) : Terminal :=
  {| inlineInfo := inlineInfo t; prompt := prompt t; reverse := reverse t;
     hscroll := hscroll t; cx := cx t; cy := cy t; offset := offset t;
     yanked := yanked t; input := input t; multi := multi t;
     sort := sort t; toggleSort := toggleSort t; expect := expect t;
     keymap := keymap t; execmap := execmap t; pressed := v;
     printQuery := printQuery t; history := history t; cycle := cycle t;
     count := count t; progress := progress t; reading := reading t;
     merger := merger t; selected := selected t; suppress := suppress t;
     ticks := ticks t |}.

Definition set_history (v : option History) (t : Terminal) : Terminal :=
  {| inlineInfo := inlineInfo t; prompt := prompt t; reverse := reverse t;
     hscroll := hscroll t; cx := cx t; cy := cy t; offset := offset t;
     yanked := yanked t; input := input t; multi := multi t;
     sort := sort t; toggleSort := toggleSort t; expect := expect t;
     keymap := keymap t; execmap := execmap t; pressed := pressed t;
     printQuery := printQuery t; history := v; cycle := cycle t;
     count := count t; progress := progress t; reading := reading t;
     merger := merger t; selected := selected t; suppress := suppress t;
     ticks := ticks t |}.

Definition set_selected (v : gmap Z selectedItem) (t : Terminal) : Terminal :=
  {| inlineInfo := inlineInfo t; prompt := prompt t; reverse := reverse t;
     hscroll := hscroll t; cx := cx t; cy := cy t; offset := offset t;
     yanked := yanked t; input := input t; multi := multi t;
     sort := sort t; toggleSort := toggleSort t; expect := expect t;
     keymap := keymap t; execmap := execmap t; pressed := pressed t;
     printQuery := printQuery t; history := history t; cycle := cycle t;
     count := count t; progress := progress t; reading := reading t;
     merger := merger t; selected := v; suppress := suppress t;
     ticks := ticks t |}.

Definition set_suppress (v : bool) (t : Terminal) : Terminal :=
  {| inlineInfo := inlineInfo t; prompt := prompt t; reverse := reverse t;
     hscroll := hscroll t; cx := cx t; cy := cy t; offset := offset t;
     yanked := yanked t; input := input t; multi := multi t;
     sort := sort t; toggleSort := toggleSort t; expect := expect t;
     keymap := keymap t; execmap := execmap t; pressed := pressed t;
     printQuery := printQuery t; history := history t; cycle := cycle t;
     count := count t; progress := progress t; reading := reading t;
     merger := merger t; selected := selected t; suppress := v;
     ticks := ticks t |}.

Definition set_ticks (v : nat) (t : Terminal) : Terminal :=
  {| inlineInfo := inlineInfo t; prompt := prompt t; reverse := reverse t;
     hscroll := hscroll t; cx := cx t; cy := cy t; offset := offset t;
     yanked := yanked t; input := input t; multi := multi t;
     sort := sort t; toggleSort := toggleSort t; expect := expect t;
     keymap := keymap t; execmap := execmap t; pressed := pressed t;
     printQuery := printQuery t; history := history t; cycle := cycle t;
     count := count t; progress := progress t; reading := reading t;
     merger := merger t; selected := selected t; suppress := suppress t;
     ticks := v |}.

(** The driver: its key codes and the size of the screen, [C.MaxX()] and
    [C.MaxY()], taken as fixed while one function runs. *)
Variable C : KeyCodes.
Variable MaxX MaxY : Z.

(** [time.Now()]: the [n]-th reading of the clock. *)
Variable clock : nat -> Z.

(** Go's regexp package: a compiled pattern, [Compile],
    [FindAllStringIndex] with no limit on the matches and
    [FindStringIndex].  Strings are byte sequences and match locations
    are pairs of byte offsets. *)
Context {Regexp : Type}.
Variable regexp_Compile : string -> option Regexp.
Variable FindAllStringIndex : Regexp -> list Z -> list (Z * Z).
Variable FindStringIndex : Regexp -> list Z -> option (Z * Z).

(** *** The viewport *)

Definition Length (t : Terminal) : Z := len (merger t).

(** Modelled from the spec: [Merger.Get], the [i]-th item of the result
    view; an index outside the view is a panic. *)
Definition Get (t : Terminal) (i : Z) : option Item :=
  if 0 <=? i then merger t !! Z.to_nat i else None.

Definition maxItems (t : Terminal) : Z :=
  if inlineInfo t then MaxY -% 1 else MaxY -% 2.

Definition constrain (t : Terminal) : Terminal :=
  let count := Length t in
  let height := maxItems t in
  let diffpos := cy t -% offset t in
  let t := set_cy (Util.Constrain (cy t) 0 (count -% 1)) t in
  let t :=
    if cy t >? offset t +% (height -% 1) then
      (* Ceil *)
      set_offset (cy t -% (height -% 1)) t
    else if offset t >? cy t then
      (* Floor *)
      set_offset (cy t) t
    else t in
  (* Adjustment *)
  if count -% offset t <? height then
    let t := set_offset (Util.Max 0 (count -% height)) t in
    set_cy (Util.Constrain (offset t +% diffpos) 0 (count -% 1)) t
  else t.

(** [vset]: the new state and whether the clamped row is the one asked for. *)
Definition vset (o : Z) (t : Terminal) : bool * Terminal :=
  let t := set_cy (Util.Constrain o 0 (Length t -% 1)) t in
  (cy t =? o, t).

Definition vmove (o : Z) (t : Terminal) : Terminal :=
  let o := if reverse t then GoInt.mul o (-1) else o in
  let dest := cy t +% o in
  let dest :=
    if cycle t then
      let max := Length t -% 1 in
      if dest >? max then
        if cy t =? max then 0 else dest
      else if dest <? 0 then
        if cy t =? 0 then max else dest
      else dest
    else dest in
  (vset dest t).2.

(** *** Line editing *)

Definition delChar (t : Terminal) : option (bool * Terminal) :=
  if (len (input t) >? 0) && (cx t <? len (input t)) then
    head ← slice_to (input t) (cx t);
    tail ← slice_from (input t) (cx t +% 1);
    Some (true, set_input (head ++ tail) t)
  else Some (false, t).

Definition findLastMatch (pattern : string) (str : list Z) : Z :=
  match regexp_Compile pattern with
  | None => -1
  | Some rx =>
      match last (FindAllStringIndex rx str) with
      | None => -1
      | Some loc => loc.1
      end
  end.

Definition findFirstMatch (pattern : string) (str : list Z) : Z :=
  match regexp_Compile pattern with
  | None => -1
  | Some rx =>
      match FindStringIndex rx str with
      | None => -1
      | Some loc => loc.1
      end
  end.

(** The pattern does not compile, or it finds no match in [str]: the
    two ways [findLastMatch] and [findFirstMatch] come to return -1. *)
Definition no_match_last (pattern : string) (str : list Z) : Prop :=
  regexp_Compile pattern = None \/
  exists rx, regexp_Compile pattern = Some rx /\ FindAllStringIndex rx str = [].

Definition no_match_first (pattern : string) (str : list Z) : Prop :=
  regexp_Compile pattern = None \/
  exists rx, regexp_Compile pattern = Some rx /\ FindStringIndex rx str = None.

Definition rubout (pattern : string) (t : Terminal) : option Terminal :=
  let pcx := cx t in
  after ← slice_from (input t) (cx t);
  head ← slice_to (input t) (cx t);
  let t := set_cx (findLastMatch pattern (string_of_runes head) +% 1) t in
  cut ← slice (input t) (cx t) pcx;
  let t := set_yanked (copySlice cut) t in
  head ← slice_to (input t) (cx t);
  Some (set_input (head ++ after) t).

Definition keyMatch (key : Z) (event : Event) : bool :=
  (ev_Type event =? key)
  || ((ev_Type event =? C_Rune C) && (ev_Char event =? key -% C_AltZ C)).

(** [placeCursor]: the column the cursor is put on. *)
Definition placeCursor (RuneWidth : rune -> Z) (t : Terminal) : option Z :=
  head ← slice_to (input t) (cx t);
  Some (Z.of_nat (String.length (prompt t)) +% displayWidth RuneWidth head).

(** *** The input loop *)

(** The variables of one turn of the loop in [Loop]: the terminal, the
    requests gathered in [events], the flag [looping], and what the turn
    asked of its collaborators: the commands handed to [executeCommand]
    and the [EvtSearchNew] notices set on the event box. *)
Record LoopState := mkLoopState {
  term : Terminal;
  events : list EventType;
  looping : bool;
  executed : list (option string * list rune);
  searchNew : list bool
}.

Definition with_term (t : Terminal) (s : LoopState) : LoopState :=
  {| term := t; events := events s; looping := looping s;
     executed := executed s; searchNew := searchNew s |}.

(** The closure [req]. *)
Definition req (evts : list EventType) (s : LoopState) : LoopState :=
  fold_left
    (fun s event =>
       {| term := term s;
          events := events s ++ [event];
          looping :=
            if bool_decide (event = reqClose \/ event = reqQuit)
            then false else looping s;
          executed := executed s;
          searchNew := searchNew s |})
    evts s.

(** The closure [selectItem]: the key is inserted only when absent, with
    the current reading of the clock. *)
Definition selectItem (item : Item) (t : Terminal) : bool * Terminal :=
  match selected t !! index item with
  | None =>
      let now := clock (ticks t) in
      let t := set_ticks (S (ticks t)) t in
      (true,
       set_selected
         (<[index item := mkSelectedItem now (asString item)]> (selected t)) t)
  | Some _ => (false, t)
  end.

(** [selectItem] run over a list of items, as in the loop of select-all. *)
Definition select_items (items : list Item) (t : Terminal) : Terminal :=
  fold_left (fun t item => (selectItem item t).2) items t.

(** The closure [toggleY]. *)
Definition toggleY (y : Z) (t : Terminal) : option Terminal :=
  item ← Get t y;
  let '(fresh, t) := selectItem item t in
  if negb fresh then Some (set_selected (delete (index item) (selected t)) t)
  else Some t.

(** The closure [toggle]. *)
Definition toggle (s : LoopState) : option LoopState :=
  if cy (term s) <? Length (term s) then
    t ← toggleY (cy (term s)) (term s);
    Some (req [reqInfo] (with_term t s))
  else Some s.

(** The three loops over the whole result view.  [Get] is called with
    0, 1, ..., [Length] - 1, that is on the items in order. *)
Definition selectAll_loop (t : Terminal) : Terminal :=
  fold_left (fun t item => (selectItem item t).2) (merger t) t.

Definition deselectAll_loop (t : Terminal) : Terminal :=
  fold_left
    (fun t item => set_selected (delete (index item) (selected t)) t)
    (merger t) t.

Definition toggleAll_loop (t : Terminal) : option Terminal :=
  fold_left
    (fun ot (i : nat) => t ← ot; toggleY (Z.of_nat i) t)
    (seq 0 (length (merger t))) (Some t).

(** The scan of the accept keys at the head of the turn. *)
Fixpoint expect_scan (keys : list Z) (event : Event) (s : LoopState)
  : LoopState :=
  match keys with
  | [] => s
  | key :: rest =>
      if keyMatch key event
      then req [reqClose] (with_term (set_pressed key (term s)) s)
      else expect_scan rest event s
  end.

(** The action and the map key an event resolves to. *)
Definition resolve (t : Terminal) (event : Event) : actionType * Z :=
  let action := default actIgnore (keymap t !! ev_Type event) in
  if ev_Type event =? C_Rune C then
    let mapkey := ev_Char event +% C_AltZ C in
    match keymap t !! mapkey with
    | Some act => (act, mapkey)
    | None => (action, mapkey)
    end
  else (action, ev_Type event).

Definition wordBackward : string := "[^[:alnum:]][[:alnum:]]".
Definition wordForward : string := "[[:alnum:]][^[:alnum:]]|(.$)".
Definition spaceBoundary : string := "\s\S".

(** How a turn leaves the [switch]: by falling out of it, or by one of
    the two [continue] statements, which skip the rest of the turn. *)
Inductive Flow :=
  | Fall (s : LoopState)
  | Continue (s : LoopState).

(** The state a turn is in when it leaves the switch. *)
Definition flow_state (flow : Flow) : LoopState :=
  match flow with
  | Fall s => s
  | Continue s => s
  end.

(** The cursor index lies in the query. *)
Definition cursor_ok (t : Terminal) : Prop :=
  0 <= cx t <= len (input t).

(** Two states with the same query, cursor index and yank buffer. *)
Definition same_line (t t' : Terminal) : Prop :=
  cx t' = cx t /\ input t' = input t /\ yanked t' = yanked t.

(** The actions that go through the regexp package. *)
Definition is_word_motion (a : actionType) : bool :=
  match a with
  | actBackwardWord | actForwardWord | actKillWord
  | actUnixWordRubout | actBackwardKillWord => true
  | _ => false
  end.

(** The [actMouse] case. *)
Definition mouse (event : Event) (s : LoopState) : option LoopState :=
  let t := term s in
  let me := ev_Mouse event in
  let mx :=
    Util.Constrain (me_X me -% Z.of_nat (String.length (prompt t))) 0
      (len (input t)) in
  let my := me_Y me in
  let my := if negb (reverse t) then MaxY -% my -% 1 else my in
  let min := if inlineInfo t then 1 else 2 in
  if negb (me_S me =? 0) then
    (* Scroll *)
    if Length t >? 0 then
      s ← (if multi t && me_Mod me then toggle s else Some s);
      Some (req [reqList] (with_term (vmove (me_S me) (term s)) s))
    else Some s
  else if me_Double me then
    (* Double-click *)
    if my >=? min then
      let '(ok, t) := vset (offset t +% my -% min) t in
      let s := with_term t s in
      if ok && (cy t <? Length t) then Some (req [reqClose] s) else Some s
    else Some s
  else if me_Down me then
    if (my =? 0) && (mx >=? 0) then
      (* Prompt *)
      Some (with_term (set_cx mx t) s)
    else if my >=? min then
      (* List *)
      let '(ok, t) := vset (offset t +% my -% min) t in
      let s := with_term t s in
      s ← (if ok && multi t && me_Mod me then toggle s else Some s);
      Some (req [reqList] s)
    else Some s
  else Some s.

(** The [switch] over the action.  [None] is a panic. *)
Definition Loop_switch (action : actionType) (mapkey : Z) (event : Event)
    (s : LoopState) : option Flow :=
  let t := term s in
  match action with
  | actIgnore => Some (Fall s)
  | actExecute =>
      if (cy t >=? 0) && (cy t <? Length t) then
        item ← Get t (cy t);
        Some (Fall {| term := t; events := events s; looping := looping s;
                      executed :=
                        executed s ++ [(execmap t !! mapkey, asString item)];
                      searchNew := searchNew s |})
      else Some (Fall s)
  | actInvalid => Some (Continue s)
  | actToggleSort =>
      let t := set_sort (negb (sort t)) t in
      Some (Continue {| term := t; events := events s; looping := looping s;
                        executed := executed s;
                        searchNew := searchNew s ++ [sort t] |})
  | actBeginningOfLine => Some (Fall (with_term (set_cx 0 t) s))
  | actBackwardChar =>
      if cx t >? 0 then Some (Fall (with_term (set_cx (cx t -% 1) t) s))
      else Some (Fall s)
  | actAbort => Some (Fall (req [reqQuit] s))
  | actDeleteChar =>
      '(deleted, t) ← delChar t;
      let s := with_term t s in
      if negb deleted && (cx t =? 0) then Some (Fall (req [reqQuit] s))
      else Some (Fall s)
  | actEndOfLine => Some (Fall (with_term (set_cx (len (input t)) t) s))
  | actForwardChar =>
      if cx t <? len (input t)
      then Some (Fall (with_term (set_cx (cx t +% 1) t) s))
      else Some (Fall s)
  | actBackwardDeleteChar =>
      if cx t >? 0 then
        head ← slice_to (input t) (cx t -% 1);
        tail ← slice_from (input t) (cx t);
        let t := set_input (head ++ tail) t in
        Some (Fall (with_term (set_cx (cx t -% 1) t) s))
      else Some (Fall s)
  | actSelectAll =>
      if multi t
      then Some (Fall (req [reqList; reqInfo] (with_term (selectAll_loop t) s)))
      else Some (Fall s)
  | actDeselectAll =>
      if multi t
      then Some (Fall (req [reqList; reqInfo]
                         (with_term (deselectAll_loop t) s)))
      else Some (Fall s)
  | actToggle =>
      if multi t && (Length t >? 0) then
        s ← toggle s;
        Some (Fall (req [reqList] s))
      else Some (Fall s)
  | actToggleAll =>
      if multi t then
        t ← toggleAll_loop t;
        Some (Fall (req [reqList; reqInfo] (with_term t s)))
      else Some (Fall s)
  | actToggleDown =>
      if multi t && (Length t >? 0) then
        s ← toggle s;
        Some (Fall (req [reqList] (with_term (vmove (-1) (term s)) s)))
      else Some (Fall s)
  | actToggleUp =>
      if multi t && (Length t >? 0) then
        s ← toggle s;
        Some (Fall (req [reqList] (with_term (vmove 1 (term s)) s)))
      else Some (Fall s)
  | actDown => Some (Fall (req [reqList] (with_term (vmove (-1) t) s)))
  | actUp => Some (Fall (req [reqList] (with_term (vmove 1 t) s)))
  | actAccept => Some (Fall (req [reqClose] s))
  | actClearScreen => Some (Fall (req [reqRedraw] s))
  | actUnixLineDiscard =>
      if cx t >? 0 then
        head ← slice_to (input t) (cx t);
        let t := set_yanked (copySlice head) t in
        tail ← slice_from (input t) (cx t);
        let t := set_input tail t in
        Some (Fall (with_term (set_cx 0 t) s))
      else Some (Fall s)
  | actUnixWordRubout =>
      if cx t >? 0 then
        t ← rubout spaceBoundary t;
        Some (Fall (with_term t s))
      else Some (Fall s)
  | actBackwardKillWord =>
      if cx t >? 0 then
        t ← rubout wordBackward t;
        Some (Fall (with_term t s))
      else Some (Fall s)
  | actYank =>
      tail ← slice_from (input t) (cx t);
      let suffix := copySlice tail in
      head ← slice_to (input t) (cx t);
      let t := set_input ((head ++ yanked t) ++ suffix) t in
      Some (Fall (with_term (set_cx (cx t +% len (yanked t)) t) s))
  | actPageUp =>
      Some (Fall (req [reqList] (with_term (vmove (maxItems t -% 1) t) s)))
  | actPageDown =>
      Some (Fall (req [reqList]
                    (with_term (vmove (GoInt.neg (maxItems t -% 1)) t) s)))
  | actBackwardWord =>
      head ← slice_to (input t) (cx t);
      let ncx := findLastMatch wordBackward (string_of_runes head) +% 1 in
      Some (Fall (with_term (set_cx ncx t) s))
  | actForwardWord =>
      tail ← slice_from (input t) (cx t);
      let ncx :=
        cx t +% (findFirstMatch wordForward (string_of_runes tail) +% 1) in
      Some (Fall (with_term (set_cx ncx t) s))
  | actKillWord =>
      tail ← slice_from (input t) (cx t);
      let ncx :=
        cx t +% findFirstMatch wordForward (string_of_runes tail) +% 1 in
      if ncx >? cx t then
        cut ← slice (input t) (cx t) ncx;
        let t := set_yanked (copySlice cut) t in
        head ← slice_to (input t) (cx t);
        tail ← slice_from (input t) ncx;
        Some (Fall (with_term (set_input (head ++ tail) t) s))
      else Some (Fall s)
  | actKillLine =>
      if cx t <? len (input t) then
        tail ← slice_from (input t) (cx t);
        let t := set_yanked (copySlice tail) t in
        head ← slice_to (input t) (cx t);
        Some (Fall (with_term (set_input head t) s))
      else Some (Fall s)
  | actRune =>
      head ← slice_to (input t) (cx t);
      let prefix := copySlice head in
      tail ← slice_from (input t) (cx t);
      let t := set_input ((prefix ++ [ev_Char event]) ++ tail) t in
      Some (Fall (with_term (set_cx (cx t +% 1) t) s))
  | actPreviousHistory =>
      match history t with
      | Some h =>
          let h := history_override h (input t) in
          let '(line, h) := history_previous h in
          let t := set_input line (set_history (Some h) t) in
          Some (Fall (with_term (set_cx (len (input t)) t) s))
      | None => Some (Fall s)
      end
  | actNextHistory =>
      match history t with
      | Some h =>
          let h := history_override h (input t) in
          let '(line, h) := history_next h in
          let t := set_input line (set_history (Some h) t) in
          Some (Fall (with_term (set_cx (len (input t)) t) s))
      | None => Some (Fall s)
      end
  | actMouse =>
      s ← mouse event s;
      Some (Fall s)
  end.

(** What one turn of the loop leaves behind: the terminal, the requests
    set on the request box in order, whether the loop goes on, and the
    calls made on the collaborators. *)
Record Turn := mkTurn {
  turn_term : Terminal;
  turn_posted : list EventType;
  turn_looping : bool;
  turn_executed : list (option string * list rune);
  turn_searchNew : list bool
}.

(** One turn of the loop in [Loop], from the event read to the requests
    posted.  [previousInput] shares its array with [t.input]; the edits
    made in place change the length whenever they change the text, so
    the comparison that sets [changed] comes out as it does on the two
    texts. *)
Definition Loop_turn (event : Event) (t : Terminal) : option Turn :=
  let previousInput := input t in
  let s := mkLoopState t [reqPrompt] true [] [] in
  let s := expect_scan (expect t) event s in
  let '(action, mapkey) := resolve (term s) event in
  flow ← Loop_switch action mapkey event s;
  match flow with
  | Continue s =>
      Some (mkTurn (term s) [] (looping s) (executed s) (searchNew s))
  | Fall s =>
      let changed :=
        negb (bool_decide (string_of_runes previousInput
                           = string_of_runes (input (term s)))) in
      Some (mkTurn (term s) (events s) (looping s) (executed s)
              (if changed then searchNew s ++ [sort (term s)]
               else searchNew s))
  end.

(** The loop itself, over the events the driver delivers. *)
Fixpoint Loop_run (evs : list Event) (t : Terminal)
  : option (Terminal * list EventType) :=
  match evs with
  | [] => Some (t, [])
  | event :: rest =>
      turn ← Loop_turn event t;
      if turn_looping turn then
        '(t', posted) ← Loop_run rest (turn_term turn);
        Some (t', turn_posted turn ++ posted)
      else Some (turn_term turn, turn_posted turn)
  end.

(** *** Output and the mailbox consumer *)

(** The order in which [range] walks the selection map, and [sort.Sort]
    on a slice of selections under a given [Less]. *)
Variable range_selected : gmap Z selectedItem -> list selectedItem.
Variable sort_Sort :
  (selectedItem -> selectedItem -> bool) -> list selectedItem ->
  list selectedItem.

(** [byTimeOrder.Less]: [a.at.Before(b.at)]. *)
Definition byTimeOrder_Less (a b : selectedItem) : bool :=
  sel_at a <? sel_at b.

(** The selections in the order [output] prints them. *)
Definition printed_order (m : gmap Z selectedItem) : list selectedItem :=
  sort_Sort byTimeOrder_Less (range_selected m).

(** The line [output] prints for the accept key. *)
Definition pressed_line (t : Terminal) : list rune :=
  if pressed t =? 0 then []
  else if Util.Between (pressed t) (C_AltA C) (C_AltZ C) then
    runes_of "alt-" ++ [pressed t +% 97 -% C_AltA C]
  else if Util.Between (pressed t) (C_F1 C) (C_F4 C) then
    runes_of "f" ++ [pressed t +% 49 -% C_F1 C]
  else if Util.Between (pressed t) (C_CtrlA C) (C_CtrlZ C) then
    runes_of "ctrl-" ++ [pressed t +% 97 -% C_CtrlA C]
  else [pressed t -% C_AltZ C].

(** The three parts of [output], each a list of lines. *)
Definition output_query (t : Terminal) : list (list rune) :=
  if printQuery t then [input t] else [].

Definition output_key (t : Terminal) : list (list rune) :=
  if len (expect t) >? 0 then [pressed_line t] else [].

Definition output_items (t : Terminal) : option (list (list rune)) :=
  if Z.of_nat (size (selected t)) =? 0 then
    let cnt := Length t in
    if (cnt >? 0) && (cnt >? cy t) then
      item ← Get t (cy t);
      Some [asString item]
    else Some []
  else
    let sels := range_selected (selected t) in
    let sels := sort_Sort byTimeOrder_Less sels in
    Some (map sel_text sels).

(** [output]: the lines written to standard output. *)
Definition output (t : Terminal) : option (list (list rune)) :=
  items ← output_items t;
  Some (output_query t ++ output_key t ++ items).

(** How the process stands after a request has been served: still
    running, ended with an exit status, the lines written to standard
    output and the line appended to the history, or stopped by a panic. *)
Inductive Outcome :=
  | Running (t : Terminal)
  | Exited (code : Z) (stdout : list (list rune))
      (appended : option (list rune))
  | Panicked.

(** The closure [exit]. *)
Definition exit (code : Z) (stdout : list (list rune)) (t : Terminal)
  : Outcome :=
  Exited code stdout
    (if (code =? 0) && bool_decide (is_Some (history t))
     then Some (input t) else None).

(** One case of the consumer's [switch].  Painting goes to the screen,
    not to standard output; what it leaves in the state is the effect of
    [constrain], with which [printList] begins. *)
Definition serve (r : EventType) (t : Terminal) : Outcome :=
  match r with
  | reqPrompt => Running t
  | reqInfo => Running t
  | reqList => Running (constrain t)
  | reqRefresh => Running (set_suppress false t)
  | reqRedraw => Running (constrain t)
  | reqClose =>
      match output t with
      | Some lines => exit 0 lines t
      | None => Panicked
      end
  | reqQuit => exit 1 [] t
  end.

(** The consumer's loop over the pending requests, in the order the
    [range] over the request set yields them. *)
Fixpoint consume (pending : list EventType) (t : Terminal) : Outcome :=
  match pending with
  | [] => Running t
  | r :: rest =>
      match serve r t with
      | Running t => consume rest t
      | done => done
      end
  end.

End Term.

(** ** The three boundary patterns under Go's regexp

    A model of the regexp package, as far as the terminal uses it: the
    three patterns it compiles, matched leftmost-first over UTF-8 text,
    with locations in bytes. *)

Module GoRegexp.

(** A decoded code point and the number of bytes it takes. *)
Definition Char : Type := (rune * Z)%type.

Definition is_cont (b : Z) : bool := (128 <=? b) && (b <? 192).

(** UTF-8 decoding; a byte that starts no well-formed sequence decodes
    to U+FFFD with width one. *)
Fixpoint decode (fuel : nat) (s : list Z) : list Char :=
  match fuel with
  | O => []
  | S fuel =>
      match s with
      | [] => []
      | b0 :: rest =>
          if b0 <? 128 then (b0, 1) :: decode fuel rest
          else match rest with
               | b1 :: rest1 =>
                   if (194 <=? b0) && (b0 <? 224) && is_cont b1 then
                     (Z.lor (Z.shiftl (Z.land b0 31) 6) (Z.land b1 63), 2)
                       :: decode fuel rest1
                   else match rest1 with
                        | b2 :: rest2 =>
                            if (224 <=? b0) && (b0 <? 240)
                               && is_cont b1 && is_cont b2 then
                              (Z.lor (Z.shiftl (Z.land b0 15) 12)
                                 (Z.lor (Z.shiftl (Z.land b1 63) 6)
                                    (Z.land b2 63)), 3)
                                :: decode fuel rest2
                            else match rest2 with
                                 | b3 :: rest3 =>
                                     if (240 <=? b0) && (b0 <? 245)
                                        && is_cont b1 && is_cont b2
                                        && is_cont b3 then
                                       (Z.lor (Z.shiftl (Z.land b0 7) 18)
                                          (Z.lor (Z.shiftl (Z.land b1 63) 12)
                                             (Z.lor (Z.shiftl (Z.land b2 63) 6)
                                                (Z.land b3 63))), 4)
                                         :: decode fuel rest3
                                     else (65533, 1) :: decode fuel rest
                                 | [] => (65533, 1) :: decode fuel rest
                                 end
                        | [] => (65533, 1) :: decode fuel rest
                        end
               | [] => (65533, 1) :: decode fuel rest
               end
      end
  end.

Definition chars_of (s : list Z) : list Char := decode (length s) s.

(** [[[:alnum:]]], [\s] and [.] as RE2 reads them. *)
Definition alnum (r : rune) : bool :=
  ((48 <=? r) && (r <=? 57)) || ((65 <=? r) && (r <=? 90))
  || ((97 <=? r) && (r <=? 122)).

Definition space (r : rune) : bool :=
  (r =? 9) || (r =? 10) || (r =? 12) || (r =? 13) || (r =? 32).

Definition any_but_newline (r : rune) : bool := negb (r =? 10).

(** The patterns: a sequence of character classes, optionally anchored
    at the end of the text, or an alternation of such, tried in order. *)
Inductive Regexp :=
  | Classes (cs : list (rune -> bool)) (at_end : bool)
  | Alt (a b : Regexp).

(** The width in bytes of a match of [rx] at the head of [s], if any. *)
Fixpoint match_classes (cs : list (rune -> bool)) (at_end : bool)
    (s : list Char) : option Z :=
  match cs with
  | [] => if at_end then (if s is [] then Some 0 else None) else Some 0
  | c :: cs =>
      match s with
      | [] => None
      | (r, w) :: s =>
          if c r then n ← match_classes cs at_end s; Some (w + n) else None
      end
  end.

Fixpoint match_here (rx : Regexp) (s : list Char) : option Z :=
  match rx with
  | Classes cs at_end => match_classes cs at_end s
  | Alt a b =>
      match match_here a s with
      | Some n => Some n
      | None => match_here b s
      end
  end.

(** The leftmost match at or after byte [pos]. *)
Fixpoint find_from (rx : Regexp) (pos : Z) (s : list Char)
  : option (Z * Z) :=
  match match_here rx s with
  | Some n => Some (pos, pos + n)
  | None =>
      match s with
      | [] => None
      | (_, w) :: s => find_from rx (pos + w) s
      end
  end.

(** Drops the characters that lie before byte [target]. *)
Fixpoint skip_to (pos target : Z) (s : list Char) : Z * list Char :=
  match s with
  | [] => (pos, [])
  | (_, w) :: rest =>
      if pos <? target then skip_to (pos + w) target rest else (pos, s)
  end.

(** Successive matches, each sought from the end of the one before.  The
    patterns at hand match no empty string, so every match moves on. *)
Fixpoint find_all (fuel : nat) (rx : Regexp) (pos : Z) (s : list Char)
  : list (Z * Z) :=
  match fuel with
  | O => []
  | S fuel =>
      match find_from rx pos s with
      | None => []
      | Some (b, e) =>
          if e <=? b then [(b, e)]
          else
            let '(pos', s') := skip_to pos e s in
            (b, e) :: find_all fuel rx pos' s'
      end
  end.

(** [Compile] on the patterns of the terminal; the model knows no other
    pattern and reports it as an error. *)
Definition Compile (pattern : string) : option Regexp :=
  if String.eqb pattern "[^[:alnum:]][[:alnum:]]" then
    Some (Classes [fun r => negb (alnum r); alnum] false)
  else if String.eqb pattern "[[:alnum:]][^[:alnum:]]|(.$)" then
    Some (Alt (Classes [alnum; fun r => negb (alnum r)] false)
              (Classes [any_but_newline] true))
  else if String.eqb pattern "\s\S" then
    Some (Classes [space; fun r => negb (space r)] false)
  else None.

Definition FindStringIndex (rx : Regexp) (s : list Z) : option (Z * Z) :=
  find_from rx 0 (chars_of s).

Definition FindAllStringIndex (rx : Regexp) (s : list Z) : list (Z * Z) :=
  let cs := chars_of s in
  find_all (S (length cs)) rx 0 cs.

End GoRegexp.

(** Patterns that match no empty string, and decoded texts all of whose
    characters take one byte. *)
Fixpoint nonempty (rx : GoRegexp.Regexp) : Prop :=
  match rx with
  | GoRegexp.Classes cs _ => cs <> []
  | GoRegexp.Alt a b => nonempty a /\ nonempty b
  end.

Definition unit_chars (s : list GoRegexp.Char) : Prop :=
  Forall (fun c => c.2 = 1) s.

(** ** States for the scenarios *)

(** A terminal with a list of five items, the cursor on row 0 and no
    history, for the scenarios. *)
Definition five_items : list Item :=
  map (fun i => mkItem i (runes_of "item") [] (runes_of "item"))
      [0; 1; 2; 3; 4].

Definition scenario_term (rev cyc : bool) : @Terminal unit :=
  {| inlineInfo := false; prompt := "> "; reverse := rev; hscroll := false;
     cx := 0; cy := 0; offset := 0; yanked := []; input := [];
     multi := false; sort := true; toggleSort := false; expect := [];
     keymap := ∅; execmap := ∅; pressed := 0; printQuery := false;
     history := None; cycle := cyc; count := 5; progress := 100;
     reading := false; merger := five_items; selected := ∅;
     suppress := false; ticks := 0 |}.

(** Four items, the cursor on row 2 and the scroll offset 3; on a screen
    of five rows three of them show the list. *)
Definition constrain_example : @Terminal unit :=
  {| inlineInfo := false; prompt := "> "; reverse := false; hscroll := false;
     cx := 0; cy := 2; offset := 3; yanked := []; input := [];
     multi := false; sort := true; toggleSort := false; expect := [];
     keymap := ∅; execmap := ∅; pressed := 0; printQuery := false;
     history := None; cycle := false; count := 4; progress := 100;
     reading := false; merger := take 4 five_items; selected := ∅;
     suppress := false; ticks := 0 |}.

(** The driver's key codes are its own; the scenarios need some, and
    take these. *)
Definition example_keys : KeyCodes :=
  {| C_Rune := 1000; C_Mouse := 1001; C_Invalid := 1002;
     C_CtrlA := 1; C_CtrlZ := 26; C_F1 := 300; C_F4 := 303;
     C_AltA := 400; C_AltZ := 425 |}.

(** A history collaborator that keeps nothing. *)
Definition no_override (h : unit) (line : list rune) : unit := h.
Definition no_line (h : unit) : list rune * unit := ([], h).

(** One turn of the loop with the regexp model in place of the package,
    on a screen of 24 rows, the clock reading 0, 1, 2, ... *)
Definition example_turn (event : Event) (t : @Terminal unit)
  : option (@Turn unit) :=
  Loop_turn no_override no_line no_line example_keys 24 Z.of_nat
    GoRegexp.Compile GoRegexp.FindAllStringIndex GoRegexp.FindStringIndex
    event t.

(** A key event. *)
Definition key_event (key : Z) : Event :=
  mkEvent key 0 (mkMouseEvent 0 0 0 false false false).

(** A terminal holding a query and a cursor, with five bindings in its
    key map. *)
Definition KEY_FORWARD_WORD : Z := 10.
Definition KEY_BACKWARD_KILL_WORD : Z := 11.
Definition KEY_YANK : Z := 12.
Definition KEY_BACKWARD_WORD : Z := 13.
Definition KEY_DELETE_CHAR : Z := 4.

Definition example_keymap : gmap Z actionType :=
  <[KEY_FORWARD_WORD := actForwardWord]>
    (<[KEY_BACKWARD_KILL_WORD := actBackwardKillWord]>
       (<[KEY_YANK := actYank]>
          (<[KEY_BACKWARD_WORD := actBackwardWord]>
             (<[KEY_DELETE_CHAR := actDeleteChar]> ∅)))).

Definition query_term (query : list rune) (cursor : Z) : @Terminal unit :=
  {| inlineInfo := false; prompt := "> "; reverse := false; hscroll := false;
     cx := cursor; cy := 0; offset := 0; yanked := []; input := query;
     multi := false; sort := true; toggleSort := false; expect := [];
     keymap := example_keymap; execmap := ∅; pressed := 0;
     printQuery := false; history := None; cycle := false; count := 0;
     progress := 100; reading := false; merger := []; selected := ∅;
     suppress := false; ticks := 0 |}.

(** The order of [map_to_list] for the walk over the selection map, and
    a merge sort for [sort.Sort]. *)
Definition example_range (m : gmap Z selectedItem) : list selectedItem :=
  (map_to_list m).*2.

Definition example_sort (less : selectedItem -> selectedItem -> bool)
    (l : list selectedItem) : list selectedItem :=
  merge_sort (fun a b => Is_true (negb (less b a))) l.

(** Five items in multi-select mode, of which the fourth was selected at
    time 10 and the second at time 20, no query line and no accept
    keys. *)
Definition selection_term : @Terminal unit :=
  {| inlineInfo := false; prompt := "> "; reverse := false; hscroll := false;
     cx := 0; cy := 0; offset := 0; yanked := []; input := [];
     multi := true; sort := true; toggleSort := false; expect := [];
     keymap := example_keymap; execmap := ∅; pressed := 0;
     printQuery := false; history := None; cycle := false; count := 5;
     progress := 100; reading := false; merger := five_items;
     selected :=
       <[3 := mkSelectedItem 10 (runes_of "item")]>
         (<[1 := mkSelectedItem 20 (runes_of "item")]> ∅);
     suppress := false; ticks := 0 |}.

(** What [colorOffsets] returns for an item without colors of its own:
    its match offsets, each in the match color. *)
Definition match_colorOffsets (item : Item) (color : Z) (bold current : bool)
  : list colorOffset :=
  map (fun off => mkColorOffset off color bold) (offsets item).

(** A tab followed by "abcdefgh", with "abcd" matched. *)
Definition tab_item : Item :=
  mkItem 0 (TAB :: runes_of "abcdefgh") [(1, 5)] (TAB :: runes_of "abcdefgh").

(** The alphabet, with "uvw" matched. *)
Definition alphabet_item : Item :=
  mkItem 1 (runes_of "abcdefghijklmnopqrstuvwxyz") [(20, 23)]
    (runes_of "abcdefghijklmnopqrstuvwxyz").

(** Ten ideographs, two columns each, of which the first eight are
    matched. *)
Definition wide_item : Item :=
  mkItem 3 (replicate 10 19990) [(0, 8)] (replicate 10 19990).

(** ** Vocabulary for the facts about the loop, the editor and the painter *)

(** The row of the list a mouse event points at: the screen row is
    mirrored unless the layout is reversed, and the rows of the prompt
    and the info line come off. *)
Definition pointed_row {History : Type} (MaxY : Z) (t : @Terminal History)
    (me : MouseEvent) : Z :=
  let my := if reverse t then me_Y me else MaxY - me_Y me - 1 in
  let min := if inlineInfo t then 1 else 2 in
  offset t + my - min.

(** The actions that can change the text of the query. *)
Definition edits_query (a : actionType) : bool :=
  match a with
  | actRune | actBackwardDeleteChar | actDeleteChar | actKillLine
  | actKillWord | actUnixLineDiscard | actUnixWordRubout | actYank
  | actBackwardKillWord | actPreviousHistory | actNextHistory => true
  | _ => false
  end.

(** The actions that leave the turn by [continue]. *)
Definition skips_turn (a : actionType) : bool :=
  match a with
  | actInvalid | actToggleSort => true
  | _ => false
  end.

(** The actions that cut text out of the query into the yank buffer. *)
Definition is_kill (a : actionType) : bool :=
  match a with
  | actKillLine | actKillWord | actUnixLineDiscard | actUnixWordRubout
  | actBackwardKillWord => true
  | _ => false
  end.

(** A request that ends the loop. *)
Definition closes (e : EventType) : bool :=
  bool_decide (e = reqClose \/ e = reqQuit).

(** The state [s'] comes from [s] by calls of [req]: requests were
    appended, and the loop was stopped if one of them ends it. *)
Definition posts_more {History : Type} (s s' : @LoopState History) : Prop :=
  exists evts,
    events s' = events s ++ evts /\
    looping s' = looping s && forallb (fun e => negb (closes e)) evts.

(** What a step of the turn keeps: the requests only grow, through
    [req]; the selection stands unless multi-select is on; the query,
    the search notices and the key pressed stand. *)
Definition keeps {History : Type} (s s' : @LoopState History) : Prop :=
  posts_more s s' /\
  (multi (term s) = false -> selected (term s') = selected (term s)) /\
  input (term s') = input (term s) /\
  searchNew s' = searchNew s /\
  multi (term s') = multi (term s) /\
  pressed (term s') = pressed (term s).

(** A text whose runes take one column each: no tab and no wide rune. *)
Definition narrow (RuneWidth : rune -> Z) (runes : list rune) : Prop :=
  Forall (fun r => r <> TAB /\ RuneWidth r = 1) runes.

(** The body of [toggleY] once [Get] has handed out the item. *)
Definition toggle_item {History : Type} (clock : nat -> Z) (item : Item)
    (t : @Terminal History) : Terminal :=
  let '(fresh, t) := selectItem clock item t in
  if negb fresh then set_selected (delete (index item) (selected t)) t
  else t.

(** The strings painted so far are the tab expansion of the text up to
    [index], and [prefixWidth] is the column it ends on. *)
Definition painted_up_to (RuneWidth : rune -> Z) (text : list rune)
    (index prefixWidth : Z) (out : list CPrint) : Prop :=
  concat (cp_str <$> out)
    = (processTabs RuneWidth (take (Z.to_nat index) text) 0).1 /\
  prefixWidth = (processTabs RuneWidth (take (Z.to_nat index) text) 0).2.

(** ** Painting the list, and the updates from the matcher *)

(** The color pairs of the driver that the list painter names. *)
Record ColorPairs := mkColorPairs {
  ColMatch : Z;
  ColCurrent : Z;
  ColCurrentMatch : Z;
  ColCursor : Z;
  ColSelected : Z
}.

(** A call on the driver made while painting.  Strings are UTF-8. *)
Inductive Draw :=
  | DMove (y x : Z)
  | DMoveAndClear (y x : Z)
  | DPrint (str : list Z)
  | DCPrint (pair : Z) (bold : bool) (str : list Z).

(** The bytes of a string literal. *)
Definition bytes_of (s : string) : list Z :=
  map (fun a => Z.of_N (N_of_ascii a)) (list_ascii_of_string s).

(** The call of the driver behind a call of [CPrint] on a slice of the
    text. *)
Definition draw_of (c : CPrint) : Draw :=
  DCPrint (cp_color c) (cp_bold c) (string_of_runes (cp_str c)).

(** One turn of the loop of [printList]: the call of [move] and, where
    an item is left to show, the call of [printItem] with its arguments
    and the calls it made. *)
Record Row := mkRow {
  row_move : Draw;
  row_item : option (Item * bool * list Draw)
}.

(** An item whose match offsets end inside its text, and whose text is
    not beyond the reach of [int32]. *)
Definition paintable (item : Item) : Prop :=
  maxe_of (offsets item) <= len (text item) /\
  len (text item) <= 1073741824.

Section Paint.

Context {History : Type}.
Variable RuneWidth : rune -> Z.
Variable P : ColorPairs.
Variable MaxX MaxY : Z.

(** [Item.colorOffsets], declared with the item. *)
Variable colorOffsets : Item -> Z -> bool -> bool -> list colorOffset.

Implicit Types t : @Terminal History.

Definition move t (y x : Z) (clear : bool) : Draw :=
  let y := if negb (reverse t) then MaxY -% y -% 1 else y in
  if clear then DMoveAndClear y x else DMove y x.

Definition printItem t (item : Item) (current : bool) : option (list Draw) :=
  let sel := bool_decide (is_Some (selected t !! index item)) in
  if current then
    body ← printHighlighted RuneWidth (hscroll t) MaxX colorOffsets item
             true (ColCurrent P) (ColCurrentMatch P) true;
    Some ([DCPrint (ColCursor P) true (bytes_of ">");
           if sel then DCPrint (ColSelected P) true (bytes_of ">")
           else DCPrint (ColCurrent P) true (bytes_of " ")]
            ++ map draw_of body)
  else
    body ← printHighlighted RuneWidth (hscroll t) MaxX colorOffsets item
             false 0 (ColMatch P) false;
    Some ([DCPrint (ColCursor P) true (bytes_of " ");
           if sel then DCPrint (ColSelected P) true (bytes_of ">")
           else DPrint (bytes_of " ")]
            ++ map draw_of body).

(** The body of the loop of [printList], for the row [i]. *)
Definition printList_row t (count i : Z) : option Row :=
  let line := if inlineInfo t then i +% 1 else i +% 2 in
  let mv := move t line 0 true in
  if i <? count then
    item ← Get t (i +% offset t);
    let current := i =? cy t -% offset t in
    body ← printItem t item current;
    Some (mkRow mv (Some (item, current, body)))
  else Some (mkRow mv None).

(** [printList]: the state [constrain] leaves and the rows painted, from
    the first. *)
Definition printList t : option (Terminal * list Row) :=
  let t := constrain MaxY t in
  let maxy := maxItems MaxY t in
  let count := Length t -% offset t in
  rows ← mapM (fun i : nat => printList_row t count (Z.of_nat i))
         (seq 0 (Z.to_nat maxy));
  Some (t, rows).

End Paint.

(** [UpdateList]: the new state and the requests set on the request
    box. *)
Definition UpdateList {History : Type} (merger' : list Item)
    (t : @Terminal History) : Terminal * list EventType :=
  ({| inlineInfo := inlineInfo t; prompt := prompt t; reverse := reverse t;
      hscroll := hscroll t; cx := cx t; cy := cy t; offset := offset t;
      yanked := yanked t; input := input t; multi := multi t;
      sort := sort t; toggleSort := toggleSort t; expect := expect t;
      keymap := keymap t; execmap := execmap t; pressed := pressed t;
      printQuery := printQuery t; history := history t; cycle := cycle t;
      count := count t; progress := 100; reading := reading t;
      merger := merger'; selected := selected t; suppress := suppress t;
      ticks := ticks t |},
   [reqInfo; reqList]).

(** Modelled from the spec: the fields of [Options] that [NewTerminal]
    reads into the state.  The type is declared outside the sources at
    hand; the query is a string, here its bytes. *)
Record Options {History : Type} := mkOptions {
  opt_Query : list Z;
  opt_InlineInfo : bool;
  opt_Prompt : string;
  opt_Reverse : bool;
  opt_Hscroll : bool;
  opt_Multi : bool;
  opt_Sort : Z;
  opt_ToggleSort : bool;
  opt_Expect : list Z;
  opt_Keymap : gmap Z actionType;
  opt_Execmap : gmap Z string;
  opt_PrintQuery : bool;
  opt_History : option History;
  opt_Cycle : bool
}.

(** [NewTerminal].  [runes_of_string] is the conversion [[]rune(s)] of
    the language; [EmptyMerger] is the merger without items; the fields
    the constructor does not name have their zero values. *)
Definition NewTerminal {History : Type}
    (runes_of_string : list Z -> list rune) (opts : @Options History)
  : @Terminal History :=
  let input := runes_of_string (opt_Query opts) in
  {| inlineInfo := opt_InlineInfo opts; prompt := opt_Prompt opts;
     reverse := opt_Reverse opts; hscroll := opt_Hscroll opts;
     cx := len input; cy := 0; offset := 0; yanked := []; input := input;
     multi := opt_Multi opts; sort := opt_Sort opts >? 0;
     toggleSort := opt_ToggleSort opts; expect := opt_Expect opts;
     keymap := opt_Keymap opts; execmap := opt_Execmap opts; pressed := 0;
     printQuery := opt_PrintQuery opts; history := opt_History opts;
     cycle := opt_Cycle opts; count := 0; progress := 0; reading := true;
     merger := []; selected := ∅; suppress := true; ticks := 0 |}.

(** ** More states for the examples *)

(** Five items with the cursor on the last one and the list not
    scrolled. *)
Definition bottom_term : @Terminal unit :=
  set_cy 4 (scenario_term false false).

(** Keys for the examples, and a key map that binds them. *)
Definition KEY_UP : Z := 14.
Definition KEY_TOGGLE : Z := 15.
Definition KEY_TOGGLE_SORT : Z := 16.
Definition KEY_KILL_LINE : Z := 17.
Definition KEY_BACKWARD_DELETE_CHAR : Z := 18.

Definition list_keymap : gmap Z actionType :=
  <[KEY_UP := actUp]>
    (<[KEY_TOGGLE := actToggle]>
       (<[KEY_TOGGLE_SORT := actToggleSort]>
          (<[KEY_KILL_LINE := actKillLine]>
             (<[KEY_BACKWARD_DELETE_CHAR := actBackwardDeleteChar]>
                (<[C_Rune example_keys := actRune]>
                   (<[C_Mouse example_keys := actMouse]> example_keymap)))))).

(** Five items, the query "abc" with the cursor after the "a", and the
    given multi-select setting and accept keys. *)
Definition list_term (multi_on : bool) (accept : list Z) : @Terminal unit :=
  {| inlineInfo := false; prompt := "> "; reverse := false; hscroll := false;
     cx := 1; cy := 0; offset := 0; yanked := []; input := runes_of "abc";
     multi := multi_on; sort := true; toggleSort := true; expect := accept;
     keymap := list_keymap; execmap := ∅; pressed := 0;
     printQuery := false; history := None; cycle := false; count := 5;
     progress := 100; reading := false; merger := five_items;
     selected := ∅; suppress := false; ticks := 0 |}.

(** The state a turn of the loop starts in. *)
Definition turn_state (t : @Terminal unit) : @LoopState unit :=
  mkLoopState t [reqPrompt] true [] [].

(** A press of the left button at a row and a column, single or
    double, and a typed rune. *)
Definition click_event (y x : Z) (double : bool) : Event :=
  mkEvent (C_Mouse example_keys) 0 (mkMouseEvent y x 0 true double false).

Definition rune_event (r : rune) : Event :=
  mkEvent (C_Rune example_keys) r (mkMouseEvent 0 0 0 false false false).

(** Color pairs for the examples. *)
Definition example_colors : ColorPairs :=
  {| ColMatch := 1; ColCurrent := 2; ColCurrentMatch := 3; ColCursor := 4;
     ColSelected := 5 |}.

(** Options for the examples: the query "ab", multi-select on. *)
Definition example_options : @Options unit :=
  {| opt_Query := [97; 98]; opt_InlineInfo := false; opt_Prompt := "> ";
     opt_Reverse := false; opt_Hscroll := true; opt_Multi := true;
     opt_Sort := 1000; opt_ToggleSort := false; opt_Expect := [];
     opt_Keymap := list_keymap; opt_Execmap := ∅; opt_PrintQuery := false;
     opt_History := None; opt_Cycle := false |}.

(** The conversion of a string to its code points, through the decoder
    of the regexp model. *)
Definition example_runes_of_string (s : list Z) : list rune :=
  (GoRegexp.chars_of s).*1.

(** * Facts *)

(** ** Machine integers that do not wrap *)

Lemma wrap64_fits z : GoInt.fits z -> GoInt.wrap 64 z = z.
Proof.
  unfold GoInt.fits, GoInt.min_int, GoInt.max_int, GoInt.wrap. intros H.
  change (2 ^ (64 - 1)) with 9223372036854775808 in *.
  change (2 ^ 63) with 9223372036854775808 in *.
  change (2 ^ 64) with 18446744073709551616.
  rewrite Z.mod_small; lia.
Qed.

Lemma wrap32_fits z : GoInt.fits32 z -> GoInt.wrap 32 z = z.
Proof.
  unfold GoInt.fits32, GoInt.min_int32, GoInt.max_int32, GoInt.wrap. intros H.
  change (2 ^ (32 - 1)) with 2147483648 in *.
  change (2 ^ 31) with 2147483648 in *.
  change (2 ^ 32) with 4294967296.
  rewrite Z.mod_small; lia.
Qed.

Lemma add_fits x y :
  - 9223372036854775808 <= x + y <= 9223372036854775807 -> x +% y = x + y.
Proof. intros H. apply wrap64_fits. exact H. Qed.

Lemma sub_fits x y :
  - 9223372036854775808 <= x - y <= 9223372036854775807 -> x -% y = x - y.
Proof. intros H. apply wrap64_fits. exact H. Qed.

Lemma mul_fits x y :
  - 9223372036854775808 <= x * y <= 9223372036854775807 ->
  GoInt.mul x y = x * y.
Proof. intros H. apply wrap64_fits. exact H. Qed.

Lemma neg_fits x :
  - 9223372036854775808 <= - x <= 9223372036854775807 -> GoInt.neg x = - x.
Proof. intros H. apply wrap64_fits. exact H. Qed.

Lemma add32_fits x y :
  - 2147483648 <= x + y <= 2147483647 -> GoInt.add32 x y = x + y.
Proof. intros H. apply wrap32_fits. exact H. Qed.

Lemma sub32_fits x y :
  - 2147483648 <= x - y <= 2147483647 -> GoInt.sub32 x y = x - y.
Proof. intros H. apply wrap32_fits. exact H. Qed.

Lemma to_int32_fits x :
  - 2147483648 <= x <= 2147483647 -> GoInt.to_int32 x = x.
Proof. intros H. apply wrap32_fits. exact H. Qed.

(** Rewrites away every operation whose operands are seen not to wrap. *)
Ltac int_arith :=
  repeat first
    [ rewrite add_fits by lia
    | rewrite sub_fits by lia
    | rewrite mul_fits by lia
    | rewrite neg_fits by lia ].

(** ** Clamps *)

Lemma Constrain_range val lo hi :
  lo <= hi -> lo <= Util.Constrain val lo hi <= hi.
Proof. unfold Util.Constrain. intros. repeat case_match; lia. Qed.

Lemma Constrain_id val lo hi :
  lo <= val <= hi -> Util.Constrain val lo hi = val.
Proof. unfold Util.Constrain. intros. repeat case_match; lia. Qed.

Lemma Constrain32_range val lo hi :
  lo <= hi -> lo <= Util.Constrain32 val lo hi <= hi.
Proof. unfold Util.Constrain32. intros. repeat case_match; lia. Qed.

Lemma Constrain32_mono a b lo hi :
  lo <= hi -> a <= b -> Util.Constrain32 a lo hi <= Util.Constrain32 b lo hi.
Proof. unfold Util.Constrain32. intros. repeat case_match; lia. Qed.

Lemma Max_spec a b : Util.Max a b = Z.max a b.
Proof. unfold Util.Max. case_match; lia. Qed.

Lemma Max32_spec a b : Util.Max32 a b = Z.max a b.
Proof. unfold Util.Max32. case_match; lia. Qed.

Lemma Min32_spec a b : Util.Min32 a b = Z.min a b.
Proof. unfold Util.Min32. case_match; lia. Qed.

(** ** Lengths and slices *)

Lemma len_nonneg {A} (l : list A) : 0 <= len l.
Proof. unfold len. lia. Qed.

Lemma len_app {A} (l k : list A) : len (l ++ k) = len l + len k.
Proof. unfold len. rewrite length_app. lia. Qed.

Lemma len_cons {A} (x : A) (l : list A) : len (x :: l) = 1 + len l.
Proof. unfold len. simpl length. lia. Qed.

Lemma len_take {A} (l : list A) n :
  0 <= n <= len l -> len (take (Z.to_nat n) l) = n.
Proof. unfold len. intros H. rewrite length_take. lia. Qed.

Lemma len_drop {A} (l : list A) n :
  0 <= n <= len l -> len (drop (Z.to_nat n) l) = len l - n.
Proof. unfold len. intros H. rewrite length_drop. lia. Qed.

Lemma slice_from_Some {A} (l : list A) lo :
  0 <= lo <= len l -> slice_from l lo = Some (drop (Z.to_nat lo) l).
Proof.
  intros H. unfold slice_from.
  destruct (0 <=? lo) eqn:E1; [|lia].
  destruct (lo <=? len l) eqn:E2; [reflexivity|lia].
Qed.

Lemma slice_to_Some {A} (l : list A) hi :
  0 <= hi <= len l -> slice_to l hi = Some (take (Z.to_nat hi) l).
Proof.
  intros H. unfold slice_to.
  destruct (0 <=? hi) eqn:E1; [|lia].
  destruct (hi <=? len l) eqn:E2; [reflexivity|lia].
Qed.

Lemma slice_Some {A} (l : list A) lo hi :
  0 <= lo -> lo <= hi -> hi <= len l ->
  slice l lo hi = Some (take (Z.to_nat (hi - lo)) (drop (Z.to_nat lo) l)).
Proof.
  intros H1 H2 H3. unfold slice.
  destruct (0 <=? lo) eqn:E1; [|lia].
  destruct (lo <=? hi) eqn:E2; [|lia].
  destruct (hi <=? len l) eqn:E3; [reflexivity|lia].
Qed.

(** ** The viewport: [vset], [vmove] and [constrain] *)

Section Viewport.

Context {History : Type}.
Implicit Types t : @Terminal History.

Lemma vset_cy o t :
  cy (vset o t).2 = Util.Constrain o 0 (Length t -% 1).
Proof. reflexivity. Qed.

(** [vmove] written out: the row it leaves the cursor on. *)
Lemma vmove_cy o t :
  cy (vmove o t) =
  let o := if reverse t then GoInt.mul o (-1) else o in
  let dest := cy t +% o in
  let max := Length t -% 1 in
  Util.Constrain
    (if cycle t then
       if dest >? max then (if cy t =? max then 0 else dest)
       else if dest <? 0 then (if cy t =? 0 then max else dest)
       else dest
     else dest) 0 max.
Proof. reflexivity. Qed.

(** C4, as amended.  On a list of five items with the cursor on row 0:
    in the layout that is not reversed, [vmove 1] takes the cursor to
    row 1, [vmove (-1)] takes it back to row 0, and on row 0 [vmove (-1)]
    with cycling wraps to row 4; in the reversed layout the same holds
    with the signs exchanged, which is the scenario as the claim words
    it.  The multi-select setting plays no part. *)
Theorem vmove_five_items_scenario t :
  Length t = 5 -> cy t = 0 ->
  (reverse t = false ->
     cy (vmove 1 t) = 1 /\
     cy (vmove (-1) (vmove 1 t)) = 0 /\
     (cycle t = true -> cy (vmove (-1) t) = 4)) /\
  (reverse t = true ->
     cy (vmove (-1) t) = 1 /\
     cy (vmove 1 (vmove (-1) t)) = 0 /\
     (cycle t = true -> cy (vmove 1 t) = 4)).
Proof.
  intros Hlen Hcy.
  split; intros Hrev.
  - repeat split.
    + rewrite vmove_cy, Hrev, Hlen, Hcy. destruct (cycle t); reflexivity.
    + rewrite vmove_cy. change (reverse (vmove 1 t)) with (reverse t).
      change (cycle (vmove 1 t)) with (cycle t).
      change (Length (vmove 1 t)) with (Length t).
      rewrite (vmove_cy 1 t), Hrev, Hlen, Hcy.
      destruct (cycle t); reflexivity.
    + intros Hcyc. rewrite vmove_cy, Hrev, Hlen, Hcy, Hcyc. reflexivity.
  - repeat split.
    + rewrite vmove_cy, Hrev, Hlen, Hcy. destruct (cycle t); reflexivity.
    + rewrite vmove_cy. change (reverse (vmove (-1) t)) with (reverse t).
      change (cycle (vmove (-1) t)) with (cycle t).
      change (Length (vmove (-1) t)) with (Length t).
      rewrite (vmove_cy (-1) t), Hrev, Hlen, Hcy.
      destruct (cycle t); reflexivity.
    + intros Hcyc. rewrite vmove_cy, Hrev, Hlen, Hcy, Hcyc. reflexivity.
Qed.

(** C5.  With cycling on and a list that is not empty, let [dest] be the
    row [cy + delta], the delta negated first in the reversed layout.
    [vmove] wraps to row 0 exactly when [dest] is past the last row and
    the cursor is on the last row, and to the last row exactly when
    [dest] is below 0 and the cursor is on row 0; a [dest] outside the
    list reached from any other row is clamped to the nearer end, and a
    [dest] inside the list is taken as it is. *)
Theorem vmove_wraps_only_on_boundary t delta :
  cycle t = true -> 1 <= Length t -> small (Length t) ->
  small (cy t) -> small delta ->
  let o := if reverse t then - delta else delta in
  let dest := cy t + o in
  let last := Length t - 1 in
  (dest > last -> cy t = last -> cy (vmove delta t) = 0) /\
  (dest > last -> cy t <> last -> cy (vmove delta t) = last) /\
  (dest < 0 -> cy t = 0 -> cy (vmove delta t) = last) /\
  (dest < 0 -> cy t <> 0 -> cy (vmove delta t) = 0) /\
  (0 <= dest <= last -> cy (vmove delta t) = dest).
Proof.
  unfold small. intros Hcyc Hlen HL Hcy Hd. cbv zeta.
  rewrite vmove_cy, Hcyc. cbv zeta.
  assert (Ho : (if reverse t then GoInt.mul delta (-1) else delta)
               = (if reverse t then - delta else delta)).
  { destruct (reverse t); [|reflexivity]. rewrite mul_fits by lia. lia. }
  rewrite Ho. clear Ho.
  set (o := if reverse t then - delta else delta).
  assert (Hob : - 1152921504606846976 <= o <= 1152921504606846976).
  { subst o. destruct (reverse t); lia. }
  clearbody o. int_arith.
  unfold Util.Constrain.
  repeat split; intros; repeat case_match; lia.
Qed.

End Viewport.

(** C4, as the claim words it, fails: in the layout that is not reversed
    [vmove (-1)] on row 0 leaves the cursor on row 0 when cycling is off
    and wraps it to row 4 when cycling is on; it never reaches row 1. *)
Lemma vmove_five_items_not_reversed :
  cy (vmove (-1) (scenario_term false false)) = 0 /\
  cy (vmove (-1) (scenario_term false true)) = 4 /\
  ~ (forall cyc, cy (vmove (-1) (scenario_term false cyc)) = 1).
Proof.
  split; [reflexivity|]. split; [reflexivity|].
  intros H. specialize (H false). vm_compute in H. discriminate H.
Qed.

Lemma vmove_five_items_scenario_witness :
  cy (vmove (-1) (scenario_term true true)) = 1 /\
  cy (vmove 1 (vmove (-1) (scenario_term true true))) = 0 /\
  cy (vmove 1 (scenario_term true true)) = 4.
Proof.
  pose proof (vmove_five_items_scenario (scenario_term true true)
                eq_refl eq_refl) as [_ H].
  destruct (H eq_refl) as (H1 & H2 & H3).
  split; [exact H1 | split; [exact H2 | exact (H3 eq_refl)]].
Defined.

Lemma vmove_wraps_only_on_boundary_witness :
  cy (vmove (-1) (scenario_term false true)) = 4.
Proof.
  pose proof (vmove_wraps_only_on_boundary (scenario_term false true) (-1)
                eq_refl) as H.
  assert (H1 : 1 <= Length (scenario_term false true)) by (vm_compute; discriminate).
  assert (H2 : small (Length (scenario_term false true))) by (vm_compute; split; discriminate).
  assert (H3 : small (cy (scenario_term false true))) by (vm_compute; split; discriminate).
  assert (H4 : small (-1)) by (vm_compute; split; discriminate).
  destruct (H H1 H2 H3 H4) as (_ & _ & Hwrap & _).
  apply Hwrap; [vm_compute; reflexivity | reflexivity].
Defined.

Section Constrain.

Context {History : Type}.
Variable MaxY : Z.
Implicit Types t : @Terminal History.

Lemma maxItems_set_cy v t : maxItems MaxY (set_cy v t) = maxItems MaxY t.
Proof. reflexivity. Qed.

(** The cursor and the scroll offset [constrain] leaves, as integers. *)
Lemma constrain_cy_offset t :
  small (cy t) -> small (offset t) -> small (Length t) -> small (maxItems MaxY t) ->
  let count := Length t in
  let height := maxItems MaxY t in
  let cy1 := Util.Constrain (cy t) 0 (count - 1) in
  let off1 :=
    if cy1 >? offset t + (height - 1) then cy1 - (height - 1)
    else if offset t >? cy1 then cy1 else offset t in
  cy (constrain MaxY t) =
    (if count - off1 <? height
     then Util.Constrain (Z.max 0 (count - height) + (cy t - offset t)) 0 (count - 1)
     else cy1) /\
  offset (constrain MaxY t) =
    (if count - off1 <? height then Z.max 0 (count - height) else off1).
Proof.
  unfold small. intros Hcy Hoff Hlen Hh. cbv zeta.
  unfold constrain. cbv zeta.
  change (Length (set_cy _ t)) with (Length t).
  set (count := Length t) in *. set (height := maxItems MaxY t) in *.
  assert (Hc0 : 0 <= count) by apply len_nonneg.
  rewrite (sub_fits count 1) by lia.
  rewrite (sub_fits height 1) by lia.
  rewrite (sub_fits (cy t) (offset t)) by lia.
  rewrite (sub_fits count height) by lia.
  pose proof (Constrain_range (cy t) 0 (count - 1)) as HC.
  set (cy1 := Util.Constrain (cy t) 0 (count - 1)) in *.
  assert (Hcy1 : -1 <= cy1 <= 1152921504606846976).
  { subst cy1. unfold Util.Constrain. repeat case_match; lia. }
  clearbody cy1 count height.
  change (cy (set_cy cy1 t)) with cy1.
  change (offset (set_cy cy1 t)) with (offset t).
  rewrite (add_fits (offset t) (height - 1)) by lia.
  rewrite (sub_fits cy1 (height - 1)) by lia.
  rewrite Max_spec.
  destruct (cy1 >? offset t + (height - 1)) eqn:E1.
  - change (offset (set_offset (cy1 - (height - 1)) (set_cy cy1 t))) with (cy1 - (height - 1)).
    rewrite (sub_fits count (cy1 - (height - 1))) by lia.
    destruct (count - (cy1 - (height - 1)) <? height) eqn:E2; simpl.
    + rewrite add_fits by lia. split; reflexivity.
    + split; reflexivity.
  - destruct (offset t >? cy1) eqn:E3.
    + change (offset (set_offset cy1 (set_cy cy1 t))) with cy1.
      rewrite (sub_fits count cy1) by lia.
      destruct (count - cy1 <? height) eqn:E2; simpl.
      * rewrite add_fits by lia. split; reflexivity.
      * split; reflexivity.
    + change (offset (set_cy cy1 t)) with (offset t).
      rewrite (sub_fits count (offset t)) by lia.
      destruct (count - offset t <? height) eqn:E2; simpl.
      * rewrite add_fits by lia. split; reflexivity.
      * split; reflexivity.
Qed.

(** [constrain] touches the cursor row and the scroll offset only. *)
Lemma constrain_frame t :
  constrain MaxY t =
  set_cy (cy (constrain MaxY t)) (set_offset (offset (constrain MaxY t)) t).
Proof.
  unfold constrain. cbv zeta.
  repeat match goal with
         | |- context [if ?b then _ else _] => destruct b
         end; reflexivity.
Qed.

Lemma constrain_Length t : Length (constrain MaxY t) = Length t.
Proof. rewrite constrain_frame. reflexivity. Qed.

Lemma constrain_maxItems t : maxItems MaxY (constrain MaxY t) = maxItems MaxY t.
Proof. rewrite constrain_frame. reflexivity. Qed.


End Constrain.



(** ** The input loop *)

Section Loop.

Context {History : Type}.
Variable history_override : History -> list rune -> History.
Variable history_previous : History -> list rune * History.
Variable history_next : History -> list rune * History.
Variable C : KeyCodes.
Variable MaxY : Z.
Variable clock : nat -> Z.
Context {Regexp : Type}.
Variable regexp_Compile : string -> option Regexp.
Variable FindAllStringIndex : Regexp -> list Z -> list (Z * Z).
Variable FindStringIndex : Regexp -> list Z -> option (Z * Z).

Variable range_selected : gmap Z selectedItem -> list selectedItem.
Variable sort_Sort :
  (selectedItem -> selectedItem -> bool) -> list selectedItem ->
  list selectedItem.

Implicit Types t : @Terminal History.
Implicit Types s : @LoopState History.

Abbreviation Loop_turn' :=
  (Loop_turn history_override history_previous history_next C MaxY clock
     regexp_Compile FindAllStringIndex FindStringIndex).
Abbreviation Loop_switch' :=
  (Loop_switch history_override history_previous history_next MaxY clock
     regexp_Compile FindAllStringIndex FindStringIndex).
Abbreviation findLastMatch' := (findLastMatch regexp_Compile FindAllStringIndex).
Abbreviation findFirstMatch' := (findFirstMatch regexp_Compile FindStringIndex).
Abbreviation rubout' := (rubout regexp_Compile FindAllStringIndex).
Abbreviation no_match_last' :=
  (no_match_last regexp_Compile FindAllStringIndex).
Abbreviation no_match_first' :=
  (no_match_first regexp_Compile FindStringIndex).
Abbreviation output' := (output C range_selected sort_Sort).
Abbreviation serve' := (serve C MaxY range_selected sort_Sort).
Abbreviation consume' := (consume C MaxY range_selected sort_Sort).

(** *** The closure [req] and the scan of the accept keys *)

Lemma req_term evts s : term (req evts s) = term s.
Proof.
  revert s. induction evts as [|e evts IH]; intros s; [reflexivity|].
  exact (IH _).
Qed.

Lemma req_events evts s : events (req evts s) = events s ++ evts.
Proof.
  revert s. induction evts as [|e evts IH]; intros s.
  - simpl. rewrite app_nil_r. reflexivity.
  - etransitivity; [exact (IH _)|]. simpl.
    rewrite <- app_assoc. reflexivity.
Qed.

Lemma set_pressed_same t : set_pressed (pressed t) t = t.
Proof. destruct t; reflexivity. Qed.

Lemma expect_scan_term keys event s :
  exists p, term (expect_scan C keys event s) = set_pressed p (term s).
Proof.
  induction keys as [|key keys IH]; simpl.
  - exists (pressed (term s)). symmetry. apply set_pressed_same.
  - destruct (keyMatch C key event).
    + exists key. reflexivity.
    + exact IH.
Qed.

Lemma expect_scan_no_match keys event s :
  Forall (fun key => keyMatch C key event = false) keys ->
  expect_scan C keys event s = s.
Proof.
  induction 1 as [|key keys Hk _ IH]; simpl; [reflexivity|].
  rewrite Hk. exact IH.
Qed.

(** The action an event resolves to depends on the key map alone. *)
Lemma resolve_keymap t t' event :
  keymap t' = keymap t -> resolve C t' event = resolve C t event.
Proof. intros H. unfold resolve. rewrite H. reflexivity. Qed.

(** *** What [findLastMatch] and [findFirstMatch] return *)

Lemma findLastMatch_no_match pattern str :
  no_match_last' pattern str -> findLastMatch' pattern str = -1.
Proof.
  unfold findLastMatch. intros [H | (rx & H & Hall)]; rewrite H.
  - reflexivity.
  - rewrite Hall. reflexivity.
Qed.

Lemma findFirstMatch_no_match pattern str :
  no_match_first' pattern str -> findFirstMatch' pattern str = -1.
Proof.
  unfold findFirstMatch. intros [H | (rx & H & Hfirst)]; rewrite H.
  - reflexivity.
  - rewrite Hfirst. reflexivity.
Qed.

(** *** [rubout] when nothing matches before the cursor *)

Lemma rubout_no_match pattern t :
  0 <= cx t <= len (input t) -> small (len (input t)) ->
  no_match_last' pattern (string_of_runes (take (Z.to_nat (cx t)) (input t))) ->
  rubout' pattern t =
  Some (set_input (drop (Z.to_nat (cx t)) (input t))
          (set_yanked (take (Z.to_nat (cx t)) (input t)) (set_cx 0 t))).
Proof.
  unfold small. intros Hcx Hlen Hno. unfold rubout.
  rewrite slice_from_Some by lia. rewrite slice_to_Some by lia. simpl.
  rewrite (findLastMatch_no_match _ _ Hno).
  change (-1 +% 1) with 0.
  rewrite slice_Some by lia. simpl.
  rewrite slice_to_Some by lia. simpl.
  rewrite Z.sub_0_r. reflexivity.
Qed.


Lemma set_cx_same t : set_cx (cx t) t = t.
Proof. destruct t; reflexivity. Qed.

Lemma with_term_same s : with_term (term s) s = s.
Proof. destruct s; reflexivity. Qed.

(** *** The word motions when nothing matches *)

Lemma switch_forward_word_no_match s mapkey event :
  0 <= cx (term s) <= len (input (term s)) -> small (len (input (term s))) ->
  no_match_first' wordForward
    (string_of_runes (drop (Z.to_nat (cx (term s))) (input (term s)))) ->
  Loop_switch' actForwardWord mapkey event s = Some (Fall s).
Proof.
  unfold small. intros Hcx Hlen Hno. unfold Loop_switch.
  rewrite slice_from_Some by lia. simpl.
  rewrite (findFirstMatch_no_match _ _ Hno).
  change (-1 +% 1) with 0. rewrite add_fits by lia. rewrite Z.add_0_r.
  rewrite set_cx_same, with_term_same. reflexivity.
Qed.

Lemma switch_kill_word_no_match s mapkey event :
  0 <= cx (term s) <= len (input (term s)) -> small (len (input (term s))) ->
  no_match_first' wordForward
    (string_of_runes (drop (Z.to_nat (cx (term s))) (input (term s)))) ->
  Loop_switch' actKillWord mapkey event s = Some (Fall s).
Proof.
  unfold small. intros Hcx Hlen Hno. unfold Loop_switch.
  rewrite slice_from_Some by lia. simpl.
  rewrite (findFirstMatch_no_match _ _ Hno).
  rewrite (add_fits (cx (term s)) (-1)) by lia.
  rewrite add_fits by lia.
  replace (cx (term s) + -1 + 1) with (cx (term s)) by lia.
  rewrite Z.gtb_ltb, Z.ltb_irrefl. reflexivity.
Qed.

Lemma switch_backward_word_no_match s mapkey event :
  0 <= cx (term s) <= len (input (term s)) ->
  no_match_last' wordBackward
    (string_of_runes (take (Z.to_nat (cx (term s))) (input (term s)))) ->
  Loop_switch' actBackwardWord mapkey event s =
  Some (Fall (with_term (set_cx 0 (term s)) s)).
Proof.
  intros Hcx Hno. unfold Loop_switch.
  rewrite slice_to_Some by lia. simpl.
  rewrite (findLastMatch_no_match _ _ Hno). reflexivity.
Qed.

Lemma switch_backward_kill_word_no_match s mapkey event :
  0 < cx (term s) <= len (input (term s)) -> small (len (input (term s))) ->
  no_match_last' wordBackward
    (string_of_runes (take (Z.to_nat (cx (term s))) (input (term s)))) ->
  Loop_switch' actBackwardKillWord mapkey event s =
  Some (Fall (with_term
                (set_input (drop (Z.to_nat (cx (term s))) (input (term s)))
                   (set_yanked (take (Z.to_nat (cx (term s))) (input (term s)))
                      (set_cx 0 (term s)))) s)).
Proof.
  intros Hcx Hlen Hno. unfold Loop_switch.
  destruct (cx (term s) >? 0) eqn:E; [|lia].
  rewrite rubout_no_match by (try lia; assumption). reflexivity.
Qed.

Lemma switch_unix_word_rubout_no_match s mapkey event :
  0 < cx (term s) <= len (input (term s)) -> small (len (input (term s))) ->
  no_match_last' spaceBoundary
    (string_of_runes (take (Z.to_nat (cx (term s))) (input (term s)))) ->
  Loop_switch' actUnixWordRubout mapkey event s =
  Some (Fall (with_term
                (set_input (drop (Z.to_nat (cx (term s))) (input (term s)))
                   (set_yanked (take (Z.to_nat (cx (term s))) (input (term s)))
                      (set_cx 0 (term s)))) s)).
Proof.
  intros Hcx Hlen Hno. unfold Loop_switch.
  destruct (cx (term s) >? 0) eqn:E; [|lia].
  rewrite rubout_no_match by (try lia; assumption). reflexivity.
Qed.

(** C8, as amended.  When the boundary pattern does not compile or finds
    no match in the part of the query it is run on, no word motion
    panics, and none ends the session: each falls out of the switch with
    the requests and the loop flag as they were.  Forward-word and
    kill-word then leave the whole state as it was.  Backward-word moves
    the cursor to the start of the line and leaves the query and the
    yank buffer alone.  The two rubout actions, which run with the
    cursor past the start, remove the text before the cursor, keep it in
    the yank buffer and move the cursor to the start. *)
Theorem word_motion_without_match s mapkey event :
  0 <= cx (term s) <= len (input (term s)) -> small (len (input (term s))) ->
  let t := term s in
  let before := take (Z.to_nat (cx t)) (input t) in
  let after := drop (Z.to_nat (cx t)) (input t) in
  (no_match_first' wordForward (string_of_runes after) ->
     Loop_switch' actForwardWord mapkey event s = Some (Fall s) /\
     Loop_switch' actKillWord mapkey event s = Some (Fall s)) /\
  (no_match_last' wordBackward (string_of_runes before) ->
     Loop_switch' actBackwardWord mapkey event s =
       Some (Fall (with_term (set_cx 0 t) s)) /\
     (0 < cx t ->
      Loop_switch' actBackwardKillWord mapkey event s =
        Some (Fall (with_term
                      (set_input after (set_yanked before (set_cx 0 t))) s)))) /\
  (no_match_last' spaceBoundary (string_of_runes before) -> 0 < cx t ->
     Loop_switch' actUnixWordRubout mapkey event s =
       Some (Fall (with_term
                     (set_input after (set_yanked before (set_cx 0 t))) s))).
Proof.
  intros Hcx Hlen. cbv zeta. split; [|split].
  - intros Hno. split.
    + apply switch_forward_word_no_match; assumption.
    + apply switch_kill_word_no_match; assumption.
  - intros Hno. split.
    + apply switch_backward_word_no_match; assumption.
    + intros Hpos. apply switch_backward_kill_word_no_match;
        [lia | assumption | assumption].
  - intros Hno Hpos. apply switch_unix_word_rubout_no_match;
      [lia | assumption | assumption].
Qed.

(** *** Leaving the session *)

Ltac solve_in :=
  repeat first [apply list_elem_of_here | apply list_elem_of_further].

Ltac solve_notin :=
  let H := fresh "Hin" in
  intros H;
  repeat (apply elem_of_cons in H as [H | H]; [discriminate H|]);
  apply elem_of_nil in H; exact H.

Lemma Loop_turn_no_expect t event :
  Forall (fun key => keyMatch C key event = false) (expect t) ->
  Loop_turn' event t =
  match Loop_switch' (resolve C t event).1 (resolve C t event).2 event
          (mkLoopState t [reqPrompt] true [] []) with
  | Some (Continue s) =>
      Some (mkTurn (term s) [] (looping s) (executed s) (searchNew s))
  | Some (Fall s) =>
      Some (mkTurn (term s) (events s) (looping s) (executed s)
              (if negb (bool_decide (string_of_runes (input t)
                                     = string_of_runes (input (term s))))
               then searchNew s ++ [sort (term s)] else searchNew s))
  | None => None
  end.
Proof.
  intros Hno. unfold Loop_turn.
  rewrite (expect_scan_no_match _ _ _ Hno). simpl term.
  destruct (resolve C t event) as [action mapkey]. simpl.
  destruct (Loop_switch' action mapkey event _) as [[s|s]|]; reflexivity.
Qed.

(** A request to quit that is pending without a request to close ends
    the process with status 1 and nothing on standard output, whatever
    else is pending and in whatever order the requests are served. *)
Lemma consume_quit pending t :
  reqQuit ∈ pending -> reqClose ∉ pending ->
  consume' pending t = Exited 1 [] None.
Proof.
  revert t. induction pending as [|r pending IH]; intros t Hin Hout.
  - inversion Hin.
  - apply not_elem_of_cons in Hout as [Hr Hout].
    apply elem_of_cons in Hin as [Hin | Hin].
    + subst r. reflexivity.
    + destruct r; simpl; try (apply IH; assumption); try reflexivity.
      congruence.
Qed.

Lemma output_total t :
  0 <= cy t -> is_Some (output' t).
Proof.
  intros Hcy. unfold output, output_items.
  destruct (Z.of_nat (size (selected t)) =? 0); [|eexists; reflexivity].
  destruct ((Length t >? 0) && (Length t >? cy t)) eqn:E;
    [|eexists; reflexivity].
  apply andb_prop in E as [_ E]. unfold Length, len in E.
  unfold Get. destruct (0 <=? cy t) eqn:E0; [|lia].
  destruct (lookup_lt_is_Some_2 (merger t) (Z.to_nat (cy t))) as [item Hitem];
    [lia|].
  rewrite Hitem. eexists; reflexivity.
Qed.


(** *** A turn that falls out of the switch *)

Lemma Loop_turn_Fall t event action mapkey s2 :
  resolve C t event = (action, mapkey) ->
  Loop_switch' action mapkey event
    (expect_scan C (expect t) event (mkLoopState t [reqPrompt] true [] []))
  = Some (Fall s2) ->
  exists turn,
    Loop_turn' event t = Some turn /\ turn_term turn = term s2 /\
    turn_posted turn = events s2 /\ turn_looping turn = looping s2.
Proof.
  intros Hres Hsw. unfold Loop_turn.
  set (s1 := expect_scan C (expect t) event _) in *.
  destruct (expect_scan_term (expect t) event
              (mkLoopState t [reqPrompt] true [] [])) as [p Hp].
  fold s1 in Hp. simpl in Hp.
  rewrite (resolve_keymap t (term s1) event) by (rewrite Hp; reflexivity).
  rewrite Hres, Hsw. simpl.
  eexists. split; [reflexivity|]. simpl. auto.
Qed.

Lemma switch_yank s mapkey event :
  0 <= cx (term s) <= len (input (term s)) ->
  small (len (input (term s))) -> small (len (yanked (term s))) ->
  Loop_switch' actYank mapkey event s =
  Some (Fall (with_term
                (set_cx (cx (term s) + len (yanked (term s)))
                   (set_input
                      ((take (Z.to_nat (cx (term s))) (input (term s))
                          ++ yanked (term s))
                         ++ drop (Z.to_nat (cx (term s))) (input (term s)))
                      (term s))) s)).
Proof.
  unfold small. intros Hcx Hlen Hy. unfold Loop_switch.
  rewrite slice_from_Some by lia. rewrite slice_to_Some by lia. simpl.
  pose proof (len_nonneg (yanked (term s))).
  rewrite add_fits by lia. reflexivity.
Qed.

End Loop.

(** ** The input loop under the regexp model *)

Section LoopGo.

Context {History : Type}.
Variable history_override : History -> list rune -> History.
Variable history_previous : History -> list rune * History.
Variable history_next : History -> list rune * History.
Variable C : KeyCodes.
Variable MaxY : Z.
Variable clock : nat -> Z.

Implicit Types t : @Terminal History.

Abbreviation go_turn :=
  (Loop_turn history_override history_previous history_next C MaxY clock
     GoRegexp.Compile GoRegexp.FindAllStringIndex GoRegexp.FindStringIndex).

(** C9.  From the query "abc" with the cursor at its end, a turn of the
    loop on an event bound to backward-kill-word leaves the query empty
    and "abc" in the yank buffer; a further turn on an event bound to
    yank leaves the query "abc" with the cursor at position 3. *)
Theorem backward_kill_word_then_yank t event1 event2 :
  input t = runes_of "abc" -> cx t = 3 ->
  (resolve C t event1).1 = actBackwardKillWord ->
  (resolve C t event2).1 = actYank ->
  exists turn1 turn2,
    go_turn event1 t = Some turn1 /\
    input (turn_term turn1) = [] /\
    yanked (turn_term turn1) = runes_of "abc" /\
    go_turn event2 (turn_term turn1) = Some turn2 /\
    input (turn_term turn2) = runes_of "abc" /\
    cx (turn_term turn2) = 3.
Proof.
  intros Hinput Hcx Hres1 Hres2.
  (* the first turn *)
  destruct (resolve C t event1) as [a1 mk1] eqn:E1. simpl in Hres1. subst a1.
  set (s1 := expect_scan C (expect t) event1
               (mkLoopState t [reqPrompt] true [] [])).
  destruct (expect_scan_term C (expect t) event1
              (mkLoopState t [reqPrompt] true [] [])) as [p1 Hp1].
  fold s1 in Hp1. simpl in Hp1.
  assert (Hin1 : input (term s1) = runes_of "abc")
    by (rewrite Hp1; exact Hinput).
  assert (Hcx1 : cx (term s1) = 3) by (rewrite Hp1; exact Hcx).
  pose proof (switch_backward_kill_word_no_match
                history_override history_previous history_next MaxY clock
                GoRegexp.Compile GoRegexp.FindAllStringIndex
                GoRegexp.FindStringIndex s1 mk1 event1) as Hsw1.
  rewrite Hin1, Hcx1 in Hsw1.
  specialize (Hsw1 ltac:(vm_compute; split; [reflexivity|discriminate])
                   ltac:(vm_compute; split; discriminate)
                   ltac:(right; eexists; split; reflexivity)).
  destruct (Loop_turn_Fall history_override history_previous history_next
              C MaxY clock GoRegexp.Compile GoRegexp.FindAllStringIndex
              GoRegexp.FindStringIndex t event1 _ _ _ E1 Hsw1)
    as (turn1 & Ht1 & Hterm1 & _).
  simpl in Hterm1.
  exists turn1.
  (* the second turn *)
  set (t1 := turn_term turn1) in *.
  assert (Hkm : keymap t1 = keymap t) by (rewrite Hterm1, Hp1; reflexivity).
  destruct (resolve C t1 event2) as [a2 mk2] eqn:E2.
  assert (Ha2 : a2 = actYank).
  { rewrite (resolve_keymap C t t1 event2 Hkm) in E2.
    rewrite E2 in Hres2. exact Hres2. }
  subst a2.
  set (s2 := expect_scan C (expect t1) event2
               (mkLoopState t1 [reqPrompt] true [] [])).
  destruct (expect_scan_term C (expect t1) event2
              (mkLoopState t1 [reqPrompt] true [] [])) as [p2 Hp2].
  fold s2 in Hp2. simpl in Hp2.
  assert (Hin2 : input (term s2) = []) by (rewrite Hp2, Hterm1; reflexivity).
  assert (Hy2 : yanked (term s2) = runes_of "abc")
    by (rewrite Hp2, Hterm1; reflexivity).
  assert (Hcx2 : cx (term s2) = 0) by (rewrite Hp2, Hterm1; reflexivity).
  pose proof (switch_yank
                history_override history_previous history_next MaxY clock
                GoRegexp.Compile GoRegexp.FindAllStringIndex
                GoRegexp.FindStringIndex s2 mk2 event2) as Hsw2.
  rewrite Hin2, Hy2, Hcx2 in Hsw2.
  specialize (Hsw2 ltac:(vm_compute; split; discriminate)
                   ltac:(vm_compute; split; discriminate)
                   ltac:(vm_compute; split; discriminate)).
  destruct (Loop_turn_Fall history_override history_previous history_next
              C MaxY clock GoRegexp.Compile GoRegexp.FindAllStringIndex
              GoRegexp.FindStringIndex t1 event2 _ _ _ E2 Hsw2)
    as (turn2 & Ht2 & Hterm2 & _).
  simpl in Hterm2.
  exists turn2.
  split; [exact Ht1|].
  split; [rewrite Hterm1; reflexivity|].
  split; [rewrite Hterm1; reflexivity|].
  split; [exact Ht2|].
  split; rewrite Hterm2; reflexivity.
Qed.

End LoopGo.

Lemma backward_kill_word_then_yank_witness :
  exists turn1 turn2,
    example_turn (key_event KEY_BACKWARD_KILL_WORD)
      (query_term (runes_of "abc") 3) = Some turn1 /\
    input (turn_term turn1) = [] /\
    yanked (turn_term turn1) = runes_of "abc" /\
    example_turn (key_event KEY_YANK) (turn_term turn1) = Some turn2 /\
    input (turn_term turn2) = runes_of "abc" /\
    cx (turn_term turn2) = 3.
Proof.
  apply (backward_kill_word_then_yank no_override no_line no_line
           example_keys 24 Z.of_nat (query_term (runes_of "abc") 3)
           (key_event KEY_BACKWARD_KILL_WORD) (key_event KEY_YANK)).
  - reflexivity.
  - reflexivity.
  - vm_compute. reflexivity.
  - vm_compute. reflexivity.
Defined.

(** C2 fails on the code.  The query is two runes of two bytes each,
    U+00E9 twice, with the cursor at position 0, and the event is bound
    to forward-word.  The pattern matches the last character, at byte 2,
    and the turn leaves the cursor at position 3 of a query of length
    2. *)
Lemma forward_word_overruns_query :
  0 <= cx (query_term [233; 233] 0) <= len (input (query_term [233; 233] 0)) /\
  findFirstMatch GoRegexp.Compile GoRegexp.FindStringIndex wordForward
    (string_of_runes [233; 233]) = 2 /\
  exists turn,
    example_turn (key_event KEY_FORWARD_WORD) (query_term [233; 233] 0)
      = Some turn /\
    cx (turn_term turn) = 3 /\
    len (input (turn_term turn)) = 2 /\
    ~ (0 <= cx (turn_term turn) <= len (input (turn_term turn))).
Proof.
  split; [vm_compute; split; discriminate|].
  split; [vm_compute; reflexivity|].
  eexists. split; [vm_compute; reflexivity|].
  split; [reflexivity|]. split; [reflexivity|].
  vm_compute. intros [_ H]. apply H. reflexivity.
Qed.

(** After that turn [placeCursor], which the consumer runs on every
    batch of requests, slices the query up to the cursor and panics. *)
Lemma forward_word_then_placeCursor_panics :
  exists turn,
    example_turn (key_event KEY_FORWARD_WORD) (query_term [233; 233] 0)
      = Some turn /\
    placeCursor RuneWidth_table (turn_term turn) = None.
Proof. eexists. split; [vm_compute; reflexivity|]. reflexivity. Qed.

(** The same slip in backward-kill-word: with the query U+00E9 U+00E9
    space "a" and the cursor at its end, the match is at byte 4, the
    cursor is set to 5, past the old cursor at 4, and the slice taken
    for the yank buffer has its bounds out of order: the turn panics. *)
Lemma backward_kill_word_panics :
  example_turn (key_event KEY_BACKWARD_KILL_WORD)
    (query_term [233; 233; 32; 97] 4) = None.
Proof. vm_compute. reflexivity. Qed.

(** C8, as the claim words it, fails.  The boundary pattern of
    backward-kill-word compiles and finds no match in "abc"; the action
    with the cursor at the end of "abc" is not a no-op: it empties the
    query, moves the cursor to 0 and fills the yank buffer.  Backward-word
    on the same state moves the cursor from 3 to 0. *)
Lemma word_motion_without_match_not_noop :
  (exists rx, GoRegexp.Compile wordBackward = Some rx /\
     GoRegexp.FindAllStringIndex rx (string_of_runes (runes_of "abc")) = []) /\
  (exists turn,
     example_turn (key_event KEY_BACKWARD_KILL_WORD)
       (query_term (runes_of "abc") 3) = Some turn /\
     input (turn_term turn) = [] /\
     input (turn_term turn) <> input (query_term (runes_of "abc") 3) /\
     cx (turn_term turn) = 0 /\
     yanked (turn_term turn) = runes_of "abc" /\
     yanked (turn_term turn) <> yanked (query_term (runes_of "abc") 3)) /\
  (exists turn,
     example_turn (key_event KEY_BACKWARD_WORD)
       (query_term (runes_of "abc") 3) = Some turn /\
     cx (turn_term turn) = 0 /\
     cx (turn_term turn) <> cx (query_term (runes_of "abc") 3)).
Proof.
  split; [eexists; split; reflexivity|].
  split.
  - eexists. split; [vm_compute; reflexivity|].
    split; [reflexivity|]. split; [discriminate|].
    split; [reflexivity|]. split; [reflexivity|discriminate].
  - eexists. split; [vm_compute; reflexivity|].
    split; [reflexivity|discriminate].
Qed.

Lemma word_motion_without_match_witness :
  let s := mkLoopState (query_term (runes_of "abc") 3) [reqPrompt] true [] [] in
  Loop_switch no_override no_line no_line 24 Z.of_nat
    GoRegexp.Compile GoRegexp.FindAllStringIndex GoRegexp.FindStringIndex
    actBackwardKillWord KEY_BACKWARD_KILL_WORD
    (key_event KEY_BACKWARD_KILL_WORD) s
  = Some (Fall (with_term
                  (set_input []
                     (set_yanked (runes_of "abc") (set_cx 0 (term s)))) s)).
Proof.
  intros s.
  assert (H1 : 0 <= cx (term s) <= len (input (term s)))
    by (vm_compute; split; discriminate).
  assert (H2 : small (len (input (term s))))
    by (vm_compute; split; discriminate).
  destruct (word_motion_without_match no_override no_line no_line 24
              Z.of_nat GoRegexp.Compile GoRegexp.FindAllStringIndex
              GoRegexp.FindStringIndex s KEY_BACKWARD_KILL_WORD
              (key_event KEY_BACKWARD_KILL_WORD) H1 H2) as (_ & Hback & _).
  assert (Hno : no_match_last GoRegexp.Compile GoRegexp.FindAllStringIndex
                  wordBackward
                  (string_of_runes
                     (take (Z.to_nat (cx (term s))) (input (term s)))))
    by (right; eexists; split; reflexivity).
  destruct (Hback Hno) as [_ Hkill].
  apply Hkill. vm_compute. reflexivity.
Defined.



(** ** The selection set *)

Section Select.

Context {History : Type}.
Variable clock : nat -> Z.

Implicit Types t : @Terminal History.

Abbreviation selectItem' := (selectItem clock).
Abbreviation select_items' := (select_items clock).

Lemma selectAll_loop_select_items t :
  selectAll_loop clock t = select_items' (merger t) t.
Proof. reflexivity. Qed.

Lemma selectItem_present item t v :
  selected t !! index item = Some v -> selectItem' item t = (false, t).
Proof. intros H. unfold selectItem. rewrite H. reflexivity. Qed.

Lemma selectItem_fresh item t :
  (selectItem' item t).1 = true -> selected t !! index item = None.
Proof.
  unfold selectItem. destruct (selected t !! index item); [discriminate|].
  reflexivity.
Qed.

Lemma selectItem_keeps item t k v :
  selected t !! k = Some v -> selected (selectItem' item t).2 !! k = Some v.
Proof.
  intros H. unfold selectItem.
  destruct (selected t !! index item) eqn:E; [exact H|].
  cbn [snd selected set_selected set_ticks].
  rewrite lookup_insert_ne; [exact H|].
  intros Hk. rewrite Hk in E. rewrite E in H. discriminate H.
Qed.

Lemma selectItem_selects item t :
  is_Some (selected (selectItem' item t).2 !! index item).
Proof.
  unfold selectItem.
  destruct (selected t !! index item) eqn:E.
  - cbn [snd]. rewrite E. eexists; reflexivity.
  - cbn [snd selected set_selected].
    rewrite lookup_insert_eq. eexists; reflexivity.
Qed.

Lemma selectItem_merger item t : merger (selectItem' item t).2 = merger t.
Proof. unfold selectItem. destruct (selected t !! index item); reflexivity. Qed.

Lemma select_items_keeps items t k v :
  selected t !! k = Some v -> selected (select_items' items t) !! k = Some v.
Proof.
  revert t. induction items as [|item items IH]; intros t H; [exact H|].
  simpl. apply IH. apply selectItem_keeps. exact H.
Qed.

Lemma select_items_merger items t : merger (select_items' items t) = merger t.
Proof.
  revert t. induction items as [|item items IH]; intros t; [reflexivity|].
  simpl. rewrite IH. apply selectItem_merger.
Qed.

Lemma select_items_selects items t item :
  item ∈ items -> is_Some (selected (select_items' items t) !! index item).
Proof.
  revert t. induction items as [|item' items IH]; intros t Hin.
  - inversion Hin.
  - simpl. apply elem_of_cons in Hin as [-> | Hin].
    + destruct (selectItem_selects item' t) as [v Hv].
      exists v. apply select_items_keeps. exact Hv.
    + apply IH. exact Hin.
Qed.

(** Selecting items that are all selected already changes nothing, not
    even the count of clock readings. *)
Lemma select_items_all_present items t :
  (forall item, item ∈ items -> is_Some (selected t !! index item)) ->
  select_items' items t = t.
Proof.
  revert t. induction items as [|item items IH]; intros t H; [reflexivity|].
  simpl. destruct (H item) as [v Hv]; [apply list_elem_of_here|].
  rewrite (selectItem_present item t v Hv). simpl.
  apply IH. intros item' Hin. apply H. apply list_elem_of_further. exact Hin.
Qed.

Lemma selectAll_loop_idempotent t :
  selectAll_loop clock (selectAll_loop clock t) = selectAll_loop clock t.
Proof.
  rewrite !selectAll_loop_select_items.
  rewrite select_items_merger.
  apply select_items_all_present.
  intros item Hin. apply select_items_selects. exact Hin.
Qed.

Lemma selectAll_loop_keeps t :
  selected t ⊆ selected (selectAll_loop clock t).
Proof.
  apply map_subseteq_spec. intros k v H.
  rewrite selectAll_loop_select_items. apply select_items_keeps. exact H.
Qed.

End Select.

(** ** Sorting the selections by time *)

#[local] Instance time_lt_antisymm : AntiSymm (=) time_lt.
Proof. intros a b H1 H2. unfold time_lt in *. lia. Qed.

Lemma StronglySorted_filter {A} (R : relation A) (P : A -> Prop)
    `{!forall x, Decision (P x)} (l : list A) :
  StronglySorted R l -> StronglySorted R (filter P l).
Proof.
  induction 1 as [|x l Hl IH Hx]; [constructor|].
  rewrite filter_cons. destruct (decide (P x)); [|exact IH].
  constructor; [exact IH|].
  apply Forall_forall. intros y Hy. apply list_elem_of_filter in Hy as [_ Hy].
  rewrite Forall_forall in Hx. apply Hx. exact Hy.
Qed.

(** A list sorted by time whose times are pairwise distinct is strictly
    sorted. *)
Lemma time_le_lt_sorted (l : list selectedItem) :
  NoDup (sel_at <$> l) -> StronglySorted time_le l -> StronglySorted time_lt l.
Proof.
  intros Hnd Hs. induction Hs as [|x l Hl IH Hx]; [constructor|].
  rewrite fmap_cons in Hnd. apply NoDup_cons in Hnd as [Hx' Hnd].
  constructor; [apply IH; exact Hnd|].
  apply Forall_forall. intros y Hy.
  rewrite Forall_forall in Hx. specialize (Hx y Hy).
  unfold time_le, time_lt in *.
  assert (sel_at x <> sel_at y); [|lia].
  intros E. apply Hx'. rewrite E. apply list_elem_of_fmap_2. exact Hy.
Qed.

(** The ascending order of selections with distinct times is unique. *)
Lemma time_sorted_unique (l1 l2 : list selectedItem) :
  NoDup (sel_at <$> l1) -> l1 ≡ₚ l2 ->
  StronglySorted time_le l1 -> StronglySorted time_le l2 -> l1 = l2.
Proof.
  intros Hnd Hperm H1 H2.
  apply (StronglySorted_unique time_lt); [| |exact Hperm].
  - apply time_le_lt_sorted; assumption.
  - apply time_le_lt_sorted; [|assumption]. rewrite <- Hperm. exact Hnd.
Qed.

(** ** What [output] prints *)

#[local] Instance selectedItem_eq_dec : EqDecision selectedItem.
Proof. solve_decision. Defined.

Lemma NoDup_submseteq_inv {A} (l k : list A) : l ⊆+ k -> NoDup k -> NoDup l.
Proof.
  intros Hsub Hnd. apply submseteq_sublist_l in Hsub as (k' & Hsl & Hperm).
  apply (sublist_NoDup l k'); [|exact Hsl]. rewrite Hperm. exact Hnd.
Qed.

Lemma selections_submseteq (m1 m2 : gmap Z selectedItem) :
  m1 ⊆ m2 -> selections m1 ⊆+ selections m2.
Proof.
  intros H. unfold selections. apply fmap_submseteq.
  apply map_to_list_submseteq. exact H.
Qed.

Section Output.

Context {History : Type}.
Variable C : KeyCodes.
Variable MaxY : Z.
Variable clock : nat -> Z.
Variable range_selected : gmap Z selectedItem -> list selectedItem.
Variable sort_Sort :
  (selectedItem -> selectedItem -> bool) -> list selectedItem ->
  list selectedItem.

(** What the language and the sort package promise: [range] visits every
    entry of the map once, in some order, and [sort.Sort] permutes the
    slice so that no element is [Less] than one before it. *)
Hypothesis range_selected_perm :
  forall m, range_selected m ≡ₚ selections m.
Hypothesis sort_Sort_perm :
  forall l, sort_Sort byTimeOrder_Less l ≡ₚ l.
Hypothesis sort_Sort_sorted :
  forall l, StronglySorted time_le (sort_Sort byTimeOrder_Less l).

Implicit Types t : @Terminal History.

Abbreviation output'' := (output C range_selected sort_Sort).
Abbreviation serve'' := (serve C MaxY range_selected sort_Sort).
Abbreviation printed_order' := (printed_order range_selected sort_Sort).

Lemma printed_order_perm m : printed_order' m ≡ₚ selections m.
Proof.
  unfold printed_order'. rewrite sort_Sort_perm. apply range_selected_perm.
Qed.

Lemma printed_order_sorted m : StronglySorted time_le (printed_order' m).
Proof. apply sort_Sort_sorted. Qed.

Lemma selected_size_zero t :
  (Z.of_nat (size (selected t)) =? 0) = true <-> selected t = ∅.
Proof.
  rewrite Z.eqb_eq. rewrite <- map_size_empty_iff. lia.
Qed.


(** C10.  A key that is in the selection set stays as it is under any
    further select: [selectItem] on it returns false and leaves the
    whole state alone, and returns true only for a key that was absent;
    every entry of the set survives select-all, and a toggle that
    selects, with its time and its text.  So select-all run twice leaves
    the state that select-all run once leaves.  And when the times in
    the set after select-all are pairwise distinct, the selections made
    before it are printed in the order in which they were printed
    before. *)
Theorem select_keeps_earlier_selection t :
  (forall item v,
     selected t !! index item = Some v -> selectItem clock item t = (false, t)) /\
  (forall item,
     (selectItem clock item t).1 = true -> selected t !! index item = None) /\
  (forall y item t',
     Get t y = Some item -> selected t !! index item = None ->
     toggleY clock y t = Some t' -> selected t ⊆ selected t') /\
  selected t ⊆ selected (selectAll_loop clock t) /\
  selectAll_loop clock (selectAll_loop clock t) = selectAll_loop clock t /\
  (NoDup (sel_at <$> selections (selected (selectAll_loop clock t))) ->
   filter (fun e => e ∈ selections (selected t))
     (printed_order' (selected (selectAll_loop clock t)))
   = printed_order' (selected t)).
Proof.
  split; [intros item v; apply selectItem_present|].
  split; [intros item; apply selectItem_fresh|].
  split.
  { intros y item t' Hget Habsent Htoggle.
    unfold toggleY in Htoggle. rewrite Hget in Htoggle. simpl in Htoggle.
    unfold selectItem in Htoggle. rewrite Habsent in Htoggle.
    simpl in Htoggle. injection Htoggle as <-.
    cbn [selected set_selected]. apply insert_subseteq. exact Habsent. }
  split; [apply selectAll_loop_keeps|].
  split; [apply selectAll_loop_idempotent|].
  intros Hnd.
  set (old := selected t) in *.
  set (new := selected (selectAll_loop clock t)) in *.
  assert (Hsub : selections old ⊆+ selections new)
    by (apply selections_submseteq, selectAll_loop_keeps).
  assert (Hnd_old : NoDup (sel_at <$> selections old)).
  { apply (NoDup_submseteq_inv _ (sel_at <$> selections new)); [|exact Hnd].
    apply fmap_submseteq. exact Hsub. }
  symmetry. apply time_sorted_unique.
  - rewrite printed_order_perm. exact Hnd_old.
  - apply NoDup_Permutation.
    + apply (NoDup_fmap_1 sel_at). rewrite printed_order_perm. exact Hnd_old.
    + apply NoDup_filter. apply (NoDup_fmap_1 sel_at).
      rewrite printed_order_perm. exact Hnd.
    + intros e. rewrite list_elem_of_filter. rewrite !printed_order_perm.
      split.
      * intros He. split; [exact He|]. apply (elem_of_submseteq _ _ _ He Hsub).
      * intros [He _]. exact He.
  - apply printed_order_sorted.
  - apply StronglySorted_filter. apply printed_order_sorted.
Qed.

End Output.

(** *** The merge sort and [map_to_list] meet what is asked of them *)

Lemma example_range_perm m : example_range m ≡ₚ selections m.
Proof. reflexivity. Qed.

Lemma example_sort_perm l : example_sort byTimeOrder_Less l ≡ₚ l.
Proof. unfold example_sort. apply merge_sort_Permutation. Qed.

Lemma not_Less_time_le a b :
  Is_true (negb (byTimeOrder_Less b a)) <-> time_le a b.
Proof.
  unfold byTimeOrder_Less, time_le.
  destruct (sel_at b <? sel_at a) eqn:E; simpl; split; intros H;
    try lia; try exact I; try contradiction.
Qed.

Lemma example_sort_sorted l :
  StronglySorted time_le (example_sort byTimeOrder_Less l).
Proof.
  unfold example_sort.
  set (R := fun a b => Is_true (negb (byTimeOrder_Less b a))).
  assert (HT : Transitive R).
  { intros a b c. unfold R. rewrite !not_Less_time_le. unfold time_le. lia. }
  assert (Htot : Total R).
  { intros a b. unfold R. rewrite !not_Less_time_le. unfold time_le. lia. }
  pose proof (StronglySorted_merge_sort R l) as Hs.
  induction Hs as [|x k Hk IH Hx]; [constructor|].
  constructor; [exact IH|].
  eapply Forall_impl; [exact Hx|].
  intros y Hy. apply not_Less_time_le. exact Hy.
Qed.


Lemma select_keeps_earlier_selection_witness :
  selectAll_loop Z.of_nat (selectAll_loop Z.of_nat selection_term)
  = selectAll_loop Z.of_nat selection_term.
Proof.
  destruct (select_keeps_earlier_selection Z.of_nat example_range
              example_sort example_range_perm example_sort_perm
              example_sort_sorted selection_term)
    as (_ & _ & _ & _ & Hidem & _).
  exact Hidem.
Defined.

(** ** The render engine *)

Section RenderFacts.

Variable RuneWidth : rune -> Z.

(** The width table gives 0, 1 or 2 columns, and one column to a dot. *)
Hypothesis RuneWidth_range : forall r, 0 <= RuneWidth r <= 2.
Hypothesis RuneWidth_dot : RuneWidth DOT = 1.

Abbreviation runeWidth' := (runeWidth RuneWidth).
Abbreviation displayWidth' := (displayWidth RuneWidth).
Abbreviation displayWidth_loop' := (displayWidth_loop RuneWidth).
Abbreviation trimRight' := (trimRight RuneWidth).
Abbreviation trimLeft' := (trimLeft RuneWidth).
Abbreviation first_fits' := (first_fits RuneWidth).

(** X24.  The memo table is invisible: with a table that holds values of the
    width function only, [runeWidth] returns what the function gives and
    leaves such a table behind. *)
Lemma runeWidth_memo_correct cache r prefixWidth :
  cache_ok RuneWidth cache ->
  (runeWidth_memo RuneWidth cache r prefixWidth).1 = runeWidth' r prefixWidth /\
  cache_ok RuneWidth (runeWidth_memo RuneWidth cache r prefixWidth).2.
Proof.
  intros Hok. unfold runeWidth_memo, runeWidth.
  destruct (r =? TAB); [split; [reflexivity|exact Hok]|].
  destruct (cache !! r) as [w|] eqn:E; simpl.
  - split; [apply Hok; exact E|exact Hok].
  - split; [reflexivity|].
    intros r' w' H. destruct (decide (r = r')) as [<-|Hne].
    + rewrite lookup_insert_eq in H. congruence.
    + rewrite lookup_insert_ne in H by exact Hne. apply Hok. exact H.
Qed.

Lemma runeWidth_range r l :
  0 <= l <= 4611686018427387904 -> 0 <= runeWidth' r l <= 8.
Proof.
  intros Hl. unfold runeWidth. destruct (r =? TAB).
  - unfold GoInt.rem.
    pose proof (Z.rem_bound_pos l 8 ltac:(lia) ltac:(lia)) as Hrem.
    rewrite sub_fits by lia. lia.
  - pose proof (RuneWidth_range r). lia.
Qed.

Lemma runeWidth_dot l : runeWidth' DOT l = 1.
Proof. unfold runeWidth. simpl. exact RuneWidth_dot. Qed.

(** Widths add up without wrapping as long as the text is of a length
    a slice can have. *)
Lemma displayWidth_loop_range runes l :
  0 <= l -> l + 8 * len runes <= 4611686018427387904 ->
  l <= displayWidth_loop' l runes <= l + 8 * len runes.
Proof.
  revert l. induction runes as [|r runes IH]; intros l Hl Hb; simpl.
  - unfold len. simpl. lia.
  - rewrite len_cons in *. pose proof (len_nonneg runes).
    pose proof (runeWidth_range r l ltac:(lia)) as Hw.
    rewrite add_fits by lia.
    specialize (IH (l + runeWidth' r l) ltac:(lia) ltac:(lia)). lia.
Qed.

Lemma displayWidth_loop_app a b l :
  displayWidth_loop' l (a ++ b) = displayWidth_loop' (displayWidth_loop' l a) b.
Proof.
  revert l. induction a as [|r a IH]; intros l; simpl; [reflexivity|].
  apply IH.
Qed.

Lemma displayWidth_range runes :
  8 * len runes <= 4611686018427387904 ->
  0 <= displayWidth' runes <= 8 * len runes.
Proof.
  intros Hb. unfold displayWidth.
  pose proof (displayWidth_loop_range runes 0 ltac:(lia) ltac:(lia)). lia.
Qed.

Lemma displayWidth_loop_dots l :
  0 <= l <= 4611686018427387904 -> displayWidth_loop' l dots = l + 2.
Proof.
  intros Hl. unfold dots. cbn [displayWidth_loop]. rewrite !runeWidth_dot.
  rewrite (add_fits l 1) by lia. rewrite add_fits by lia. lia.
Qed.

Lemma displayWidth_app_dots runes :
  8 * len runes <= 4611686018427387904 ->
  displayWidth' (runes ++ dots) = displayWidth' runes + 2.
Proof.
  intros Hb. unfold displayWidth. rewrite displayWidth_loop_app.
  pose proof (displayWidth_range runes Hb) as Hr. unfold displayWidth in Hr.
  apply displayWidth_loop_dots. lia.
Qed.

(** A prefix is no wider than the whole. *)
Lemma displayWidth_take n runes :
  8 * len runes <= 4611686018427387904 ->
  displayWidth' (take n runes) <= displayWidth' runes.
Proof.
  intros Hb. rewrite <- (take_drop n runes) at 2.
  unfold displayWidth. rewrite displayWidth_loop_app.
  assert (Hlen : len (take n runes) + len (drop n runes) = len runes).
  { rewrite <- len_app, take_drop. reflexivity. }
  pose proof (len_nonneg (take n runes)). pose proof (len_nonneg (drop n runes)).
  pose proof (displayWidth_loop_range (take n runes) 0 ltac:(lia) ltac:(lia)).
  pose proof (displayWidth_loop_range (drop n runes)
                (displayWidth_loop' 0 (take n runes)) ltac:(lia) ltac:(lia)).
  lia.
Qed.

(** *** [trimRight] *)

Lemma trimRight_loop_width runes width rest :
  8 * len runes <= 4611686018427387904 ->
  forall done l idx,
    runes = done ++ rest -> idx = length done -> l = displayWidth' done ->
    l <= width -> (done = [] -> first_fits' rest width) ->
    displayWidth' (trimRight_loop RuneWidth runes width idx l rest).1 <= width.
Proof.
  intros Hb. induction rest as [|r rest IH]; intros done l idx Hr Hidx Hl Hw Hf.
  - simpl. rewrite Hr, app_nil_r, <- Hl. exact Hw.
  - cbn [trimRight_loop].
    assert (Hlen : len runes = len done + (1 + len rest))
      by (rewrite Hr, len_app, len_cons; reflexivity).
    pose proof (len_nonneg done). pose proof (len_nonneg rest).
    assert (Hdone : 0 <= l <= 8 * len done)
      by (rewrite Hl; apply displayWidth_range; lia).
    pose proof (runeWidth_range r l ltac:(lia)) as Hrw.
    rewrite add_fits by lia.
    destruct ((Z.of_nat idx >? 0) && (l + runeWidth' r l >? width)) eqn:E.
    + cbn [fst]. rewrite Hr, Hidx, take_app_length, <- Hl. exact Hw.
    + apply (IH (done ++ [r])).
      * rewrite Hr, <- app_assoc. reflexivity.
      * rewrite length_app, Hidx. simpl. lia.
      * unfold displayWidth. rewrite displayWidth_loop_app.
        fold (displayWidth' done). rewrite <- Hl. cbn [displayWidth_loop].
        rewrite add_fits by lia. reflexivity.
      * apply andb_false_iff in E as [E | E]; [|lia].
        assert (done = []) as -> by (destruct done; [reflexivity|simpl in *; lia]).
        specialize (Hf eq_refl). simpl in Hf.
        unfold displayWidth in Hl. simpl in Hl. subst l. lia.
      * intros Hnil. destruct done; discriminate Hnil.
Qed.

Lemma trimRight_width runes width :
  8 * len runes <= 4611686018427387904 ->
  0 <= width -> first_fits' runes width ->
  displayWidth' (trimRight' runes width).1 <= width.
Proof.
  intros Hb Hw Hf. unfold trimRight.
  apply (trimRight_loop_width runes width runes Hb []); auto.
Qed.

(** What [trimRight] returns is a prefix of the text. *)
Lemma trimRight_loop_prefix runes width idx l rest :
  exists k, (trimRight_loop RuneWidth runes width idx l rest).1 = take k runes.
Proof.
  revert idx l. induction rest as [|r rest IH]; intros idx l.
  - exists (length runes). simpl. rewrite take_ge; [reflexivity|lia].
  - cbn [trimRight_loop].
    destruct ((Z.of_nat idx >? 0) && (l +% runeWidth' r l >? width)).
    + exists idx. reflexivity.
    + apply IH.
Qed.

Lemma trimRight_prefix runes width :
  exists k, (trimRight' runes width).1 = take k runes.
Proof. apply trimRight_loop_prefix. Qed.

(** *** [trimLeft] *)

Lemma displayWidthWithLimit_loop_exact limit runes :
  forall l,
    0 <= l -> l + 2 + 8 * len runes <= 4611686018427387904 ->
    displayWidthWithLimit_loop RuneWidth 2 limit l runes <= limit ->
    displayWidthWithLimit_loop RuneWidth 2 limit l runes + 2
    = displayWidth_loop' (l + 2) runes.
Proof.
  induction runes as [|r runes IH]; intros l Hl Hb Hle.
  - reflexivity.
  - cbn [displayWidthWithLimit_loop displayWidth_loop] in *.
    rewrite len_cons in Hb. pose proof (len_nonneg runes).
    rewrite (add_fits l 2) in * by lia.
    pose proof (runeWidth_range r (l + 2) ltac:(lia)) as Hrw.
    rewrite (add_fits l (runeWidth' r (l + 2))) in * by lia.
    rewrite (add_fits (l + 2)) by lia.
    destruct (l + runeWidth' r (l + 2) >? limit) eqn:E; [lia|].
    rewrite IH by (try lia; exact Hle). f_equal. lia.
Qed.

Lemma trimLeft_loop_width width runes :
  0 <= width -> 2 + 8 * len runes <= 4611686018427387904 ->
  forall trimmed,
    displayWidth_loop' 2
      (trimLeft_loop RuneWidth width runes trimmed
         (displayWidthWithLimit RuneWidth runes 2 width)).1
    <= width + 2.
Proof.
  intros Hw. induction runes as [|r runes IH]; intros Hb trimmed.
  - simpl. lia.
  - cbn [trimLeft_loop].
    destruct (displayWidthWithLimit RuneWidth (r :: runes) 2 width >? width)
      eqn:E.
    + apply IH. rewrite len_cons in Hb. lia.
    + cbn [fst]. unfold displayWidthWithLimit in *.
      pose proof (displayWidthWithLimit_loop_exact width (r :: runes) 0
                    ltac:(lia) ltac:(lia) ltac:(lia)) as Hex.
      change (0 + 2) with 2 in Hex. lia.
Qed.

Lemma trimLeft_width runes width :
  0 <= width -> 2 + 8 * len runes <= 4611686018427387904 ->
  displayWidth' runes > width ->
  displayWidth' (dots ++ (trimLeft' runes width).1) <= width + 2.
Proof.
  intros Hw Hb Hgt.
  unfold displayWidth at 1. rewrite displayWidth_loop_app.
  rewrite displayWidth_loop_dots by lia. simpl Z.add.
  unfold trimLeft. destruct runes as [|r runes].
  - unfold displayWidth in Hgt. simpl in Hgt. lia.
  - cbn [trimLeft_loop].
    destruct (displayWidth' (r :: runes) >? width) eqn:E; [|lia].
    apply trimLeft_loop_width; [exact Hw|]. rewrite len_cons in Hb. lia.
Qed.

(** [trimRight] keeps every prefix that fits in [width]. *)
Lemma trimRight_loop_keeps runes width (n : nat) rest :
  8 * len runes <= 4611686018427387904 ->
  (n <= length runes)%nat -> displayWidth' (take n runes) <= width ->
  forall done l idx,
    runes = done ++ rest -> idx = length done -> l = displayWidth' done ->
    (n <= length (trimRight_loop RuneWidth runes width idx l rest).1)%nat.
Proof.
  intros Hb Hn Hfit. induction rest as [|r rest IH]; intros done l idx Hr Hidx Hl.
  - simpl. exact Hn.
  - cbn [trimRight_loop].
    assert (Hlen : len runes = len done + (1 + len rest))
      by (rewrite Hr, len_app, len_cons; reflexivity).
    pose proof (len_nonneg done). pose proof (len_nonneg rest).
    assert (Hdone : 0 <= l <= 8 * len done)
      by (rewrite Hl; apply displayWidth_range; lia).
    pose proof (runeWidth_range r l ltac:(lia)) as Hrw.
    rewrite add_fits by lia.
    assert (Hnext : displayWidth' (done ++ [r]) = l + runeWidth' r l).
    { unfold displayWidth. rewrite displayWidth_loop_app.
      fold (displayWidth' done). rewrite <- Hl. cbn [displayWidth_loop].
      rewrite add_fits by lia. reflexivity. }
    destruct ((Z.of_nat idx >? 0) && (l + runeWidth' r l >? width)) eqn:E.
    + cbn [fst]. apply andb_prop in E as [_ E].
      rewrite length_take.
      assert (Hidx' : (idx < length runes)%nat).
      { rewrite Hr, length_app, Hidx. simpl. lia. }
      destruct (le_lt_dec n idx) as [Hle | Hgt]; [lia|exfalso].
      assert (Hpre : take (S idx) (take n runes) = done ++ [r]).
      { rewrite take_take. replace (S idx `min` n)%nat with (S idx) by lia.
        rewrite Hr, Hidx, cons_middle, app_assoc.
        apply take_app_length'. rewrite length_app. simpl. lia. }
      assert (Hlenn : len (take n runes) <= len runes).
      { unfold len. rewrite length_take. lia. }
      pose proof (displayWidth_take (S idx) (take n runes) ltac:(lia)) as Hmono.
      rewrite Hpre, Hnext in Hmono. lia.
    + apply (IH (done ++ [r])).
      * rewrite Hr, <- app_assoc. reflexivity.
      * rewrite length_app, Hidx. simpl. lia.
      * symmetry. exact Hnext.
Qed.

Lemma trimRight_keeps runes width (n : nat) :
  8 * len runes <= 4611686018427387904 ->
  (n <= length runes)%nat -> displayWidth' (take n runes) <= width ->
  (n <= length (trimRight' runes width).1)%nat.
Proof.
  intros Hb Hn Hfit. unfold trimRight.
  apply (trimRight_loop_keeps runes width n runes Hb Hn Hfit []); reflexivity.
Qed.

(** [trimLeft] drops a number of runes from the front and counts them. *)
Lemma trimLeft_loop_drop width runes :
  forall trimmed cw,
    0 <= trimmed -> trimmed + len runes <= 2147483647 ->
    exists k : nat,
      (k <= length runes)%nat /\
      (trimLeft_loop RuneWidth width runes trimmed cw).1 = drop k runes /\
      (trimLeft_loop RuneWidth width runes trimmed cw).2
      = trimmed + Z.of_nat k.
Proof.
  induction runes as [|r runes IH]; intros trimmed cw Ht Hb.
  - exists 0%nat. simpl. split; [lia|]. split; [reflexivity|lia].
  - cbn [trimLeft_loop]. rewrite len_cons in Hb. pose proof (len_nonneg runes).
    destruct (cw >? width).
    + rewrite add32_fits by lia.
      destruct (IH (trimmed + 1)
                  (displayWidthWithLimit RuneWidth runes 2 width)
                  ltac:(lia) ltac:(lia)) as (k & Hk & H1 & H2).
      exists (S k). simpl. split; [lia|]. split; [exact H1|]. rewrite H2. lia.
    + exists 0%nat. simpl. split; [lia|]. split; [reflexivity|lia].
Qed.

Lemma trimLeft_drop runes width :
  len runes <= 2147483647 ->
  exists k : nat,
    (k <= length runes)%nat /\
    (trimLeft' runes width).1 = drop k runes /\
    (trimLeft' runes width).2 = Z.of_nat k.
Proof.
  intros Hb. unfold trimLeft.
  destruct (trimLeft_loop_drop width runes 0 (displayWidth' runes)
              ltac:(lia) ltac:(lia)) as (k & Hk & H1 & H2).
  exists k. split; [exact Hk|]. split; [exact H1|]. rewrite H2. lia.
Qed.

(** *** The painting loop *)

Lemma printHighlighted_loop_within text col1 bold offs :
  forall index prefixWidth out,
    0 <= index <= len text -> Forall (within text) out ->
    exists index' prefixWidth' out',
      printHighlighted_loop RuneWidth text col1 bold (len text) offs
        index prefixWidth out = Some (index', prefixWidth', out') /\
      0 <= index' <= len text /\ Forall (within text) out'.
Proof.
  induction offs as [|o offs IH]; intros index prefixWidth out Hidx Hout.
  - simpl. eexists _, _, _. split; [reflexivity|]. split; assumption.
  - cbn [printHighlighted_loop].
    pose proof (Constrain32_range (co_offset o).1 index (len text)
                  ltac:(lia)) as Hb.
    pose proof (Constrain32_range (co_offset o).2 index (len text)
                  ltac:(lia)) as He.
    set (b := Util.Constrain32 (co_offset o).1 index (len text)) in *.
    set (e := Util.Constrain32 (co_offset o).2 index (len text)) in *.
    rewrite (slice_Some text index b) by lia. cbn [mbind option_bind].
    destruct (processTabs RuneWidth _ prefixWidth) as [substr pw1].
    assert (Hout1 : Forall (within text)
                      (out ++ [mkCPrint col1 bold index b substr])).
    { apply Forall_app. split; [exact Hout|].
      constructor; [|constructor]. unfold within. simpl. lia. }
    destruct (b <? e) eqn:Ebe.
    + rewrite (slice_Some text b e) by lia. cbn [mbind option_bind].
      destruct (processTabs RuneWidth _ pw1) as [substr2 pw2].
      cbn [mbind option_bind].
      assert (Hout2 : Forall (within text)
                        ((out ++ [mkCPrint col1 bold index b substr])
                           ++ [mkCPrint (co_color o) (co_bold o) b e substr2])).
      { apply Forall_app. split; [exact Hout1|].
        constructor; [|constructor]. unfold within. simpl. lia. }
      destruct (e >=? len text).
      * eexists _, _, _. split; [reflexivity|]. split; [lia|exact Hout2].
      * apply IH; [lia|exact Hout2].
    + cbn [mbind option_bind].
      destruct (e >=? len text).
      * eexists _, _, _. split; [reflexivity|]. split; [lia|exact Hout1].
      * apply IH; [lia|exact Hout1].
Qed.

(** Painting never panics, whatever the offsets, and hands the driver
    slices of the text only. *)
Lemma printHighlighted_paint_within text col1 bold offs :
  len text <= 2147483647 ->
  exists out,
    printHighlighted_paint RuneWidth text col1 bold offs = Some out /\
    Forall (within text) out.
Proof.
  intros Hb. unfold printHighlighted_paint.
  pose proof (len_nonneg text).
  rewrite to_int32_fits by lia.
  destruct (printHighlighted_loop_within text col1 bold offs 0 0 []
              ltac:(lia) ltac:(constructor))
    as (index & pw & out & Hloop & Hidx & Hout).
  rewrite Hloop. cbn [mbind option_bind].
  destruct (index <? len text) eqn:E;
    [|eexists; split; [reflexivity|exact Hout]].
  rewrite slice_from_Some by lia. cbn [mbind option_bind].
  destruct (processTabs RuneWidth _ pw) as [substr pw'].
  eexists. split; [reflexivity|].
  apply Forall_app. split; [exact Hout|].
  constructor; [|constructor]. unfold within. simpl. lia.
Qed.

End RenderFacts.

(** ** Truncation in [printHighlighted] *)

Lemma maxe_of_loop_ge (offs : list Offset) (m : Z) :
  m <= fold_left (fun maxe off => if off.2 >? maxe then off.2 else maxe) offs m.
Proof.
  revert m. induction offs as [|o offs IH]; intros m; simpl; [lia|].
  destruct (o.2 >? m) eqn:E; etransitivity; [|apply IH| |apply IH]; lia.
Qed.

Lemma maxe_of_nonneg (offs : list Offset) : 0 <= maxe_of offs.
Proof. apply maxe_of_loop_ge. Qed.

Lemma Forall_map_intro {A B} (P : A -> Prop) (Q : B -> Prop) (f : A -> B) l :
  (forall x, P x -> Q (f x)) -> Forall P l -> Forall Q (map f l).
Proof.
  intros Hf. induction 1 as [|x l Hx _ IH]; simpl; constructor; auto.
Qed.

Lemma Forall_map_all {A B} (Q : B -> Prop) (f : A -> B) l :
  (forall x, Q (f x)) -> Forall Q (map f l).
Proof.
  intros Hf. induction l as [|x l IH]; simpl; constructor; auto.
Qed.

Section Truncation.

Variable RuneWidth : rune -> Z.
Hypothesis RuneWidth_range : forall r, 0 <= RuneWidth r <= 2.
Hypothesis RuneWidth_dot : RuneWidth DOT = 1.

Abbreviation overflow' := (printHighlighted_overflow RuneWidth).
Abbreviation paint' := (printHighlighted_paint RuneWidth).
Abbreviation width' := (displayWidth RuneWidth).

(** C1, as amended.  Let maxWidth be the screen width less 3.  An item
    no wider than maxWidth is painted as it is, text and offsets.  For a
    wider item, on a screen where maxWidth is at least 2 and with match
    offsets that end within the text, the overflow block returns, and:
    the text it hands on, ellipsis included, is no wider than maxWidth
    when the first rune of the item is no wider than maxWidth - 2, and
    also whenever the text is trimmed on the left, that is with
    horizontal scrolling and a match that ends past maxWidth - 2
    columns; the adjusted offsets keep start <= end; from offsets that
    lie within the matched part of the text, horizontal scrolling gives
    adjusted offsets with 0 <= start <= end <= length of the truncated
    text, while without it they satisfy 0 <= start <= end <= maxWidth,
    which may be past that length; and the painting loop, which clamps
    the offsets once more, does not panic and hands the driver only
    slices [from, to) of the truncated text with
    0 <= from <= to <= length. *)
Theorem printHighlighted_truncation hscroll MaxX item offs :
  let maxWidth := MaxX - 3 in
  let maxe := maxe_of (offsets item) in
  small32 MaxX -> len (text item) <= 268435456 -> maxe <= len (text item) ->
  (width' (text item) <= maxWidth ->
     overflow' hscroll MaxX item offs = Some (text item, offs)) /\
  (width' (text item) > maxWidth -> 2 <= maxWidth ->
     exists text' offs',
       overflow' hscroll MaxX item offs = Some (text', offs') /\
       (first_fits RuneWidth (text item) (maxWidth - 2) ->
          width' text' <= maxWidth) /\
       (hscroll = true ->
        width' (take (Z.to_nat maxe) (text item)) > maxWidth - 2 ->
          width' text' <= maxWidth) /\
       (Forall ordered offs -> Forall ordered offs') /\
       (Forall (span_in maxe) offs ->
          if hscroll then Forall (span_in (len text')) offs'
          else Forall (span_in maxWidth) offs') /\
       (forall col1 bold,
          exists out,
            paint' text' col1 bold offs' = Some out /\
            Forall (within text') out)).
Proof.
  cbv zeta. unfold small32. intros HX Hlen Hmaxe.
  pose proof (len_nonneg (text item)) as Hlen0.
  pose proof (maxe_of_nonneg (offsets item)) as Hmaxe0.
  pose proof (displayWidth_range RuneWidth RuneWidth_range (text item)
                ltac:(lia)) as Hfull.
  unfold printHighlighted_overflow.
  rewrite (sub_fits MaxX 3) by lia.
  rewrite (sub_fits (MaxX - 3) 2) by lia.
  set (full := width' (text item)) in *.
  rewrite (sub_fits full 2) by lia.
  split.
  - intros Hfit. destruct (full >? MaxX - 3) eqn:E; [lia|reflexivity].
  - intros Hover Hwide.
    destruct (full >? MaxX - 3) eqn:E; [|lia]. clear E.
    destruct hscroll.
    + (* horizontal scrolling *)
      rewrite slice_to_Some by lia. cbn [mbind option_bind].
      set (maxe := maxe_of (offsets item)) in *.
      set (head := take (Z.to_nat maxe) (text item)).
      assert (Hhead : len head = maxe) by (apply len_take; lia).
      pose proof (displayWidth_range RuneWidth RuneWidth_range head
                    ltac:(lia)) as Hhw.
      destruct (width' head <=? MaxX - 3 - 2) eqn:Em.
      * (* the match ends early: trim on the right *)
        destruct (trimRight_prefix RuneWidth (text item) (MaxX - 3 - 2))
          as [k Hk].
        pose proof (trimRight_width RuneWidth RuneWidth_range (text item)
                      (MaxX - 3 - 2) ltac:(lia) ltac:(lia)) as Hw.
        pose proof (trimRight_keeps RuneWidth RuneWidth_range (text item)
                      (MaxX - 3 - 2) (Z.to_nat maxe) ltac:(lia)
                      ltac:(unfold len in *; lia) ltac:(fold head; lia))
          as Hkeep.
        set (tr := (trimRight RuneWidth (text item) (MaxX - 3 - 2)).1) in *.
        assert (Htr : len tr <= len (text item)).
        { rewrite Hk. unfold len. rewrite length_take. lia. }
        pose proof (len_nonneg tr) as Htr0.
        exists (tr ++ dots), offs. split; [reflexivity|].
        split.
        { intros Hff. rewrite displayWidth_app_dots by (auto; lia).
          specialize (Hw Hff). lia. }
        split; [intros _ Hgt; fold head in Hgt; lia|].
        split; [auto|].
        split.
        { intros Hs. eapply Forall_impl; [exact Hs|].
          intros o (H1 & H2 & H3). unfold span_in. rewrite len_app.
          change (len dots) with 2. unfold len in *. lia. }
        intros col1 bold.
        apply printHighlighted_paint_within.
        rewrite len_app. change (len dots) with 2. lia.
      * (* the match ends late: cut after it, then trim on the left *)
        set (text1 := if width' head <? full - 2 then head ++ dots
                      else text item).
        assert (Ht1 : width' text1 > MaxX - 3 - 2 /\
                      maxe <= len text1 <= len (text item) + 2).
        { subst text1. destruct (width' head <? full - 2).
          - rewrite displayWidth_app_dots by (auto; lia).
            rewrite len_app. change (len dots) with 2. lia.
          - fold full. lia. }
        destruct Ht1 as (Hw1 & Hl1).
        destruct (trimLeft_drop RuneWidth text1 (MaxX - 3 - 2) ltac:(lia))
          as (k & Hk & Hdrop & Hdiff).
        pose proof (trimLeft_width RuneWidth RuneWidth_range RuneWidth_dot
                      text1 (MaxX - 3 - 2) ltac:(lia) ltac:(lia) Hw1) as Hw.
        destruct (trimLeft RuneWidth text1 (MaxX - 3 - 2)) as [text2 diff].
        cbn [fst snd] in *. subst text2 diff.
        assert (Hl2 : len (drop k text1) = len text1 - Z.of_nat k).
        { unfold len. rewrite length_drop. lia. }
        eexists _, _. split; [reflexivity|].
        split; [intros _; lia|].
        split; [intros _ _; lia|].
        split.
        { intros _. apply Forall_map_all. intros o. unfold ordered. cbn [co_offset fst snd].
          rewrite (Max32_spec _ (GoInt.add32 _ _)). lia. }
        split.
        { intros Hs. eapply Forall_map_intro; [|exact Hs].
          intros o (H1 & H2 & H3). unfold span_in. cbn [co_offset fst snd].
          rewrite len_app, Hl2. change (len dots) with 2.
          unfold len in *.
          rewrite sub32_fits by lia.
          rewrite !add32_fits by lia.
          rewrite !Max32_spec. lia. }
        intros col1 bold.
        apply printHighlighted_paint_within.
        rewrite len_app, Hl2. change (len dots) with 2. lia.
    + (* no horizontal scrolling: trim on the right *)
      destruct (trimRight_prefix RuneWidth (text item) (MaxX - 3 - 2))
        as [k Hk].
      pose proof (trimRight_width RuneWidth RuneWidth_range (text item)
                    (MaxX - 3 - 2) ltac:(lia) ltac:(lia)) as Hw.
      set (tr := (trimRight RuneWidth (text item) (MaxX - 3 - 2)).1) in *.
      assert (Htr : len tr <= len (text item)).
      { rewrite Hk. unfold len. rewrite length_take. lia. }
      pose proof (len_nonneg tr) as Htr0.
      rewrite !to_int32_fits by lia.
      eexists _, _. split; [reflexivity|].
      split.
      { intros Hff. rewrite displayWidth_app_dots by (auto; lia).
        specialize (Hw Hff). lia. }
      split; [intros Hf; discriminate Hf|].
      split.
      { intros Hs. eapply Forall_map_intro; [|exact Hs].
        intros o Ho. unfold ordered in *. cbn [co_offset fst snd].
        rewrite !Min32_spec. lia. }
      split.
      { intros Hs. eapply Forall_map_intro; [|exact Hs].
        intros o (H1 & H2 & H3). unfold span_in. cbn [co_offset fst snd].
        rewrite !Min32_spec. lia. }
      intros col1 bold.
      apply printHighlighted_paint_within.
      rewrite len_app. change (len dots) with 2. lia.
Qed.

End Truncation.

Lemma RuneWidth_table_range r : 0 <= RuneWidth_table r <= 2.
Proof. unfold RuneWidth_table. case_match; lia. Qed.

Lemma RuneWidth_table_dot : RuneWidth_table DOT = 1.
Proof. reflexivity. Qed.

(** C1, as the claim words it, fails.  On a screen of 12 columns, so
    that maxWidth is 9, without horizontal scrolling, the text is a tab
    followed by "abcdefgh", 16 columns wide, and "abcd" is matched.
    [trimRight] keeps the first rune whatever its width: the text
    painted is the tab and the ellipsis, 10 columns wide, and the
    adjusted offset (1, 5) ends past its 3 runes.  On a screen of 5
    columns the same happens to "abc": "a.." is 3 columns wide where
    maxWidth is 2. *)
Lemma printHighlighted_truncation_overruns :
  displayWidth RuneWidth_table (text tab_item) = 16 /\
  printHighlighted_overflow RuneWidth_table false 12 tab_item
    (match_colorOffsets tab_item 7 true false)
  = Some (TAB :: dots, [mkColorOffset (1, 5) 7 true]) /\
  displayWidth RuneWidth_table (TAB :: dots) = 10 /\
  ~ (displayWidth RuneWidth_table (TAB :: dots) <= 12 - 3) /\
  ~ (5 <= len (TAB :: dots)) /\
  printHighlighted_overflow RuneWidth_table false 5
    (mkItem 2 (runes_of "abc") [] (runes_of "abc")) []
  = Some (runes_of "a..", []) /\
  ~ (displayWidth RuneWidth_table (runes_of "a..") <= 5 - 3).
Proof.
  split; [reflexivity|]. split; [reflexivity|]. split; [reflexivity|].
  split; [vm_compute; intros H; apply H; reflexivity|].
  split; [vm_compute; intros H; apply H; reflexivity|].
  split; [reflexivity|].
  vm_compute; intros H; apply H; reflexivity.
Qed.

Lemma printHighlighted_truncation_witness :
  exists text' offs',
    printHighlighted_overflow RuneWidth_table true 13 alphabet_item
      (match_colorOffsets alphabet_item 7 true false)
    = Some (text', offs') /\
    displayWidth RuneWidth_table text' <= 13 - 3 /\
    Forall (span_in (len text')) offs'.
Proof.
  destruct (printHighlighted_truncation RuneWidth_table
              RuneWidth_table_range RuneWidth_table_dot true 13
              alphabet_item (match_colorOffsets alphabet_item 7 true false)
              ltac:(vm_compute; split; discriminate)
              ltac:(vm_compute; discriminate)
              ltac:(vm_compute; discriminate)) as [_ Htrunc].
  destruct (Htrunc ltac:(vm_compute; reflexivity)
                   ltac:(vm_compute; discriminate))
    as (text' & offs' & Hov & _ & Hwidth & _ & Hspans & _).
  exists text', offs'. split; [exact Hov|]. split.
  - apply Hwidth; [reflexivity|]. vm_compute. reflexivity.
  - apply Hspans. repeat constructor; vm_compute; discriminate.
Defined.

(** The same overrun of the offsets with wide runes and no tab.  On a
    screen of 13 columns, without horizontal scrolling, ten ideographs
    are cut down to four and the ellipsis, ten columns in six runes; the
    offset (0, 8) is clipped to maxWidth = 10 and stays (0, 8), past the
    six runes; the painting loop then paints the slice from 0 to 6. *)
Lemma printHighlighted_wide_offsets_overrun :
  printHighlighted_overflow RuneWidth_table false 13 wide_item
    (match_colorOffsets wide_item 7 true false)
  = Some (replicate 4 19990 ++ dots, [mkColorOffset (0, 8) 7 true]) /\
  displayWidth RuneWidth_table (replicate 4 19990 ++ dots) = 10 /\
  len (replicate 4 19990 ++ dots) = 6 /\
  option_map (map (fun c => (cp_from c, cp_to c)))
    (printHighlighted RuneWidth_table false 13 match_colorOffsets wide_item
       true 1 7 false)
  = Some [(0, 0); (0, 6)].
Proof. repeat split; reflexivity. Qed.

(** ** The cursor stays inside the query, the word motions apart *)

Section CursorInvariant.

Context {History : Type}.
Variable history_override : History -> list rune -> History.
Variable history_previous : History -> list rune * History.
Variable history_next : History -> list rune * History.
Variable C : KeyCodes.
Variable MaxY : Z.
Variable clock : nat -> Z.
Context {Regexp : Type}.
Variable regexp_Compile : string -> option Regexp.
Variable FindAllStringIndex : Regexp -> list Z -> list (Z * Z).
Variable FindStringIndex : Regexp -> list Z -> option (Z * Z).

Implicit Types t : @Terminal History.
Implicit Types s : @LoopState History.

Lemma same_line_refl t : same_line t t.
Proof. repeat split. Qed.

Lemma same_line_trans t1 t2 t3 :
  same_line t1 t2 -> same_line t2 t3 -> same_line t1 t3.
Proof.
  intros (A1 & A2 & A3) (B1 & B2 & B3).
  repeat split; congruence.
Qed.

Lemma selectItem_same_line item t : same_line t (selectItem clock item t).2.
Proof.
  unfold selectItem. destruct (selected t !! index item);
    repeat split.
Qed.

Lemma toggleY_same_line y t t' :
  toggleY clock y t = Some t' -> same_line t t'.
Proof.
  unfold toggleY. destruct (Get t y) as [item|]; [|discriminate].
  cbn [mbind option_bind].
  pose proof (selectItem_same_line item t) as Hs.
  destruct (selectItem clock item t) as [fresh t1]. cbn [snd] in Hs.
  destruct fresh; cbn [negb]; intros [= <-]; [exact Hs|].
  eapply same_line_trans; [exact Hs|]. repeat split.
Qed.

Lemma toggle_same_line s s' :
  toggle clock s = Some s' -> same_line (term s) (term s').
Proof.
  unfold toggle. destruct (cy (term s) <? Length (term s)).
  - destruct (toggleY clock (cy (term s)) (term s)) as [t'|] eqn:E;
      [|discriminate].
    cbn [mbind option_bind]. intros [= <-].
    exact (toggleY_same_line _ _ _ E).
  - intros [= <-]. apply same_line_refl.
Qed.

Lemma vset_same_line o t : same_line t (vset o t).2.
Proof. repeat split. Qed.

Lemma vmove_same_line o t : same_line t (vmove o t).
Proof. repeat split. Qed.

Lemma selectAll_loop_same_line t : same_line t (selectAll_loop clock t).
Proof.
  unfold selectAll_loop. generalize (merger t) as items. intros items.
  revert t. induction items as [|item items IH]; intros t.
  - apply same_line_refl.
  - simpl. eapply same_line_trans; [apply selectItem_same_line|apply IH].
Qed.

Lemma deselectAll_loop_same_line t : same_line t (deselectAll_loop t).
Proof.
  unfold deselectAll_loop. generalize (merger t) as items. intros items.
  revert t. induction items as [|item items IH]; intros t.
  - apply same_line_refl.
  - simpl. eapply same_line_trans; [|apply IH]. repeat split.
Qed.

Lemma toggleAll_loop_same_line t t' :
  toggleAll_loop clock t = Some t' -> same_line t t'.
Proof.
  unfold toggleAll_loop. generalize (seq 0 (length (merger t))) as ys.
  intros ys. revert t. induction ys as [|y ys IH]; intros t.
  - simpl. intros [= <-]. apply same_line_refl.
  - simpl. destruct (toggleY clock (Z.of_nat y) t) as [t1|] eqn:E.
    + intros H. eapply same_line_trans;
        [apply (toggleY_same_line _ _ _ E)|apply IH; exact H].
    + intros H. exfalso. clear -H.
      induction ys as [|y' ys IH']; simpl in H; [discriminate|].
      apply IH'. exact H.
Qed.

Lemma same_line_cursor_ok t t' : same_line t t' -> cursor_ok t -> cursor_ok t'.
Proof. unfold cursor_ok. intros (H1 & H2 & _) H. rewrite H1, H2. exact H. Qed.

Abbreviation Loop_switch'' :=
  (Loop_switch history_override history_previous history_next MaxY clock
     regexp_Compile FindAllStringIndex FindStringIndex).

Ltac see_term := rewrite ?req_term; cbn [term with_term].

Lemma mouse_cursor_ok event s s' :
  cursor_ok (term s) -> mouse MaxY clock event s = Some s' ->
  cursor_ok (term s').
Proof.
  intros Hok. unfold mouse.
  destruct (negb (me_S (ev_Mouse event) =? 0)).
  { destruct (Length (term s) >? 0); [|intros [= <-]; exact Hok].
    destruct (multi (term s) && me_Mod (ev_Mouse event)).
    - destruct (toggle clock s) as [s1|] eqn:E; [|discriminate].
      cbn [mbind option_bind]. intros [= <-]. see_term.
      apply (same_line_cursor_ok (term s)); [|exact Hok].
      eapply same_line_trans; [apply (toggle_same_line _ _ E)|].
      apply vmove_same_line.
    - cbn [mbind option_bind]. intros [= <-]. see_term. exact Hok. }
  destruct (me_Double (ev_Mouse event)).
  { destruct (_ >=? _); [|intros [= <-]; exact Hok].
    cbn [vset]. destruct (_ && _); intros [= <-]; see_term; exact Hok. }
  destruct (me_Down (ev_Mouse event)); [|intros [= <-]; exact Hok].
  destruct (_ && _) eqn:E.
  { intros [= <-]. unfold cursor_ok in *. cbn [term with_term cx set_cx input].
    pose proof (len_nonneg (input (term s))).
    apply Constrain_range. lia. }
  clear E.
  destruct (_ >=? _); [|intros [= <-]; exact Hok].
  cbn [vset].
  destruct (_ && _ && _).
  - match goal with
    | |- context [toggle clock ?x] => destruct (toggle clock x) as [s1|] eqn:Et
    end; [|discriminate].
    cbn [mbind option_bind]. intros [= <-]. see_term.
    apply (same_line_cursor_ok (term s)); [|exact Hok].
    eapply same_line_trans; [|apply (toggle_same_line _ _ Et)].
    repeat split.
  - cbn [mbind option_bind]. intros [= <-]. see_term. exact Hok.
Qed.

Ltac keep_line Hok :=
  intros [= <-]; cbn [flow_state]; see_term;
  first [ exact Hok
        | apply (same_line_cursor_ok _ _ ltac:(repeat split) Hok) ].

(** Every action but a word motion leaves the cursor inside the query. *)
Lemma switch_cursor_ok action mapkey event s flow :
  is_word_motion action = false ->
  cursor_ok (term s) ->
  small (len (input (term s))) -> small (len (yanked (term s))) ->
  Loop_switch'' action mapkey event s = Some flow ->
  cursor_ok (term (flow_state flow)).
Proof.
  intros Hw Hok Hlen Hyank. pose proof Hok as Hok'.
  unfold cursor_ok, small in Hok', Hlen, Hyank.
  pose proof (len_nonneg (yanked (term s))) as Hy0.
  destruct action; try discriminate Hw; clear Hw; unfold Loop_switch.
  - (* actIgnore *) keep_line Hok.
  - (* actInvalid *) keep_line Hok.
  - (* actRune *)
    rewrite slice_to_Some, slice_from_Some by lia. cbn [mbind option_bind].
    intros [= <-]. cbn [flow_state]. see_term. unfold cursor_ok.
    cbn [cx set_cx input set_input]. unfold copySlice.
    rewrite add_fits by lia.
    rewrite !len_app, len_take, len_drop by lia.
    change (len [ev_Char event]) with 1. lia.
  - (* actMouse *)
    destruct (mouse MaxY clock event s) as [s1|] eqn:E; [|discriminate].
    cbn [mbind option_bind]. intros [= <-]. cbn [flow_state].
    apply (mouse_cursor_ok event s s1 Hok E).
  - (* actBeginningOfLine *)
    intros [= <-]. cbn [flow_state]. see_term. unfold cursor_ok.
    cbn [cx set_cx input]. lia.
  - (* actAbort *) keep_line Hok.
  - (* actAccept *) keep_line Hok.
  - (* actBackwardChar *)
    destruct (cx (term s) >? 0) eqn:E; [|keep_line Hok].
    intros [= <-]. cbn [flow_state]. see_term. unfold cursor_ok.
    cbn [cx set_cx input]. rewrite sub_fits by lia. lia.
  - (* actBackwardDeleteChar *)
    destruct (cx (term s) >? 0) eqn:E; [|keep_line Hok].
    rewrite sub_fits by lia.
    rewrite slice_to_Some, slice_from_Some by lia. cbn [mbind option_bind].
    intros [= <-]. cbn [flow_state]. see_term. unfold cursor_ok.
    cbn [cx set_cx input set_input]. rewrite sub_fits by lia.
    rewrite len_app, len_take, len_drop by lia. lia.
  - (* actClearScreen *) keep_line Hok.
  - (* actDeleteChar *)
    unfold delChar.
    destruct ((len (input (term s)) >? 0) && (cx (term s) <? len (input (term s))))
      eqn:E.
    + apply andb_prop in E as [E1 E2].
      rewrite add_fits by lia.
      rewrite slice_to_Some, slice_from_Some by lia. cbn [mbind option_bind].
      cbn [negb andb].
      intros [= <-]. cbn [flow_state]. see_term. unfold cursor_ok.
      cbn [cx input set_input].
      rewrite len_app, len_take, len_drop by lia. lia.
    + cbn [mbind option_bind].
      destruct (negb false && (cx (term s) =? 0)); keep_line Hok.
  - (* actEndOfLine *)
    intros [= <-]. cbn [flow_state]. see_term. unfold cursor_ok.
    cbn [cx set_cx input]. lia.
  - (* actForwardChar *)
    destruct (cx (term s) <? len (input (term s))) eqn:E; [|keep_line Hok].
    intros [= <-]. cbn [flow_state]. see_term. unfold cursor_ok.
    cbn [cx set_cx input]. rewrite add_fits by lia. lia.
  - (* actKillLine *)
    destruct (cx (term s) <? len (input (term s))) eqn:E; [|keep_line Hok].
    rewrite slice_from_Some by lia. cbn [mbind option_bind].
    cbn [input set_yanked cx].
    rewrite slice_to_Some by lia. cbn [mbind option_bind].
    intros [= <-]. cbn [flow_state]. see_term. unfold cursor_ok.
    cbn [cx input set_input set_yanked].
    rewrite len_take by lia. lia.
  - (* actUnixLineDiscard *)
    destruct (cx (term s) >? 0) eqn:E; [|keep_line Hok].
    rewrite slice_to_Some by lia. cbn [mbind option_bind].
    cbn [input set_yanked cx].
    rewrite slice_from_Some by lia. cbn [mbind option_bind].
    intros [= <-]. cbn [flow_state]. see_term. unfold cursor_ok.
    cbn [cx set_cx input set_input].
    rewrite len_drop by lia. lia.
  - (* actYank *)
    rewrite slice_from_Some, slice_to_Some by lia. cbn [mbind option_bind].
    intros [= <-]. cbn [flow_state]. see_term. unfold cursor_ok.
    cbn [cx set_cx input set_input yanked]. unfold copySlice.
    rewrite add_fits by lia.
    rewrite !len_app, len_take, len_drop by lia. lia.
  - (* actSelectAll *)
    destruct (multi (term s)); [|keep_line Hok].
    intros [= <-]. cbn [flow_state]. see_term.
    apply (same_line_cursor_ok _ _ (selectAll_loop_same_line _) Hok).
  - (* actDeselectAll *)
    destruct (multi (term s)); [|keep_line Hok].
    intros [= <-]. cbn [flow_state]. see_term.
    apply (same_line_cursor_ok _ _ (deselectAll_loop_same_line _) Hok).
  - (* actToggle *)
    destruct (multi (term s) && (Length (term s) >? 0)); [|keep_line Hok].
    destruct (toggle clock s) as [s1|] eqn:E; [|discriminate].
    cbn [mbind option_bind]. intros [= <-]. cbn [flow_state]. see_term.
    apply (same_line_cursor_ok _ _ (toggle_same_line _ _ E) Hok).
  - (* actToggleAll *)
    destruct (multi (term s)); [|keep_line Hok].
    destruct (toggleAll_loop clock (term s)) as [t1|] eqn:E; [|discriminate].
    cbn [mbind option_bind]. intros [= <-]. cbn [flow_state]. see_term.
    apply (same_line_cursor_ok _ _ (toggleAll_loop_same_line _ _ E) Hok).
  - (* actToggleDown *)
    destruct (multi (term s) && (Length (term s) >? 0)); [|keep_line Hok].
    destruct (toggle clock s) as [s1|] eqn:E; [|discriminate].
    cbn [mbind option_bind]. intros [= <-]. cbn [flow_state]. see_term.
    apply (same_line_cursor_ok (term s)); [|exact Hok].
    eapply same_line_trans; [apply (toggle_same_line _ _ E)|].
    apply vmove_same_line.
  - (* actToggleUp *)
    destruct (multi (term s) && (Length (term s) >? 0)); [|keep_line Hok].
    destruct (toggle clock s) as [s1|] eqn:E; [|discriminate].
    cbn [mbind option_bind]. intros [= <-]. cbn [flow_state]. see_term.
    apply (same_line_cursor_ok (term s)); [|exact Hok].
    eapply same_line_trans; [apply (toggle_same_line _ _ E)|].
    apply vmove_same_line.
  - (* actDown *) keep_line Hok.
  - (* actUp *) keep_line Hok.
  - (* actPageUp *) keep_line Hok.
  - (* actPageDown *) keep_line Hok.
  - (* actToggleSort *) keep_line Hok.
  - (* actPreviousHistory *)
    destruct (history (term s)) as [h|]; [|keep_line Hok].
    destruct (history_previous (history_override h (input (term s))))
      as [line h']. intros [= <-]. cbn [flow_state]. see_term.
    unfold cursor_ok. cbn [cx set_cx input set_input].
    pose proof (len_nonneg line). lia.
  - (* actNextHistory *)
    destruct (history (term s)) as [h|]; [|keep_line Hok].
    destruct (history_next (history_override h (input (term s))))
      as [line h']. intros [= <-]. cbn [flow_state]. see_term.
    unfold cursor_ok. cbn [cx set_cx input set_input].
    pose proof (len_nonneg line). lia.
  - (* actExecute *)
    destruct ((cy (term s) >=? 0) && (cy (term s) <? Length (term s)));
      [|keep_line Hok].
    destruct (Get (term s) (cy (term s))); [|discriminate].
    cbn [mbind option_bind]. keep_line Hok.
Qed.

(** X12.  A turn of the loop on an event that resolves to anything but a word
    motion leaves the cursor inside the query, if the turn returns. *)
Lemma turn_cursor_ok t event turn :
  is_word_motion (resolve C t event).1 = false ->
  cursor_ok t -> small (len (input t)) -> small (len (yanked t)) ->
  Loop_turn history_override history_previous history_next C MaxY clock
    regexp_Compile FindAllStringIndex FindStringIndex event t = Some turn ->
  cursor_ok (turn_term turn).
Proof.
  intros Hw Hok Hlen Hyank. unfold Loop_turn.
  set (s1 := expect_scan C (expect t) event _).
  destruct (expect_scan_term C (expect t) event
              (mkLoopState t [reqPrompt] true [] [])) as [p Hp].
  fold s1 in Hp. cbn [term] in Hp.
  rewrite (resolve_keymap C t (term s1) event) by (rewrite Hp; reflexivity).
  destruct (resolve C t event) as [action mapkey]. cbn [fst] in Hw.
  assert (Hok1 : cursor_ok (term s1)) by (rewrite Hp; exact Hok).
  assert (Hlen1 : small (len (input (term s1)))) by (rewrite Hp; exact Hlen).
  assert (Hy1 : small (len (yanked (term s1)))) by (rewrite Hp; exact Hyank).
  destruct (Loop_switch'' action mapkey event s1) as [flow|] eqn:E;
    [|discriminate].
  pose proof (switch_cursor_ok action mapkey event s1 flow Hw Hok1 Hlen1
                Hy1 E) as Hflow.
  cbn [mbind option_bind].
  destruct flow as [s2|s2]; intros [= <-]; exact Hflow.
Qed.

End CursorInvariant.

(** ** The word motions on queries of single-byte runes

    The bounds of the matches are byte offsets.  On a query whose runes
    take one byte each they are rune indices as well, and there the word
    motions keep the cursor inside the query. *)

Lemma string_of_runes_single_byte runes :
  single_byte runes -> string_of_runes runes = runes.
Proof.
  unfold single_byte, string_of_runes.
  induction 1 as [|r runes Hr _ IH]; [reflexivity|].
  simpl flat_map. rewrite IH. unfold utf8_rune.
  destruct (r <? 0) eqn:E1; [lia|].
  destruct (r >? 1114111) eqn:E2; [lia|].
  destruct (55296 <=? r) eqn:E3; [lia|].
  destruct (r <? 128) eqn:E4; [reflexivity|lia].
Qed.

Lemma decode_single_byte fuel s :
  single_byte s -> (length s <= fuel)%nat ->
  GoRegexp.decode fuel s = map (fun b => (b, 1)) s.
Proof.
  unfold single_byte. intros Hs. revert fuel.
  induction Hs as [|b s Hb _ IH]; intros fuel Hfuel.
  - destruct fuel; reflexivity.
  - destruct fuel as [|fuel]; [simpl in Hfuel; lia|].
    cbn [GoRegexp.decode]. destruct (b <? 128) eqn:E; [|lia].
    rewrite IH by (simpl in Hfuel; lia). reflexivity.
Qed.

Lemma chars_of_single_byte s :
  single_byte s ->
  GoRegexp.chars_of s = map (fun b => (b, 1)) s /\
  unit_chars (GoRegexp.chars_of s) /\
  len (GoRegexp.chars_of s) = len s.
Proof.
  intros Hs. unfold GoRegexp.chars_of.
  rewrite decode_single_byte by (auto; lia).
  split; [reflexivity|]. split.
  - unfold unit_chars. apply Forall_map_all. reflexivity.
  - unfold len. rewrite length_map. reflexivity.
Qed.

Lemma match_classes_bound cs at_end s n :
  unit_chars s -> GoRegexp.match_classes cs at_end s = Some n ->
  n = len cs /\ n <= len s.
Proof.
  unfold unit_chars. revert s n.
  induction cs as [|c cs IH]; intros s n Hs H.
  - simpl in H. pose proof (len_nonneg s). change (len (@nil (rune -> bool))) with 0.
    destruct at_end; [destruct s; [|discriminate]|]; injection H as <-;
      split; try reflexivity; lia.
  - cbn [GoRegexp.match_classes] in H.
    destruct s as [|[r w] s]; [discriminate|].
    apply Forall_cons in Hs as [Hw Hs]. simpl in Hw. subst w.
    revert H. destruct (c r); [|discriminate].
    destruct (GoRegexp.match_classes cs at_end s) as [m|] eqn:E;
      [|discriminate].
    cbn [mbind option_bind]. intros [= <-].
    destruct (IH s m Hs E) as [-> Hle]. rewrite !len_cons. lia.
Qed.

Lemma match_here_bound rx s n :
  unit_chars s -> nonempty rx -> GoRegexp.match_here rx s = Some n ->
  1 <= n <= len s.
Proof.
  intros Hs. revert n. induction rx as [cs at_end|a IHa b IHb]; intros n Hne H.
  - simpl in H, Hne. destruct (match_classes_bound cs at_end s n Hs H) as [-> Hle].
    destruct cs; [contradiction|]. rewrite len_cons in *.
    pose proof (len_nonneg cs). lia.
  - simpl in H. destruct Hne as [Ha Hb]. revert H.
    destruct (GoRegexp.match_here a s) as [m|] eqn:E; intros H.
    + injection H as <-. apply IHa; auto.
    + apply IHb; auto.
Qed.

Lemma find_from_bound rx s :
  unit_chars s -> nonempty rx ->
  forall pos b e, GoRegexp.find_from rx pos s = Some (b, e) ->
  pos <= b /\ b < e /\ e <= pos + len s.
Proof.
  intros Hs Hne. induction Hs as [|[r w] s Hw Hs IH]; intros pos b e H.
  - cbn [GoRegexp.find_from] in H. revert H.
    destruct (GoRegexp.match_here rx _) as [n|] eqn:E; [|discriminate].
    intros [= <- <-].
    assert (Hu : unit_chars []) by constructor.
    pose proof (match_here_bound rx _ n Hu Hne E) as Hn.
    unfold len in *. simpl in *. lia.
  - cbn [GoRegexp.find_from] in H. simpl in Hw. subst w. revert H.
    destruct (GoRegexp.match_here rx _) as [n|] eqn:E; intros H.
    + injection H as <- <-.
      assert (Hu : unit_chars ((r, 1) :: s)) by (constructor; auto).
      pose proof (match_here_bound rx _ n Hu Hne E) as Hn.
      rewrite len_cons in *. lia.
    + apply IH in H. rewrite len_cons. lia.
Qed.

Lemma skip_to_bound target s :
  unit_chars s ->
  forall pos, pos <= target <= pos + len s ->
  unit_chars (GoRegexp.skip_to pos target s).2 /\
  (GoRegexp.skip_to pos target s).1 = target /\
  target + len (GoRegexp.skip_to pos target s).2 = pos + len s.
Proof.
  intros Hs. induction Hs as [|[r w] s Hw Hs IH]; intros pos Hpos.
  - unfold len in *. simpl in *. split; [constructor|]. lia.
  - cbn [GoRegexp.skip_to]. simpl in Hw. subst w. rewrite len_cons in *.
    destruct (pos <? target) eqn:E.
    + destruct (IH (pos + 1) ltac:(lia)) as (H1 & H2 & H3).
      split; [exact H1|]. split; [exact H2|]. lia.
    + cbn [fst snd]. split; [constructor; auto|]. rewrite len_cons. lia.
Qed.

Lemma find_all_bound rx fuel :
  nonempty rx ->
  forall s pos, unit_chars s ->
  Forall (fun loc => pos <= loc.1 /\ loc.1 < loc.2 /\ loc.2 <= pos + len s)
    (GoRegexp.find_all fuel rx pos s).
Proof.
  intros Hne. induction fuel as [|fuel IH]; intros s pos Hs; [constructor|].
  cbn [GoRegexp.find_all].
  destruct (GoRegexp.find_from rx pos s) as [[b e]|] eqn:E; [|constructor].
  destruct (find_from_bound rx s Hs Hne pos b e E) as (H1 & H2 & H3).
  destruct (e <=? b) eqn:Ebe; [lia|].
  destruct (skip_to_bound e s Hs pos ltac:(lia)) as (K1 & K2 & K3).
  destruct (GoRegexp.skip_to pos e s) as [pos' s']. cbn [fst snd] in *.
  subst pos'. constructor; [cbn [fst snd]; lia|].
  eapply Forall_impl; [apply IH; exact K1|].
  intros loc (L1 & L2 & L3). pose proof (len_nonneg s'). lia.
Qed.

Lemma Compile_nonempty pattern rx :
  GoRegexp.Compile pattern = Some rx -> nonempty rx.
Proof.
  unfold GoRegexp.Compile.
  repeat (destruct (String.eqb pattern _);
          [intros [= <-]; simpl; repeat split; discriminate|]).
  discriminate.
Qed.

(** On single-byte text both searches return -1 or the index of a rune
    that is not the last thing before the end. *)
Lemma findFirstMatch_single_byte pattern runes :
  single_byte runes ->
  -1 <= findFirstMatch GoRegexp.Compile GoRegexp.FindStringIndex pattern
          (string_of_runes runes) < len runes.
Proof.
  intros Hs. rewrite string_of_runes_single_byte by exact Hs.
  pose proof (len_nonneg runes). unfold findFirstMatch.
  destruct (GoRegexp.Compile pattern) as [rx|] eqn:Ec; [|lia].
  unfold GoRegexp.FindStringIndex.
  destruct (chars_of_single_byte runes Hs) as (_ & Hu & Hl).
  destruct (GoRegexp.find_from rx 0 _) as [[b e]|] eqn:E; [|lia].
  destruct (find_from_bound rx _ Hu (Compile_nonempty _ _ Ec) 0 b e E)
    as (H1 & H2 & H3).
  cbn [fst]. lia.
Qed.

Lemma findLastMatch_single_byte pattern runes :
  single_byte runes ->
  -1 <= findLastMatch GoRegexp.Compile GoRegexp.FindAllStringIndex pattern
          (string_of_runes runes) < len runes.
Proof.
  intros Hs. rewrite string_of_runes_single_byte by exact Hs.
  pose proof (len_nonneg runes). unfold findLastMatch.
  destruct (GoRegexp.Compile pattern) as [rx|] eqn:Ec; [|lia].
  unfold GoRegexp.FindAllStringIndex.
  destruct (chars_of_single_byte runes Hs) as (_ & Hu & Hl).
  pose proof (find_all_bound rx (S (length (GoRegexp.chars_of runes)))
                (Compile_nonempty _ _ Ec) _ 0 Hu) as Hall.
  destruct (last _) as [loc|] eqn:E; [|lia].
  apply last_Some_elem_of in E.
  rewrite Forall_forall in Hall. destruct (Hall loc E) as (H1 & H2 & H3).
  lia.
Qed.

Lemma single_byte_take n runes : single_byte runes -> single_byte (take n runes).
Proof. apply Forall_take. Qed.

Lemma single_byte_drop n runes : single_byte runes -> single_byte (drop n runes).
Proof. apply Forall_drop. Qed.

Section WordMotions.

Context {History : Type}.
Variable history_override : History -> list rune -> History.
Variable history_previous : History -> list rune * History.
Variable history_next : History -> list rune * History.
Variable MaxY : Z.
Variable clock : nat -> Z.

Implicit Types t : @Terminal History.
Implicit Types s : @LoopState History.

Abbreviation go_switch :=
  (Loop_switch history_override history_previous history_next MaxY clock
     GoRegexp.Compile GoRegexp.FindAllStringIndex GoRegexp.FindStringIndex).
Abbreviation go_rubout :=
  (rubout GoRegexp.Compile GoRegexp.FindAllStringIndex).

Lemma rubout_single_byte pattern t :
  cursor_ok t -> small (len (input t)) -> single_byte (input t) ->
  exists t', go_rubout pattern t = Some t' /\ cursor_ok t'.
Proof.
  unfold cursor_ok, small. intros Hok Hlen Hs. unfold rubout.
  rewrite slice_from_Some, slice_to_Some by lia. cbn [mbind option_bind].
  pose proof (findLastMatch_single_byte pattern
                (take (Z.to_nat (cx t)) (input t))
                (single_byte_take _ _ Hs)) as Hf.
  rewrite len_take in Hf by lia.
  set (f := findLastMatch _ _ _ _) in *. clearbody f.
  cbn [input cx set_cx]. rewrite add_fits by lia.
  rewrite slice_Some by lia. cbn [mbind option_bind].
  cbn [input cx set_yanked set_cx].
  rewrite slice_to_Some by lia. cbn [mbind option_bind].
  eexists. split; [reflexivity|].
  cbn [cx input set_input set_yanked set_cx].
  rewrite len_app, len_take, len_drop by lia. lia.
Qed.

(** X13.  On a query of single-byte runes every word motion returns and
    leaves the cursor inside the query. *)
Lemma word_motion_single_byte action mapkey event s :
  is_word_motion action = true ->
  cursor_ok (term s) -> small (len (input (term s))) ->
  single_byte (input (term s)) ->
  exists flow,
    go_switch action mapkey event s = Some flow /\
    cursor_ok (term (flow_state flow)).
Proof.
  intros Hw Hok Hlen Hs. pose proof Hok as Hok'.
  unfold cursor_ok, small in Hok', Hlen.
  pose proof (findFirstMatch_single_byte wordForward
                (drop (Z.to_nat (cx (term s))) (input (term s)))
                (single_byte_drop _ _ Hs)) as Hfirst.
  rewrite len_drop in Hfirst by lia.
  pose proof (findLastMatch_single_byte wordBackward
                (take (Z.to_nat (cx (term s))) (input (term s)))
                (single_byte_take _ _ Hs)) as Hlast.
  rewrite len_take in Hlast by lia.
  destruct action; try discriminate Hw; clear Hw; unfold Loop_switch.
  - (* actBackwardWord *)
    rewrite slice_to_Some by lia. cbn [mbind option_bind].
    set (f := findLastMatch _ _ _ _) in *. clearbody f.
    eexists. split; [reflexivity|]. cbn [flow_state term with_term].
    unfold cursor_ok. cbn [cx set_cx input]. rewrite add_fits by lia. lia.
  - (* actForwardWord *)
    rewrite slice_from_Some by lia. cbn [mbind option_bind].
    set (f := findFirstMatch _ _ _ _) in *. clearbody f.
    eexists. split; [reflexivity|]. cbn [flow_state term with_term].
    unfold cursor_ok. cbn [cx set_cx input].
    rewrite (add_fits f 1) by lia. rewrite add_fits by lia. lia.
  - (* actKillWord *)
    rewrite slice_from_Some by lia. cbn [mbind option_bind].
    set (f := findFirstMatch _ _ _ _) in *. clearbody f.
    rewrite (add_fits (cx (term s)) f) by lia. rewrite add_fits by lia.
    destruct (cx (term s) + f + 1 >? cx (term s)) eqn:E.
    + rewrite slice_Some by lia. cbn [mbind option_bind].
      cbn [input cx set_yanked].
      rewrite slice_to_Some, slice_from_Some by lia.
      cbn [mbind option_bind].
      eexists. split; [reflexivity|]. cbn [flow_state term with_term].
      unfold cursor_ok. cbn [cx input set_input set_yanked].
      rewrite len_app, len_take, len_drop by lia. lia.
    + eexists. split; [reflexivity|]. exact Hok.
  - (* actUnixWordRubout *)
    destruct (cx (term s) >? 0).
    + destruct (rubout_single_byte spaceBoundary (term s) Hok Hlen Hs)
        as (t' & Hr & Hok1).
      rewrite Hr. cbn [mbind option_bind].
      eexists. split; [reflexivity|]. exact Hok1.
    + eexists. split; [reflexivity|]. exact Hok.
  - (* actBackwardKillWord *)
    destruct (cx (term s) >? 0).
    + destruct (rubout_single_byte wordBackward (term s) Hok Hlen Hs)
        as (t' & Hr & Hok1).
      rewrite Hr. cbn [mbind option_bind].
      eexists. split; [reflexivity|]. exact Hok1.
    + eexists. split; [reflexivity|]. exact Hok.
Qed.

End WordMotions.

(** ** The viewport after [constrain] *)

Section ViewportFacts.

Context {History : Type}.
Variable MaxY : Z.
Variable clock : nat -> Z.
Implicit Types t : @Terminal History.
Implicit Types s : @LoopState History.

(** X1.  On a list that is not empty [constrain] leaves the cursor on a row
    of the list, wherever the cursor and the scroll offset were and
    whatever the height of the window. *)
Theorem constrain_cursor_on_list t :
  1 <= Length t ->
  small (cy t) -> small (offset t) -> small (Length t) ->
  small (maxItems MaxY t) ->
  0 <= cy (constrain MaxY t) <= Length t - 1.
Proof.
  intros Hcount Hcy Hoff Hlen Hh.
  destruct (constrain_cy_offset MaxY t Hcy Hoff Hlen Hh) as [E1 _].
  cbv zeta in E1. rewrite E1.
  unfold small, Util.Constrain in *. repeat case_match; lia.
Qed.

(** X2.  If the scroll offset was not past the cursor row, [constrain] leaves
    the cursor inside the window: on or after the first row shown and
    on or before the last. *)
Theorem constrain_cursor_visible t :
  offset t <= cy t -> 1 <= Length t -> 1 <= maxItems MaxY t ->
  small (cy t) -> small (offset t) -> small (Length t) ->
  small (maxItems MaxY t) ->
  offset (constrain MaxY t) <= cy (constrain MaxY t)
    <= offset (constrain MaxY t) + (maxItems MaxY t - 1).
Proof.
  intros Hle Hcount Hheight Hcy Hoff Hlen Hh.
  destruct (constrain_cy_offset MaxY t Hcy Hoff Hlen Hh) as [E1 E2].
  cbv zeta in E1, E2. rewrite E1, E2.
  unfold small, Util.Constrain in *. repeat case_match; lia.
Qed.

(** X3.  From a scroll offset that is not negative [constrain] leaves one
    that is not negative either, and a window that shows as many items
    as it has rows, or the whole list if that is shorter: no row is left
    blank while an item is scrolled out above. *)
Theorem constrain_window_filled t :
  0 <= offset t -> 1 <= Length t -> 1 <= maxItems MaxY t ->
  small (cy t) -> small (offset t) -> small (Length t) ->
  small (maxItems MaxY t) ->
  0 <= offset (constrain MaxY t) /\
  Z.min (maxItems MaxY t) (Length t) <= Length t - offset (constrain MaxY t).
Proof.
  intros Hle Hcount Hheight Hcy Hoff Hlen Hh.
  destruct (constrain_cy_offset MaxY t Hcy Hoff Hlen Hh) as [_ E2].
  cbv zeta in E2. rewrite E2.
  unfold small, Util.Constrain in *. repeat case_match; lia.
Qed.

(** X4.  After a move of the cursor [constrain] scrolls to the cursor and
    leaves the cursor alone.  From a window that starts on the list and
    has no blank row it need not have, with the cursor on any row of the
    list: the cursor stays where it is; the window stays where it is if
    the cursor is inside it, and otherwise moves just far enough for the
    cursor to be its first or its last row. *)
Theorem constrain_scrolls_to_cursor t :
  1 <= maxItems MaxY t -> 0 <= cy t < Length t -> 0 <= offset t ->
  Z.min (maxItems MaxY t) (Length t) <= Length t - offset t ->
  small (Length t) -> small (maxItems MaxY t) ->
  cy (constrain MaxY t) = cy t /\
  offset (constrain MaxY t) =
    (if cy t <? offset t then cy t
     else if cy t >? offset t + (maxItems MaxY t - 1)
          then cy t - (maxItems MaxY t - 1)
          else offset t).
Proof.
  intros Hheight Hcy Hoff Hfill Hlen Hh.
  assert (Hcys : small (cy t)) by (unfold small in *; lia).
  assert (Hoffs : small (offset t)) by (unfold small in *; lia).
  destruct (constrain_cy_offset MaxY t Hcys Hoffs Hlen Hh) as [E1 E2].
  cbv zeta in E1, E2. rewrite E1, E2.
  clear E1 E2. unfold small, Util.Constrain in *.
  split; repeat case_match; lia.
Qed.

End ViewportFacts.

Section MouseFacts.

Context {History : Type}.
Variable MaxY : Z.
Variable clock : nat -> Z.
Implicit Types t : @Terminal History.
Implicit Types s : @LoopState History.

(** X7.  A double click closes the session exactly when it points at an item
    of the list: then the cursor is put on that item and [reqClose] is
    requested; a double click anywhere else requests nothing. *)
Theorem double_click_accepts_listed_row event s :
  me_S (ev_Mouse event) = 0 -> me_Double (ev_Mouse event) = true ->
  small MaxY -> small (me_Y (ev_Mouse event)) ->
  small (offset (term s)) -> small (Length (term s)) ->
  exists s',
    mouse MaxY clock event s = Some s' /\
    let row := pointed_row MaxY (term s) (ev_Mouse event) in
    if (offset (term s) <=? row) && (0 <=? row) && (row <? Length (term s))
    then events s' = events s ++ [reqClose] /\ looping s' = false /\
         cy (term s') = row
    else events s' = events s /\ looping s' = looping s.
Proof.
  intros HS HD HM HY Hoff Hlen. unfold mouse, pointed_row. cbv zeta.
  rewrite HS, HD. cbn [Z.eqb negb].
  unfold small in *.
  pose proof (len_nonneg (merger (term s))) as Hn. fold (Length (term s)) in Hn.
  set (my := if negb (reverse (term s)) then _ else _).
  assert (Hmy : my = if reverse (term s) then me_Y (ev_Mouse event)
                     else MaxY - me_Y (ev_Mouse event) - 1).
  { subst my. destruct (reverse (term s)); cbn [negb]; [reflexivity|].
    rewrite (sub_fits MaxY) by lia. rewrite sub_fits by lia. reflexivity. }
  rewrite <- Hmy. 
  assert (Hmys : -2305843009213693954 <= my <= 2305843009213693954).
  { rewrite Hmy. destruct (reverse (term s)); lia. }
  clearbody my. clear Hmy.
  set (min := if inlineInfo (term s) then 1 else 2).
  assert (Hmin : 1 <= min <= 2) by (subst min; destruct (inlineInfo _); lia).
  clearbody min.
  destruct (my >=? min) eqn:E1.
  - unfold vset. cbv zeta. cbn [cy set_cy].
    change (Length (set_cy _ (term s))) with (Length (term s)).
    rewrite (add_fits (offset (term s)) my) by lia.
    rewrite (sub_fits _ min) by lia.
    rewrite (sub_fits (Length (term s)) 1) by lia.
    set (row := offset (term s) + my - min).
    assert (Hrow : offset (term s) <= row) by (subst row; lia).
    clearbody row.
    replace (offset (term s) <=? row) with true by lia. cbn [andb].
    unfold Util.Constrain.
    destruct (row <? 0) eqn:E2.
    + replace (0 <=? row) with false by lia. cbn [andb].
      destruct (0 =? row) eqn:E3; [lia|]. cbn [andb].
      eexists. split; [reflexivity|]. split; reflexivity.
    + replace (0 <=? row) with true by lia. cbn [andb].
      destruct (row >? Length (term s) - 1) eqn:E3.
      * replace (row <? Length (term s)) with false by lia.
        destruct (Length (term s) - 1 =? row) eqn:E4; [lia|].
        cbn [andb].
        eexists. split; [reflexivity|]. split; reflexivity.
      * rewrite Z.eqb_refl. cbn [andb].
        destruct (row <? Length (term s)) eqn:E4; [|lia].
        eexists. split; [reflexivity|]. repeat split.
  - eexists. split; [reflexivity|].
    replace (offset (term s) <=? offset (term s) + my - min) with false by lia.
    cbn [andb]. split; reflexivity.
Qed.

End MouseFacts.

(** A scroll offset past the cursor row can leave the cursor out of the
    window: with four items, three visible rows, the cursor on row 2 and
    the scroll offset 3, [constrain] leaves the cursor on row 0 and the
    window starting at row 1. *)
Lemma constrain_cursor_hidden :
  cy (constrain 5 constrain_example) < offset (constrain 5 constrain_example).
Proof. reflexivity. Qed.

Lemma constrain_cursor_on_list_witness :
  0 <= cy (constrain 5 constrain_example) <= Length constrain_example - 1.
Proof.
  apply constrain_cursor_on_list; vm_compute; try split; discriminate.
Defined.

Lemma constrain_cursor_visible_witness :
  offset (constrain 5 bottom_term) <= cy (constrain 5 bottom_term)
    <= offset (constrain 5 bottom_term) + (maxItems 5 bottom_term - 1).
Proof.
  apply constrain_cursor_visible; vm_compute; try split; discriminate.
Defined.

Lemma constrain_window_filled_witness :
  0 <= offset (constrain 5 bottom_term) /\
  Z.min (maxItems 5 bottom_term) (Length bottom_term)
    <= Length bottom_term - offset (constrain 5 bottom_term).
Proof.
  apply constrain_window_filled; vm_compute; try split; discriminate.
Defined.

Lemma double_click_accepts_listed_row_witness :
  exists s',
    mouse 24 Z.of_nat (click_event 19 0 true)
      (turn_state (scenario_term false false)) = Some s' /\
    let row :=
      pointed_row 24 (term (turn_state (scenario_term false false)))
        (ev_Mouse (click_event 19 0 true)) in
    if (offset (term (turn_state (scenario_term false false))) <=? row)
       && (0 <=? row)
       && (row <? Length (term (turn_state (scenario_term false false))))
    then events s' = events (turn_state (scenario_term false false))
                       ++ [reqClose] /\
         looping s' = false /\ cy (term s') = row
    else events s' = events (turn_state (scenario_term false false)) /\
         looping s' = looping (turn_state (scenario_term false false)).
Proof.
  apply double_click_accepts_listed_row;
    [reflexivity|reflexivity|..]; vm_compute; split; discriminate.
Defined.

Lemma constrain_scrolls_to_cursor_witness :
  cy (constrain 5 bottom_term) = cy bottom_term /\
  offset (constrain 5 bottom_term) =
    (if cy bottom_term <? offset bottom_term then cy bottom_term
     else if cy bottom_term >? offset bottom_term + (maxItems 5 bottom_term - 1)
          then cy bottom_term - (maxItems 5 bottom_term - 1)
          else offset bottom_term).
Proof.
  apply constrain_scrolls_to_cursor; vm_compute;
    first [discriminate | split; [discriminate|reflexivity]
          | split; discriminate].
Defined.

(** ** What a turn of the loop leaves alone *)

Section TurnFrame.

Context {History : Type}.
Variable history_override : History -> list rune -> History.
Variable history_previous : History -> list rune * History.
Variable history_next : History -> list rune * History.
Variable C : KeyCodes.
Variable MaxY : Z.
Variable clock : nat -> Z.
Context {Regexp : Type}.
Variable regexp_Compile : string -> option Regexp.
Variable FindAllStringIndex : Regexp -> list Z -> list (Z * Z).
Variable FindStringIndex : Regexp -> list Z -> option (Z * Z).

Implicit Types t : @Terminal History.
Implicit Types s : @LoopState History.

Abbreviation switch :=
  (Loop_switch history_override history_previous history_next MaxY clock
     regexp_Compile FindAllStringIndex FindStringIndex).
Ltac got :=
  let H := fresh "Hres" in
  intros H; apply (inj Some) in H; rewrite <- H; clear H.

Lemma posts_more_same s s' :
  events s' = events s -> looping s' = looping s -> posts_more s s'.
Proof.
  intros He Hl. exists []. rewrite app_nil_r, He, Hl.
  split; [reflexivity|]. simpl. rewrite andb_true_r. reflexivity.
Qed.

Lemma posts_more_trans s1 s2 s3 :
  posts_more s1 s2 -> posts_more s2 s3 -> posts_more s1 s3.
Proof.
  intros (e1 & A1 & A2) (e2 & B1 & B2). exists (e1 ++ e2).
  rewrite B1, A1, B2, A2, forallb_app, app_assoc, andb_assoc.
  split; reflexivity.
Qed.

Lemma posts_more_req evts s : posts_more s (req evts s).
Proof.
  revert s. induction evts as [|e evts IH]; intros s.
  - apply posts_more_same; reflexivity.
  - eapply posts_more_trans; [|exact (IH _)].
    exists [e]. cbn [events looping forallb]. split; [reflexivity|].
    unfold closes. destruct (bool_decide _); cbn [negb andb].
    + rewrite andb_false_r. reflexivity.
    + rewrite !andb_true_r. reflexivity.
Qed.

Lemma keeps_refl s : keeps s s.
Proof.
  split; [apply posts_more_same; reflexivity|]. repeat split.
Qed.

Lemma keeps_trans s1 s2 s3 : keeps s1 s2 -> keeps s2 s3 -> keeps s1 s3.
Proof.
  intros (A1 & A2 & A3 & A4 & A5 & A6) (B1 & B2 & B3 & B4 & B5 & B6).
  split; [exact (posts_more_trans _ _ _ A1 B1)|].
  split; [intros H; rewrite B2, A2 by congruence; reflexivity|].
  repeat split; congruence.
Qed.

Lemma keeps_req evts s : keeps s (req evts s).
Proof.
  split; [apply posts_more_req|].
  rewrite req_term.
  assert (H : searchNew (req evts s) = searchNew s).
  { revert s. induction evts as [|e evts IH]; intros s; [reflexivity|].
    exact (IH _). }
  repeat split. exact H.
Qed.

(** The selection closures change the selection and the clock count
    only. *)
Lemma selectItem_input item t :
  input (selectItem clock item t).2 = input t /\
  multi (selectItem clock item t).2 = multi t /\
  pressed (selectItem clock item t).2 = pressed t.
Proof.
  unfold selectItem. destruct (selected t !! index item); repeat split.
Qed.

Lemma toggleY_input y t t' :
  toggleY clock y t = Some t' ->
  input t' = input t /\ multi t' = multi t /\ pressed t' = pressed t.
Proof.
  unfold toggleY. destruct (Get t y) as [item|]; [|discriminate].
  cbn [mbind option_bind].
  pose proof (selectItem_input item t) as Hs.
  destruct (selectItem clock item t) as [fresh t1]. cbn [snd] in Hs.
  destruct fresh; cbn [negb]; intros [= <-]; exact Hs.
Qed.

Lemma selectAll_loop_pressed t :
  pressed (selectAll_loop clock t) = pressed t.
Proof.
  unfold selectAll_loop. generalize (merger t) as items. intros items.
  revert t. induction items as [|item items IH]; intros t; [reflexivity|].
  cbn [fold_left]. rewrite IH. apply selectItem_input.
Qed.

Lemma deselectAll_loop_pressed t :
  pressed (deselectAll_loop t) = pressed t.
Proof.
  unfold deselectAll_loop. generalize (merger t) as items. intros items.
  revert t. induction items as [|item items IH]; intros t; [reflexivity|].
  cbn [fold_left]. rewrite IH. reflexivity.
Qed.

Lemma toggleAll_loop_pressed t t' :
  toggleAll_loop clock t = Some t' -> pressed t' = pressed t.
Proof.
  unfold toggleAll_loop. generalize (seq 0 (length (merger t))) as ys.
  intros ys. revert t. induction ys as [|y ys IH]; intros t.
  - simpl. intros [= <-]. reflexivity.
  - cbn [fold_left mbind option_bind].
    destruct (toggleY clock (Z.of_nat y) t) as [t1|] eqn:E.
    + intros H. rewrite (IH _ H). apply (toggleY_input _ _ _ E).
    + intros H. exfalso. clear -H.
      induction ys as [|y' ys IH']; simpl in H; [discriminate|].
      apply IH'. exact H.
Qed.

Lemma toggle_keeps s s' :
  multi (term s) = true -> toggle clock s = Some s' -> keeps s s'.
Proof.
  intros Hm. unfold toggle. destruct (cy (term s) <? Length (term s)).
  - destruct (toggleY clock (cy (term s)) (term s)) as [t'|] eqn:E;
      [|discriminate].
    cbn [mbind option_bind]. got.
    destruct (toggleY_input _ _ _ E) as (Hi & Hmu & Hpr).
    eapply keeps_trans; [|apply keeps_req].
    split; [apply posts_more_same; reflexivity|].
    cbn [term with_term searchNew].
    split; [intros H; congruence|]. repeat split; assumption.
  - got. apply keeps_refl.
Qed.

Lemma keeps_with_term t' s :
  (multi (term s) = false -> selected t' = selected (term s)) ->
  input t' = input (term s) -> multi t' = multi (term s) ->
  pressed t' = pressed (term s) ->
  keeps s (with_term t' s).
Proof.
  intros H1 H2 H3 H4. split; [apply posts_more_same; reflexivity|].
  repeat split; assumption.
Qed.

Lemma mouse_keeps event s s' :
  mouse MaxY clock event s = Some s' -> keeps s s'.
Proof.
  unfold mouse.
  destruct (negb (me_S (ev_Mouse event) =? 0)).
  { destruct (Length (term s) >? 0); [|got; apply keeps_refl].
    destruct (multi (term s) && me_Mod (ev_Mouse event)) eqn:Em.
    - apply andb_prop in Em as [Em _].
      destruct (toggle clock s) as [s1|] eqn:E; [|discriminate].
      cbn [mbind option_bind]. got.
      eapply keeps_trans; [apply (toggle_keeps _ _ Em E)|].
      eapply keeps_trans; [|apply keeps_req].
      apply keeps_with_term; reflexivity.
    - cbn [mbind option_bind]. got.
      eapply keeps_trans; [|apply keeps_req].
      apply keeps_with_term; reflexivity. }
  destruct (me_Double (ev_Mouse event)).
  { destruct (_ >=? _); [|got; apply keeps_refl].
    cbn [vset]. destruct (_ && _); got.
    - eapply keeps_trans; [|apply keeps_req].
      apply keeps_with_term; reflexivity.
    - apply keeps_with_term; reflexivity. }
  destruct (me_Down (ev_Mouse event)); [|got; apply keeps_refl].
  destruct (_ && _) eqn:E.
  { got. apply keeps_with_term; reflexivity. }
  clear E.
  destruct (_ >=? _); [|got; apply keeps_refl].
  cbn [vset].
  destruct (_ && _ && _) eqn:Em.
  - apply andb_prop in Em as [Em _]. apply andb_prop in Em as [_ Em].
    cbn [multi set_cy] in Em.
    match goal with
    | |- context [toggle clock ?x] => destruct (toggle clock x) as [s1|] eqn:Et
    end; [|discriminate].
    cbn [mbind option_bind]. got.
    apply toggle_keeps in Et as Hk; [|exact Em].
    eapply keeps_trans; [|apply keeps_req].
    eapply keeps_trans; [|exact Hk].
    apply keeps_with_term; reflexivity.
  - cbn [mbind option_bind]. got.
    eapply keeps_trans; [|apply keeps_req].
    apply keeps_with_term; reflexivity.
Qed.


Lemma posts_more_req_after evts s0 s :
  posts_more s0 s -> posts_more s0 (req evts s).
Proof. intros H. exact (posts_more_trans _ _ _ H (posts_more_req evts s)). Qed.

Lemma posts_more_with_term t s0 s :
  posts_more s0 s -> posts_more s0 (with_term t s).
Proof.
  intros H. eapply posts_more_trans; [exact H|].
  apply posts_more_same; reflexivity.
Qed.

Lemma req_searchNew evts s : searchNew (req evts s) = searchNew s.
Proof.
  revert s. induction evts as [|e evts IH]; intros s; [reflexivity|].
  exact (IH _).
Qed.

Lemma delChar_selected t d t' :
  delChar t = Some (d, t') ->
  selected t' = selected t /\ pressed t' = pressed t.
Proof.
  unfold delChar. destruct (_ && _).
  - destruct (slice_to _ _); [|discriminate].
    destruct (slice_from _ _); [|discriminate].
    cbn [mbind option_bind]. intros [= _ <-]. split; reflexivity.
  - intros [= _ <-]. split; reflexivity.
Qed.

Lemma rubout_selected pattern t t' :
  rubout regexp_Compile FindAllStringIndex pattern t = Some t' ->
  selected t' = selected t /\ pressed t' = pressed t.
Proof.
  unfold rubout.
  destruct (slice_from _ _); [|discriminate].
  destruct (slice_to _ _); [|discriminate].
  cbn [mbind option_bind].
  destruct (slice _ _ _); [|discriminate].
  cbn [mbind option_bind].
  destruct (slice_to _ _); [|discriminate].
  cbn [mbind option_bind]. intros [= <-]. split; reflexivity.
Qed.

(** The requests of a step are those of [req]. *)
Ltac posted :=
  repeat first [ apply posts_more_req_after | apply posts_more_with_term ];
  apply posts_more_same; reflexivity.

(** A step that ends in a state built from [s] by [req], [with_term] and
    setters that touch neither the selection nor the query. *)
Ltac kept :=
  got; cbn [flow_state];
  split; [posted|];
  rewrite ?req_term, ?req_searchNew; cbn [term with_term searchNew];
  split; [intros _; reflexivity|];
  split; [let H := fresh in intros H; first [discriminate H | reflexivity]|];
  split; [intros _; reflexivity|reflexivity].

Ltac bind_ok :=
  match goal with
  | |- context [mbind _ ?o] =>
      destruct o eqn:?; cbn [mbind option_bind]; [|discriminate]
  end.

Lemma kept_of_keeps s s' (a : actionType) :
  keeps s s' ->
  posts_more s s' /\
  (multi (term s) = false -> selected (term s') = selected (term s)) /\
  (edits_query a = false -> input (term s') = input (term s)) /\
  (a <> actToggleSort -> searchNew s' = searchNew s) /\
  pressed (term s') = pressed (term s).
Proof. intros (H1 & H2 & H3 & H4 & _ & H6). repeat split; auto. Qed.

(** What the [switch] leaves alone, action by action. *)
Lemma switch_keeps action mapkey event s flow :
  switch action mapkey event s = Some flow ->
  posts_more s (flow_state flow) /\
  (multi (term s) = false ->
     selected (term (flow_state flow)) = selected (term s)) /\
  (edits_query action = false ->
     input (term (flow_state flow)) = input (term s)) /\
  (action <> actToggleSort -> searchNew (flow_state flow) = searchNew s) /\
  pressed (term (flow_state flow)) = pressed (term s).
Proof.
  destruct action; unfold Loop_switch.
  - (* actIgnore *) kept.
  - (* actInvalid *) kept.
  - (* actRune *) repeat bind_ok. kept.
  - (* actMouse *)
    destruct (mouse MaxY clock event s) as [s1|] eqn:E; [|discriminate].
    cbn [mbind option_bind]. got. cbn [flow_state].
    apply kept_of_keeps. exact (mouse_keeps _ _ _ E).
  - (* actBeginningOfLine *) kept.
  - (* actAbort *) kept.
  - (* actAccept *) kept.
  - (* actBackwardChar *) destruct (_ >? _); kept.
  - (* actBackwardDeleteChar *)
    destruct (_ >? _); [|kept]. repeat bind_ok. kept.
  - (* actBackwardWord *) repeat bind_ok. kept.
  - (* actClearScreen *) kept.
  - (* actDeleteChar *)
    destruct (delChar (term s)) as [[d t1]|] eqn:E; [|discriminate].
    cbn [mbind option_bind]. pose proof (delChar_selected _ _ _ E) as [Hs Hpr].
    destruct (_ && _); got; cbn [flow_state];
      (split; [posted|]);
      rewrite ?req_term, ?req_searchNew; cbn [term with_term searchNew];
      (split; [intros _; exact Hs|]);
      (split; [intros H; discriminate H|]);
      (split; [intros _; reflexivity|exact Hpr]).
  - (* actEndOfLine *) kept.
  - (* actForwardChar *) destruct (_ <? _); kept.
  - (* actForwardWord *) repeat bind_ok. kept.
  - (* actKillLine *)
    destruct (_ <? _); [|kept]. repeat bind_ok. kept.
  - (* actKillWord *)
    bind_ok. destruct (_ >? _); [|kept]. repeat bind_ok. kept.
  - (* actUnixLineDiscard *)
    destruct (_ >? _); [|kept]. repeat bind_ok. kept.
  - (* actUnixWordRubout *)
    destruct (_ >? _); [|kept].
    destruct (rubout _ _ _ _) as [t1|] eqn:E; [|discriminate].
    cbn [mbind option_bind]. pose proof (rubout_selected _ _ _ E) as [Hs Hpr].
    got; cbn [flow_state]; (split; [posted|]); cbn [term with_term searchNew];
      (split; [intros _; exact Hs|]);
      (split; [intros H; discriminate H|]);
      (split; [intros _; reflexivity|exact Hpr]).
  - (* actYank *) repeat bind_ok. kept.
  - (* actBackwardKillWord *)
    destruct (_ >? _); [|kept].
    destruct (rubout _ _ _ _) as [t1|] eqn:E; [|discriminate].
    cbn [mbind option_bind]. pose proof (rubout_selected _ _ _ E) as [Hs Hpr].
    got; cbn [flow_state]; (split; [posted|]); cbn [term with_term searchNew];
      (split; [intros _; exact Hs|]);
      (split; [intros H; discriminate H|]);
      (split; [intros _; reflexivity|exact Hpr]).
  - (* actSelectAll *)
    destruct (multi (term s)) eqn:Em; [|kept].
    got. cbn [flow_state]. split; [posted|].
    rewrite req_term, req_searchNew. cbn [term with_term searchNew].
    split; [intros H; discriminate H|].
    split; [intros _; apply (selectAll_loop_same_line clock (term s))|].
    split; [intros _; reflexivity|apply selectAll_loop_pressed].
  - (* actDeselectAll *)
    destruct (multi (term s)) eqn:Em; [|kept].
    got. cbn [flow_state]. split; [posted|].
    rewrite req_term, req_searchNew. cbn [term with_term searchNew].
    split; [intros H; discriminate H|].
    split; [intros _; apply (deselectAll_loop_same_line (term s))|].
    split; [intros _; reflexivity|apply deselectAll_loop_pressed].
  - (* actToggle *)
    destruct (multi (term s) && _) eqn:Em; [|kept].
    apply andb_prop in Em as [Em _].
    destruct (toggle clock s) as [s1|] eqn:E; [|discriminate].
    cbn [mbind option_bind]. got. cbn [flow_state].
    apply kept_of_keeps.
    eapply keeps_trans; [exact (toggle_keeps _ _ Em E)|apply keeps_req].
  - (* actToggleAll *)
    destruct (multi (term s)) eqn:Em; [|kept].
    destruct (toggleAll_loop clock (term s)) as [t1|] eqn:E; [|discriminate].
    cbn [mbind option_bind]. got. cbn [flow_state]. split; [posted|].
    rewrite req_term, req_searchNew. cbn [term with_term searchNew].
    split; [intros H; discriminate H|].
    split; [intros _; apply (toggleAll_loop_same_line clock _ _ E)|].
    split; [intros _; reflexivity|exact (toggleAll_loop_pressed _ _ E)].
  - (* actToggleDown *)
    destruct (multi (term s) && _) eqn:Em; [|kept].
    apply andb_prop in Em as [Em _].
    destruct (toggle clock s) as [s1|] eqn:E; [|discriminate].
    cbn [mbind option_bind]. got. cbn [flow_state].
    apply kept_of_keeps.
    eapply keeps_trans; [exact (toggle_keeps _ _ Em E)|].
    eapply keeps_trans; [|apply keeps_req].
    apply keeps_with_term; reflexivity.
  - (* actToggleUp *)
    destruct (multi (term s) && _) eqn:Em; [|kept].
    apply andb_prop in Em as [Em _].
    destruct (toggle clock s) as [s1|] eqn:E; [|discriminate].
    cbn [mbind option_bind]. got. cbn [flow_state].
    apply kept_of_keeps.
    eapply keeps_trans; [exact (toggle_keeps _ _ Em E)|].
    eapply keeps_trans; [|apply keeps_req].
    apply keeps_with_term; reflexivity.
  - (* actDown *) kept.
  - (* actUp *) kept.
  - (* actPageUp *) kept.
  - (* actPageDown *) kept.
  - (* actToggleSort *)
    got. cbn [flow_state]. split; [posted|]. cbn [term searchNew].
    split; [intros _; reflexivity|].
    split; [intros _; reflexivity|].
    split; [intros H; contradiction H; reflexivity|reflexivity].
  - (* actPreviousHistory *)
    destruct (history (term s)) as [h|]; [|kept].
    destruct (history_previous _) as [line h']. kept.
  - (* actNextHistory *)
    destruct (history (term s)) as [h|]; [|kept].
    destruct (history_next _) as [line h']. kept.
  - (* actExecute *)
    destruct (_ && _); [|kept]. bind_ok. kept.
Qed.


Lemma expect_scan_posts keys event s :
  posts_more s (expect_scan C keys event s) /\
  searchNew (expect_scan C keys event s) = searchNew s.
Proof.
  induction keys as [|key keys IH]; cbn [expect_scan].
  - split; [apply posts_more_same|]; reflexivity.
  - destruct (keyMatch C key event); [|exact IH].
    split; [posted|]. rewrite req_searchNew. reflexivity.
Qed.

(** The state a turn is in after the scan of the accept keys, and what
    it has in common with the state the turn began in. *)
Lemma turn_start t event :
  let s0 := mkLoopState t [reqPrompt] true [] [] in
  let s1 := expect_scan C (expect t) event s0 in
  posts_more s0 s1 /\ searchNew s1 = [] /\
  (exists p, term s1 = set_pressed p t) /\
  resolve C (term s1) event = resolve C t event.
Proof.
  cbv zeta.
  destruct (expect_scan_posts (expect t) event
              (mkLoopState t [reqPrompt] true [] [])) as [Hp Hs].
  destruct (expect_scan_term C (expect t) event
              (mkLoopState t [reqPrompt] true [] [])) as [p Hterm].
  cbn [term] in Hterm.
  split; [exact Hp|]. split; [exact Hs|]. split; [exists p; exact Hterm|].
  apply resolve_keymap. rewrite Hterm. reflexivity.
Qed.

(** X14.  With multi-select off, no turn of the loop changes the selection:
    whatever the event and the key map, the selections after the turn
    are those before it. *)
Theorem single_select_keeps_selection t event turn :
  multi t = false ->
  Loop_turn history_override history_previous history_next C MaxY clock
    regexp_Compile FindAllStringIndex FindStringIndex event t = Some turn ->
  selected (turn_term turn) = selected t.
Proof.
  intros Hm. unfold Loop_turn.
  destruct (turn_start t event) as (_ & _ & [p Hterm] & Hres).
  cbv zeta in Hterm, Hres. rewrite Hres.
  set (s1 := expect_scan C (expect t) event _) in *.
  destruct (resolve C t event) as [action mapkey].
  destruct (switch action mapkey event s1) as [flow|] eqn:E; [|discriminate].
  cbn [mbind option_bind].
  destruct (switch_keeps _ _ _ _ _ E) as (_ & Hsel & _).
  rewrite Hterm in Hsel. specialize (Hsel Hm). cbn [selected set_pressed] in Hsel.
  destruct flow as [s2|s2]; intros [= <-]; exact Hsel.
Qed.

(** X15.  A turn that posts anything posts [reqPrompt] first, and it ends the
    loop exactly when [reqClose] or [reqQuit] is among the requests it
    posts. *)
Theorem turn_ends_loop_iff_close_or_quit t event turn :
  Loop_turn history_override history_previous history_next C MaxY clock
    regexp_Compile FindAllStringIndex FindStringIndex event t = Some turn ->
  turn_posted turn = [] \/
  (exists rest, turn_posted turn = reqPrompt :: rest) /\
  (turn_looping turn = false <->
     reqClose ∈ turn_posted turn \/ reqQuit ∈ turn_posted turn).
Proof.
  unfold Loop_turn.
  destruct (turn_start t event) as (Hp & _ & _ & Hres).
  cbv zeta in Hp, Hres. rewrite Hres.
  set (s1 := expect_scan C (expect t) event _) in *.
  destruct (resolve C t event) as [action mapkey].
  destruct (switch action mapkey event s1) as [flow|] eqn:E; [|discriminate].
  cbn [mbind option_bind].
  destruct (switch_keeps _ _ _ _ _ E) as (Hp2 & _).
  pose proof (posts_more_trans _ _ _ Hp Hp2) as (evts & He & Hl).
  cbn [events looping] in He, Hl.
  destruct flow as [s2|s2]; intros [= <-]; cbn [turn_posted turn_looping];
    [|left; reflexivity].
  right. cbn [flow_state] in He, Hl. rewrite He, Hl. cbn [app andb].
  split; [eexists; reflexivity|].
  clear. induction evts as [|e evts IH]; cbn [forallb].
  - split; [discriminate|]. intros [H|H];
      apply elem_of_cons in H as [H|H]; try discriminate H; inversion H.
  - unfold closes at 1. rewrite andb_false_iff, IH.
    destruct (bool_decide_reflect (e = reqClose \/ e = reqQuit)) as [He|He];
      cbn [negb].
    + split; [intros _|intros _; left; reflexivity].
      destruct He as [-> | ->]; [left|right];
        apply elem_of_cons; right; apply elem_of_cons; left; reflexivity.
    + split.
      * intros [H|H]; [discriminate H|].
        destruct H as [H|H]; apply elem_of_cons in H as [H|H];
          try discriminate H; [left|right];
          apply elem_of_cons; right; apply elem_of_cons; right; exact H.
      * intros H. right.
        destruct H as [H|H]; apply elem_of_cons in H as [H|H];
          try discriminate H;
          apply elem_of_cons in H as [H|H];
          try (exfalso; apply He; auto; fail);
          [left|right]; apply elem_of_cons; right; exact H.
Qed.

(** X17.  Only an action that edits the query makes a turn ask for a new
    search: on every other action but the toggle of the sort order the
    query after the turn is the query before it and no search notice is
    set. *)
Theorem only_edits_restart_search t event turn :
  edits_query (resolve C t event).1 = false ->
  (resolve C t event).1 <> actToggleSort ->
  Loop_turn history_override history_previous history_next C MaxY clock
    regexp_Compile FindAllStringIndex FindStringIndex event t = Some turn ->
  input (turn_term turn) = input t /\ turn_searchNew turn = [].
Proof.
  intros Hq Hts. unfold Loop_turn.
  destruct (turn_start t event) as (_ & Hsn & [p Hterm] & Hres).
  cbv zeta in Hsn, Hterm, Hres. rewrite Hres.
  set (s1 := expect_scan C (expect t) event _) in *.
  destruct (resolve C t event) as [action mapkey]. cbn [fst] in Hq, Hts.
  destruct (switch action mapkey event s1) as [flow|] eqn:E; [|discriminate].
  cbn [mbind option_bind].
  destruct (switch_keeps _ _ _ _ _ E) as (_ & _ & Hin & Hsearch & _).
  specialize (Hin Hq). specialize (Hsearch Hts).
  rewrite Hterm in Hin. cbn [input set_pressed] in Hin.
  rewrite Hsn in Hsearch.
  destruct flow as [s2|s2]; intros [= <-];
    cbn [turn_term turn_searchNew flow_state] in *.
  - rewrite Hin. rewrite bool_decide_eq_true_2 by reflexivity.
    cbn [negb]. split; [reflexivity|exact Hsearch].
  - split; [exact Hin|exact Hsearch].
Qed.


(** How the [switch] is left depends on the action alone: the invalid
    key and the toggle of the sort order skip the rest of the turn, every
    other action falls out of the [switch]. *)
Lemma switch_flow_kind action mapkey event s flow :
  switch action mapkey event s = Some flow ->
  flow = (if skips_turn action then Continue (flow_state flow)
          else Fall (flow_state flow)).
Proof.
  intros H. destruct action; unfold Loop_switch in H; cbn [skips_turn];
    repeat match type of H with
           | context [mbind _ ?o] =>
               destruct o eqn:?; cbn [mbind option_bind] in H
           | context [if ?b then _ else _] => destruct b eqn:?
           | context [match ?x with _ => _ end] => destruct x eqn:?
           end;
    try discriminate H; injection H as <-; reflexivity.
Qed.

Lemma expect_scan_first keys1 key keys2 event s :
  Forall (fun k => keyMatch C k event = false) keys1 ->
  keyMatch C key event = true ->
  expect_scan C (keys1 ++ key :: keys2) event s
  = req [reqClose] (with_term (set_pressed key (term s)) s).
Proof.
  intros Hno Hyes. induction Hno as [|k keys1 Hk _ IH]; cbn [app expect_scan].
  - rewrite Hyes. reflexivity.
  - rewrite Hk. exact IH.
Qed.

(** X16.  An accept key ends the loop whatever it is bound to.  When the
    event matches an accept key, the first such key is recorded as the
    key pressed and the loop stops after the turn; the action the key
    map gives the event is carried out all the same.  If that action
    falls out of the [switch], [reqClose] is among the requests posted;
    if it is the invalid key or the toggle of the sort order, the turn
    posts nothing at all. *)
Theorem accept_key_ends_loop t event keys1 key keys2 turn :
  expect t = keys1 ++ key :: keys2 ->
  Forall (fun k => keyMatch C k event = false) keys1 ->
  keyMatch C key event = true ->
  Loop_turn history_override history_previous history_next C MaxY clock
    regexp_Compile FindAllStringIndex FindStringIndex event t = Some turn ->
  pressed (turn_term turn) = key /\ turn_looping turn = false /\
  (if skips_turn (resolve C t event).1 then turn_posted turn = []
   else reqClose ∈ turn_posted turn).
Proof.
  intros Hexp Hno Hyes. unfold Loop_turn.
  destruct (turn_start t event) as (_ & _ & _ & Hres).
  cbv zeta in Hres. rewrite Hres. rewrite Hexp.
  rewrite (expect_scan_first keys1 key keys2 event _ Hno Hyes).
  set (s1 := req [reqClose] _).
  destruct (resolve C t event) as [action mapkey]. cbn [fst].
  destruct (switch action mapkey event s1) as [flow|] eqn:E; [|discriminate].
  cbn [mbind option_bind].
  destruct (switch_keeps _ _ _ _ _ E) as ((evts & He & Hl) & _ & _ & _ & Hpr).
  pose proof (switch_flow_kind _ _ _ _ _ E) as Hkind.
  subst s1. rewrite req_term in Hpr. cbn [term with_term pressed set_pressed] in Hpr.
  cbn [req fold_left events looping with_term] in He, Hl.
  rewrite bool_decide_eq_true_2 in Hl by (left; reflexivity).
  cbn [andb] in Hl.
  destruct (skips_turn action); rewrite Hkind; intros [= <-];
    cbn [turn_term turn_looping turn_posted].
  - repeat split; assumption.
  - split; [exact Hpr|]. split; [exact Hl|]. rewrite He.
    apply elem_of_app. left. apply elem_of_cons. right.
    apply elem_of_cons. left. reflexivity.
Qed.

End TurnFrame.

Lemma single_select_keeps_selection_witness :
  exists turn,
    example_turn (key_event KEY_TOGGLE) (list_term false []) = Some turn /\
    selected (turn_term turn) = selected (list_term false []).
Proof.
  destruct (example_turn (key_event KEY_TOGGLE) (list_term false []))
    as [turn|] eqn:E.
  - exists turn. split; [reflexivity|].
    exact (single_select_keeps_selection no_override no_line no_line
             example_keys 24 Z.of_nat GoRegexp.Compile
             GoRegexp.FindAllStringIndex GoRegexp.FindStringIndex
             (list_term false []) (key_event KEY_TOGGLE) turn eq_refl E).
  - vm_compute in E. discriminate E.
Defined.

Lemma turn_ends_loop_iff_close_or_quit_witness :
  exists turn,
    example_turn (click_event 21 0 true) (list_term false []) = Some turn /\
    (turn_posted turn = [] \/
     (exists rest, turn_posted turn = reqPrompt :: rest) /\
     (turn_looping turn = false <->
        reqClose ∈ turn_posted turn \/ reqQuit ∈ turn_posted turn)).
Proof.
  destruct (example_turn (click_event 21 0 true) (list_term false []))
    as [turn|] eqn:E.
  - exists turn. split; [reflexivity|].
    exact (turn_ends_loop_iff_close_or_quit no_override no_line no_line
             example_keys 24 Z.of_nat GoRegexp.Compile
             GoRegexp.FindAllStringIndex GoRegexp.FindStringIndex
             (list_term false []) (click_event 21 0 true) turn E).
  - vm_compute in E. discriminate E.
Defined.

Lemma only_edits_restart_search_witness :
  exists turn,
    example_turn (key_event KEY_UP) (list_term true []) = Some turn /\
    input (turn_term turn) = input (list_term true []) /\
    turn_searchNew turn = [].
Proof.
  destruct (example_turn (key_event KEY_UP) (list_term true []))
    as [turn|] eqn:E.
  - exists turn. split; [reflexivity|].
    apply (only_edits_restart_search no_override no_line no_line
             example_keys 24 Z.of_nat GoRegexp.Compile
             GoRegexp.FindAllStringIndex GoRegexp.FindStringIndex
             (list_term true []) (key_event KEY_UP) turn);
      [vm_compute; reflexivity|vm_compute; discriminate|exact E].
  - vm_compute in E. discriminate E.
Defined.

Lemma accept_key_ends_loop_witness :
  exists turn,
    example_turn (key_event KEY_TOGGLE_SORT)
      (list_term false [KEY_UP; KEY_TOGGLE_SORT; KEY_TOGGLE]) = Some turn /\
    pressed (turn_term turn) = KEY_TOGGLE_SORT /\
    turn_looping turn = false /\
    (if skips_turn
          (resolve example_keys
             (list_term false [KEY_UP; KEY_TOGGLE_SORT; KEY_TOGGLE])
             (key_event KEY_TOGGLE_SORT)).1
     then turn_posted turn = []
     else reqClose ∈ turn_posted turn).
Proof.
  destruct (example_turn (key_event KEY_TOGGLE_SORT)
              (list_term false [KEY_UP; KEY_TOGGLE_SORT; KEY_TOGGLE]))
    as [turn|] eqn:E.
  - exists turn. split; [reflexivity|].
    apply (accept_key_ends_loop no_override no_line no_line
             example_keys 24 Z.of_nat GoRegexp.Compile
             GoRegexp.FindAllStringIndex GoRegexp.FindStringIndex
             (list_term false [KEY_UP; KEY_TOGGLE_SORT; KEY_TOGGLE])
             (key_event KEY_TOGGLE_SORT) [KEY_UP] KEY_TOGGLE_SORT
             [KEY_TOGGLE] turn);
      [reflexivity|repeat constructor|reflexivity|exact E].
  - vm_compute in E. discriminate E.
Defined.

(** ** A click on the prompt line *)

Section PromptClick.

Context {History : Type}.
Variable RuneWidth : rune -> Z.
Variable MaxY : Z.
Variable clock : nat -> Z.
Implicit Types t : @Terminal History.
Implicit Types s : @LoopState History.

Lemma displayWidth_loop_narrow runes l :
  narrow RuneWidth runes -> 0 <= l -> small (l + len runes) ->
  displayWidth_loop RuneWidth l runes = l + len runes.
Proof.
  unfold small. intros Hn. revert l.
  induction Hn as [|r runes [Hr Hw] _ IH]; intros l Hl Hs.
  - unfold len. simpl. lia.
  - rewrite len_cons in *. pose proof (len_nonneg runes).
    cbn [displayWidth_loop]. unfold runeWidth.
    destruct (r =? TAB) eqn:E; [lia|]. rewrite Hw.
    rewrite add_fits by lia. rewrite IH by lia. lia.
Qed.

Lemma narrow_take n runes :
  narrow RuneWidth runes -> narrow RuneWidth (take n runes).
Proof. apply Forall_take. Qed.

(** X8.  A click on the prompt line, at a column inside a query whose runes
    take one column each, puts the cursor where the click was: the
    column [placeCursor] then moves to is the column of the click. *)
Theorem click_on_query_places_cursor event s :
  let me := ev_Mouse event in
  let t := term s in
  let plen := Z.of_nat (String.length (prompt t)) in
  me_S me = 0 -> me_Double me = false -> me_Down me = true ->
  me_Y me = (if reverse t then 0 else MaxY - 1) ->
  plen <= me_X me <= plen + len (input t) ->
  narrow RuneWidth (input t) ->
  small MaxY -> small plen -> small (len (input t)) ->
  exists s',
    mouse MaxY clock event s = Some s' /\
    cx (term s') = me_X me - plen /\
    placeCursor RuneWidth (term s') = Some (me_X me).
Proof.
  cbv zeta. intros HS HD HDn HY HX Hnar HM Hp Hlen.
  unfold mouse. cbv zeta. rewrite HS, HD, HDn, HY. cbn [Z.eqb negb].
  unfold small in *.
  set (plen := Z.of_nat (String.length (prompt (term s)))) in *.
  pose proof (len_nonneg (input (term s))) as Hn0.
  rewrite (sub_fits (me_X _)) by lia.
  rewrite (Constrain_id (me_X (ev_Mouse event) - plen)) by lia.
  set (my := if negb (reverse (term s)) then _ else _).
  assert (Hmy : my = 0).
  { subst my. destruct (reverse (term s)); cbn [negb]; [reflexivity|].
    rewrite (sub_fits MaxY) by lia. rewrite sub_fits by lia. lia. }
  rewrite Hmy. cbn [Z.eqb andb].
  destruct (me_X (ev_Mouse event) - plen >=? 0) eqn:E; [|lia].
  eexists. split; [reflexivity|]. cbn [term with_term cx set_cx].
  split; [reflexivity|].
  unfold placeCursor. cbn [input cx set_cx prompt].
  rewrite slice_to_Some by lia. cbn [mbind option_bind].
  unfold displayWidth.
  rewrite displayWidth_loop_narrow;
    [|apply narrow_take; exact Hnar|lia|unfold small; rewrite len_take by lia; lia].
  rewrite len_take by lia. fold plen. rewrite add_fits by lia.
  f_equal. lia.
Qed.

End PromptClick.

Lemma click_on_query_places_cursor_witness :
  exists s',
    mouse 24 Z.of_nat (click_event 23 4 false)
      (turn_state (list_term false [])) = Some s' /\
    cx (term s') = 4 - 2 /\
    placeCursor RuneWidth_table (term s') = Some 4.
Proof.
  apply (click_on_query_places_cursor RuneWidth_table 24 Z.of_nat
           (click_event 23 4 false) (turn_state (list_term false [])));
    try reflexivity.
  - vm_compute. split; discriminate.
  - repeat (constructor; [split; [discriminate|reflexivity]|]). constructor.
  - vm_compute. split; discriminate.
  - vm_compute. split; discriminate.
  - vm_compute. split; discriminate.
Defined.

(** ** Editing the query: insertion, deletion, kill and yank *)

Section Editing.

Context {History : Type}.
Variable history_override : History -> list rune -> History.
Variable history_previous : History -> list rune * History.
Variable history_next : History -> list rune * History.
Variable MaxY : Z.
Variable clock : nat -> Z.
Context {Regexp : Type}.
Variable regexp_Compile : string -> option Regexp.
Variable FindAllStringIndex : Regexp -> list Z -> list (Z * Z).
Variable FindStringIndex : Regexp -> list Z -> option (Z * Z).

Implicit Types t : @Terminal History.
Implicit Types s : @LoopState History.

Abbreviation edit_switch :=
  (Loop_switch history_override history_previous history_next MaxY clock
     regexp_Compile FindAllStringIndex FindStringIndex).

Lemma slice_from_inv {A} (l : list A) lo x :
  slice_from l lo = Some x ->
  0 <= lo <= len l /\ x = drop (Z.to_nat lo) l.
Proof.
  unfold slice_from. destruct (_ && _) eqn:E; [|discriminate].
  intros [= <-]. apply andb_prop in E as [E1 E2]. split; [lia|reflexivity].
Qed.

Lemma slice_to_inv {A} (l : list A) hi x :
  slice_to l hi = Some x ->
  0 <= hi <= len l /\ x = take (Z.to_nat hi) l.
Proof.
  unfold slice_to. destruct (_ && _) eqn:E; [|discriminate].
  intros [= <-]. apply andb_prop in E as [E1 E2]. split; [lia|reflexivity].
Qed.

Lemma slice_inv {A} (l : list A) lo hi x :
  slice l lo hi = Some x ->
  0 <= lo /\ lo <= hi /\ hi <= len l /\
  x = take (Z.to_nat (hi - lo)) (drop (Z.to_nat lo) l).
Proof.
  unfold slice. destruct (_ && _) eqn:E; [|discriminate].
  intros [= <-]. apply andb_prop in E as [E E3].
  apply andb_prop in E as [E1 E2]. repeat split; lia.
Qed.

(** A list cut at [a] and at [b], in three pieces. *)
Lemma three_pieces {A} (l : list A) a b :
  0 <= a -> a <= b -> b <= len l ->
  take (Z.to_nat a) l
    ++ take (Z.to_nat (b - a)) (drop (Z.to_nat a) l)
    ++ drop (Z.to_nat b) l = l.
Proof.
  intros Ha Hab Hb.
  rewrite <- (take_drop (Z.to_nat a) l) at 4. f_equal.
  rewrite <- (take_drop (Z.to_nat (b - a)) (drop (Z.to_nat a) l)) at 2.
  f_equal. rewrite drop_drop. f_equal. lia.
Qed.

(** X19.  A typed rune goes in at the cursor, which moves past it; the
    backward-delete-char action that follows takes it out again and
    leaves the query and the cursor as they were. *)
Theorem rune_then_backward_delete_char s mapkey event mapkey' event' :
  cursor_ok (term s) -> small (len (input (term s))) ->
  exists s1 s2,
    edit_switch actRune mapkey event s = Some (Fall s1) /\
    input (term s1) =
      take (Z.to_nat (cx (term s))) (input (term s))
        ++ ev_Char event :: drop (Z.to_nat (cx (term s))) (input (term s)) /\
    cx (term s1) = cx (term s) + 1 /\
    edit_switch actBackwardDeleteChar mapkey' event' s1 = Some (Fall s2) /\
    input (term s2) = input (term s) /\ cx (term s2) = cx (term s).
Proof.
  unfold cursor_ok, small. intros Hok Hlen.
  set (l := input (term s)) in *. set (c := cx (term s)) in *.
  unfold Loop_switch at 1. fold l c.
  rewrite slice_to_Some, slice_from_Some by lia. cbn [mbind option_bind].
  unfold copySlice. cbn [input cx set_input]. fold c.
  rewrite add_fits by lia.
  eexists. eexists. split; [reflexivity|].
  cbn [term with_term input cx set_cx set_input].
  split; [rewrite <- app_assoc; reflexivity|]. split; [reflexivity|].
  unfold Loop_switch. cbn [term with_term input cx set_cx set_input].
  destruct (c + 1 >? 0) eqn:E; [|lia].
  replace (c + 1 -% 1) with c by (rewrite sub_fits by lia; lia).
  assert (Hl1 : len ((take (Z.to_nat c) l ++ [ev_Char event])
                       ++ drop (Z.to_nat c) l) = len l + 1).
  { rewrite !len_app, len_take, len_drop by lia.
    change (len [ev_Char event]) with 1. lia. }
  rewrite slice_to_Some, slice_from_Some by lia. cbn [mbind option_bind].
  split; [reflexivity|].
  cbn [term with_term input cx set_cx set_input].
  split; [|reflexivity].
  assert (Hlt : length (take (Z.to_nat c) l) = Z.to_nat c).
  { rewrite length_take. unfold len in *. lia. }
  rewrite <- app_assoc.
  rewrite take_app_length' by (symmetry; exact Hlt).
  replace (Z.to_nat (c + 1)) with (length (take (Z.to_nat c) l) + 1)%nat
    by lia.
  rewrite drop_app_add. cbn [drop app]. rewrite drop_0. apply take_drop.
Qed.


(** [yank] on a state whose query is [A ++ B] with the cursor between
    the two. *)
Lemma yank_between s mapkey event (A B : list rune) :
  input (term s) = A ++ B -> cx (term s) = len A ->
  small (len A + len B) -> small (len (yanked (term s))) ->
  exists s2,
    edit_switch actYank mapkey event s = Some (Fall s2) /\
    input (term s2) = A ++ yanked (term s) ++ B /\
    cx (term s2) = len A + len (yanked (term s)).
Proof.
  intros Hin Hcx Hs Hy.
  pose proof (len_nonneg A) as HA. pose proof (len_nonneg B) as HB.
  assert (Hl : len (input (term s)) = len A + len B)
    by (rewrite Hin; apply len_app).
  rewrite (switch_yank history_override history_previous history_next MaxY
             clock regexp_Compile FindAllStringIndex FindStringIndex
             s mapkey event);
    [|rewrite Hl, Hcx; lia|rewrite Hl; exact Hs|exact Hy].
  eexists. split; [reflexivity|].
  cbn [term with_term input cx set_cx set_input].
  rewrite Hin, Hcx. split; [|reflexivity].
  assert (HlenA : Z.to_nat (len A) = length A) by (unfold len; lia).
  rewrite HlenA, take_app_length, drop_app_length, <- app_assoc.
  reflexivity.
Qed.

(** What a kill leaves when it changes the query: the query was
    [A ++ M ++ B], it is now [A ++ B] with the cursor after [A], and
    the yank buffer holds [M]. *)
Lemma kill_cuts action mapkey event s s1 :
  is_kill action = true ->
  cursor_ok (term s) -> small (len (input (term s))) ->
  edit_switch action mapkey event s = Some (Fall s1) ->
  input (term s1) <> input (term s) ->
  exists A M B,
    input (term s) = A ++ M ++ B /\ input (term s1) = A ++ B /\
    yanked (term s1) = M /\ cx (term s1) = len A.
Proof.
  unfold cursor_ok, small. intros Hk Hok Hlen.
  set (l := input (term s)) in *. set (c := cx (term s)) in *.
  destruct action; try discriminate Hk; clear Hk; unfold Loop_switch;
    fold l c.
  - (* actKillLine *)
    destruct (c <? len l) eqn:E; [|intros [= <-] H; contradiction H; reflexivity].
    rewrite slice_from_Some by lia. cbn [mbind option_bind].
    cbn [input cx set_yanked]. fold l c.
    rewrite slice_to_Some by lia. cbn [mbind option_bind].
    intros [= <-] _. cbn [term with_term input set_input yanked set_yanked cx].
    fold c.
    exists (take (Z.to_nat c) l), (drop (Z.to_nat c) l), [].
    rewrite !app_nil_r, take_drop, len_take by lia. repeat split.
  - (* actKillWord *)
    rewrite slice_from_Some by lia. cbn [mbind option_bind].
    set (ncx := c +% _ +% 1).
    destruct (ncx >? c) eqn:E; [|intros [= <-] H; contradiction H; reflexivity].
    destruct (slice l c ncx) as [cut|] eqn:Ec; [|discriminate].
    apply slice_inv in Ec as (H0 & H1 & H2 & ->).
    cbn [mbind option_bind]. cbn [input cx set_yanked]. fold l c.
    rewrite slice_to_Some, slice_from_Some by lia. cbn [mbind option_bind].
    intros [= <-] _. cbn [term with_term input set_input yanked set_yanked cx].
    fold c.
    exists (take (Z.to_nat c) l),
      (take (Z.to_nat (ncx - c)) (drop (Z.to_nat c) l)),
      (drop (Z.to_nat ncx) l).
    rewrite three_pieces, len_take by lia. repeat split.
  - (* actUnixLineDiscard *)
    destruct (c >? 0) eqn:E; [|intros [= <-] H; contradiction H; reflexivity].
    rewrite slice_to_Some by lia. cbn [mbind option_bind].
    cbn [input cx set_yanked]. fold l c.
    rewrite slice_from_Some by lia. cbn [mbind option_bind].
    intros [= <-] _.
    cbn [term with_term input set_input yanked set_yanked cx set_cx].
    exists [], (take (Z.to_nat c) l), (drop (Z.to_nat c) l).
    cbn [app]. rewrite take_drop. repeat split.
  - (* actUnixWordRubout *)
    destruct (c >? 0) eqn:E; [|intros [= <-] H; contradiction H; reflexivity].
    unfold rubout. fold l c.
    rewrite slice_from_Some, slice_to_Some by lia. cbn [mbind option_bind].
    cbn [input cx set_cx]. fold l.
    set (c' := _ +% 1).
    destruct (slice l c' c) as [cut|] eqn:Ec; [|discriminate].
    apply slice_inv in Ec as (H0 & H1 & H2 & ->).
    cbn [mbind option_bind]. cbn [input cx set_yanked set_cx]. fold l.
    rewrite slice_to_Some by lia. cbn [mbind option_bind].
    intros [= <-] _.
    cbn [term with_term input set_input yanked set_yanked cx set_cx].
    exists (take (Z.to_nat c') l),
      (take (Z.to_nat (c - c')) (drop (Z.to_nat c') l)),
      (drop (Z.to_nat c) l).
    rewrite three_pieces, len_take by lia. repeat split.
  - (* actBackwardKillWord *)
    destruct (c >? 0) eqn:E; [|intros [= <-] H; contradiction H; reflexivity].
    unfold rubout. fold l c.
    rewrite slice_from_Some, slice_to_Some by lia. cbn [mbind option_bind].
    cbn [input cx set_cx]. fold l.
    set (c' := _ +% 1).
    destruct (slice l c' c) as [cut|] eqn:Ec; [|discriminate].
    apply slice_inv in Ec as (H0 & H1 & H2 & ->).
    cbn [mbind option_bind]. cbn [input cx set_yanked set_cx]. fold l.
    rewrite slice_to_Some by lia. cbn [mbind option_bind].
    intros [= <-] _.
    cbn [term with_term input set_input yanked set_yanked cx set_cx].
    exists (take (Z.to_nat c') l),
      (take (Z.to_nat (c - c')) (drop (Z.to_nat c') l)),
      (drop (Z.to_nat c) l).
    rewrite three_pieces, len_take by lia. repeat split.
Qed.

(** X20.  Kill and yank undo each other.  The kill-line and
    unix-line-discard actions always return; and whenever one of the
    five kill actions returns with the query changed, the yank action
    that follows returns too and puts the query back as it was, with the
    cursor after the text put back. *)
Theorem kill_then_yank_restores_query action mapkey event mapkey' event' s :
  is_kill action = true ->
  cursor_ok (term s) -> small (len (input (term s))) ->
  (action = actKillLine \/ action = actUnixLineDiscard ->
     exists s1, edit_switch action mapkey event s = Some (Fall s1)) /\
  (forall s1,
     edit_switch action mapkey event s = Some (Fall s1) ->
     input (term s1) <> input (term s) ->
     exists s2,
       edit_switch actYank mapkey' event' s1 = Some (Fall s2) /\
       input (term s2) = input (term s) /\
       cx (term s2) = cx (term s1) + len (yanked (term s1))).
Proof.
  intros Hk Hok Hlen. split.
  - unfold cursor_ok, small in *. intros [-> | ->]; unfold Loop_switch.
    + destruct (_ <? _) eqn:E; [|eexists; reflexivity].
      rewrite slice_from_Some by lia. cbn [mbind option_bind].
      cbn [input cx set_yanked].
      rewrite slice_to_Some by lia. eexists; reflexivity.
    + destruct (_ >? _) eqn:E; [|eexists; reflexivity].
      rewrite slice_to_Some by lia. cbn [mbind option_bind].
      cbn [input cx set_yanked].
      rewrite slice_from_Some by lia. eexists; reflexivity.
  - intros s1 Hs1 Hne.
    destruct (kill_cuts _ _ _ _ _ Hk Hok Hlen Hs1 Hne)
      as (A & M & B & Hin & Hin1 & Hy & Hcx).
    assert (Hl : len (input (term s)) = len A + len M + len B)
      by (rewrite Hin, !len_app; lia).
    pose proof (len_nonneg A). pose proof (len_nonneg B).
    pose proof (len_nonneg M). unfold small in *.
    destruct (yank_between s1 mapkey' event' A B Hin1 Hcx)
      as (s2 & E & Hin2 & Hcx2);
      [unfold small; lia|rewrite Hy; unfold small; lia|].
    exists s2. split; [exact E|].
    rewrite Hin2, Hcx2, Hy, Hin, Hcx. split; reflexivity.
Qed.

End Editing.

Lemma rune_then_backward_delete_char_witness :
  exists s1 s2,
    Loop_switch no_override no_line no_line 24 Z.of_nat GoRegexp.Compile
      GoRegexp.FindAllStringIndex GoRegexp.FindStringIndex
      actRune 0 (rune_event 120) (turn_state (list_term false []))
      = Some (Fall s1) /\
    input (term s1) =
      take (Z.to_nat (cx (term (turn_state (list_term false [])))))
        (input (term (turn_state (list_term false []))))
        ++ ev_Char (rune_event 120)
           :: drop (Z.to_nat (cx (term (turn_state (list_term false [])))))
                (input (term (turn_state (list_term false [])))) /\
    cx (term s1) = cx (term (turn_state (list_term false []))) + 1 /\
    Loop_switch no_override no_line no_line 24 Z.of_nat GoRegexp.Compile
      GoRegexp.FindAllStringIndex GoRegexp.FindStringIndex
      actBackwardDeleteChar 0 (key_event KEY_BACKWARD_DELETE_CHAR) s1
      = Some (Fall s2) /\
    input (term s2) = input (term (turn_state (list_term false []))) /\
    cx (term s2) = cx (term (turn_state (list_term false []))).
Proof.
  apply rune_then_backward_delete_char; vm_compute; split; discriminate.
Defined.

Lemma kill_then_yank_restores_query_witness :
  let s := turn_state (list_term false []) in
  let go :=
    Loop_switch no_override no_line no_line 24 Z.of_nat GoRegexp.Compile
      GoRegexp.FindAllStringIndex GoRegexp.FindStringIndex in
  (actKillLine = actKillLine \/ actKillLine = actUnixLineDiscard ->
     exists s1,
       go actKillLine KEY_KILL_LINE (key_event KEY_KILL_LINE) s
       = Some (Fall s1)) /\
  (forall s1,
     go actKillLine KEY_KILL_LINE (key_event KEY_KILL_LINE) s
     = Some (Fall s1) ->
     input (term s1) <> input (term s) ->
     exists s2,
       go actYank KEY_YANK (key_event KEY_YANK) s1 = Some (Fall s2) /\
       input (term s2) = input (term s) /\
       cx (term s2) = cx (term s1) + len (yanked (term s1))).
Proof.
  intros s go.
  apply (kill_then_yank_restores_query no_override no_line no_line 24
           Z.of_nat GoRegexp.Compile GoRegexp.FindAllStringIndex
           GoRegexp.FindStringIndex actKillLine KEY_KILL_LINE
           (key_event KEY_KILL_LINE) KEY_YANK (key_event KEY_YANK) s).
  - reflexivity.
  - vm_compute. split; discriminate.
  - vm_compute. split; discriminate.
Defined.

(** ** Deselect-all and toggle-all *)

Section SelectAll.

Context {History : Type}.
Variable clock : nat -> Z.
Implicit Types t : @Terminal History.

Lemma deselect_fold_lookup (items : list Item) t k :
  let t' :=
    fold_left
      (fun t item => set_selected (delete (index item) (selected t)) t)
      items t in
  (k ∈ index <$> items -> selected t' !! k = None) /\
  (k ∉ index <$> items -> selected t' !! k = selected t !! k).
Proof.
  cbv zeta. revert t. induction items as [|item items IH]; intros t.
  - split; [intros H; inversion H|reflexivity].
  - cbn [fold_left]. rewrite fmap_cons.
    destruct (IH (set_selected (delete (index item) (selected t)) t))
      as [IH1 IH2].
    cbn [selected set_selected] in IH2.
    split.
    + intros Hin.
      destruct (decide (k ∈ index <$> items)) as [Hk|Hk]; [exact (IH1 Hk)|].
      rewrite (IH2 Hk).
      apply elem_of_cons in Hin as [-> | Hin]; [|contradiction].
      apply lookup_delete_eq.
    + intros Hout. apply not_elem_of_cons in Hout as [Hne Hout].
      rewrite (IH2 Hout). apply lookup_delete_ne. congruence.
Qed.

(** X21.  Deselect-all takes out of the selection exactly the items of the
    list on show: their keys are gone afterwards, and a selection whose
    item is not in the list stays as it was. *)
Theorem deselect_all_removes_listed t k :
  (k ∈ index <$> merger t -> selected (deselectAll_loop t) !! k = None) /\
  (k ∉ index <$> merger t ->
     selected (deselectAll_loop t) !! k = selected t !! k).
Proof. apply deselect_fold_lookup. Qed.

Lemma toggle_item_merger item t : merger (toggle_item clock item t) = merger t.
Proof.
  unfold toggle_item, selectItem.
  destruct (selected t !! index item); reflexivity.
Qed.

Lemma toggleY_item (i : nat) item t :
  merger t !! i = Some item ->
  toggleY clock (Z.of_nat i) t = Some (toggle_item clock item t).
Proof.
  intros H. unfold toggleY, Get, toggle_item.
  destruct (0 <=? Z.of_nat i) eqn:E; [|exfalso; apply Z.leb_gt in E; lia].
  rewrite Nat2Z.id, H. cbn [mbind option_bind].
  destruct (selectItem clock item t) as [fresh t1].
  destruct fresh; reflexivity.
Qed.

Lemma toggle_item_lookup item t k :
  selected (toggle_item clock item t) !! k =
  if decide (k = index item)
  then match selected t !! k with
       | None => Some (mkSelectedItem (clock (ticks t)) (asString item))
       | Some _ => None
       end
  else selected t !! k.
Proof.
  unfold toggle_item, selectItem.
  destruct (decide (k = index item)) as [-> | Hne].
  - destruct (selected t !! index item) eqn:E; cbn [negb selected set_selected].
    + apply lookup_delete_eq.
    + apply lookup_insert_eq.
  - destruct (selected t !! index item) eqn:E; cbn [negb selected set_selected].
    + apply lookup_delete_ne. congruence.
    + apply lookup_insert_ne. congruence.
Qed.

Lemma toggle_fold_seq (items pre : list Item) t :
  merger t = pre ++ items ->
  fold_left (fun ot (i : nat) => t ← ot; toggleY clock (Z.of_nat i) t)
    (seq (length pre) (length items)) (Some t)
  = Some (fold_left (fun t item => toggle_item clock item t) items t).
Proof.
  revert pre t. induction items as [|item items IH]; intros pre t Hm.
  - reflexivity.
  - cbn [length seq fold_left mbind option_bind].
    rewrite (toggleY_item (length pre) item t)
      by (rewrite Hm; apply list_lookup_middle; reflexivity).
    specialize (IH (pre ++ [item]) (toggle_item clock item t)).
    rewrite length_app in IH. cbn [length] in IH.
    replace (length pre + 1)%nat with (S (length pre)) in IH by lia.
    apply IH. rewrite toggle_item_merger, Hm, <- app_assoc. reflexivity.
Qed.

Lemma toggle_fold_lookup (items : list Item) t k :
  NoDup (index <$> items) ->
  let t' := fold_left (fun t item => toggle_item clock item t) items t in
  (k ∈ index <$> items ->
     (is_Some (selected t' !! k) <-> selected t !! k = None)) /\
  (k ∉ index <$> items -> selected t' !! k = selected t !! k).
Proof.
  cbv zeta. revert t. induction items as [|item items IH]; intros t Hnd.
  - split; [intros H; inversion H|reflexivity].
  - rewrite fmap_cons in *. apply NoDup_cons in Hnd as [Hfirst Hnd].
    cbn [fold_left].
    destruct (IH (toggle_item clock item t) Hnd) as [IH1 IH2].
    pose proof (toggle_item_lookup item t k) as Hl.
    split.
    + intros Hin. apply elem_of_cons in Hin as [-> | Hin].
      * rewrite (IH2 Hfirst), Hl.
        destruct (decide (index item = index item)) as [_|Hne];
          [|contradiction Hne; reflexivity].
        destruct (selected t !! index item); split;
          intros H; try reflexivity; try discriminate H;
          try (eexists; reflexivity).
        destruct H as [v Hv]. discriminate Hv.
      * rewrite (IH1 Hin), Hl.
        destruct (decide (k = index item)) as [-> | Hne];
          [contradiction|reflexivity].
    + intros Hout. apply not_elem_of_cons in Hout as [Hne Hout].
      rewrite (IH2 Hout), Hl.
      destruct (decide (k = index item)); [contradiction|reflexivity].
Qed.

(** X22.  Toggle-all never fails, and on a list whose items have distinct
    keys it inverts the selection over the list: a listed item is
    selected afterwards exactly if it was not before, and a selection
    whose item is not in the list stays as it was. *)
Theorem toggle_all_inverts_listed t :
  NoDup (index <$> merger t) ->
  exists t',
    toggleAll_loop clock t = Some t' /\
    forall k,
      (k ∈ index <$> merger t ->
         (is_Some (selected t' !! k) <-> selected t !! k = None)) /\
      (k ∉ index <$> merger t -> selected t' !! k = selected t !! k).
Proof.
  intros Hnd. unfold toggleAll_loop.
  pose proof (toggle_fold_seq (merger t) [] t eq_refl) as H.
  cbn [length] in H. rewrite H.
  eexists. split; [reflexivity|]. intros k.
  apply toggle_fold_lookup. exact Hnd.
Qed.

End SelectAll.

Lemma toggle_all_inverts_listed_witness :
  exists t',
    toggleAll_loop Z.of_nat selection_term = Some t' /\
    forall k,
      (k ∈ index <$> merger selection_term ->
         (is_Some (selected t' !! k) <-> selected selection_term !! k = None))
      /\
      (k ∉ index <$> merger selection_term ->
         selected t' !! k = selected selection_term !! k).
Proof.
  apply toggle_all_inverts_listed.
  apply (bool_decide_unpack _). vm_compute. exact I.
Defined.

(** ** Tabs, and the text that is painted *)

Section TabFacts.

Variable RuneWidth : rune -> Z.
Hypothesis RuneWidth_range : forall r, 0 <= RuneWidth r <= 2.
Hypothesis RuneWidth_space : RuneWidth SPACE = 1.

(** X23.  A tab takes the column to the next multiple of eight: from a column
    that is not negative it is between one and eight columns wide. *)
Theorem tab_reaches_next_stop (prefixWidth : Z) :
  0 <= prefixWidth <= 4611686018427387904 ->
  1 <= runeWidth RuneWidth TAB prefixWidth <= 8 /\
  (prefixWidth + runeWidth RuneWidth TAB prefixWidth) mod 8 = 0.
Proof.
  unfold runeWidth. intros H0. cbn [Z.eqb TAB Pos.eqb].
  unfold GoInt.rem. rewrite Z.rem_mod_nonneg by lia.
  pose proof (Z.mod_pos_bound prefixWidth 8 ltac:(lia)) as Hm.
  rewrite sub_fits by lia. split; [lia|].
  rewrite (Z.div_mod prefixWidth 8) at 1 by lia.
  replace (8 * (prefixWidth / 8) + prefixWidth mod 8 + (8 - prefixWidth mod 8))
    with ((prefixWidth / 8 + 1) * 8) by lia.
  apply Z.mod_mul. lia.
Qed.

(** The buffer that [processTabs] appends to is a prefix of its result. *)
Lemma processTabs_loop_buf runes strbuf l :
  processTabs_loop RuneWidth strbuf l runes =
  (strbuf ++ (processTabs_loop RuneWidth [] l runes).1,
   (processTabs_loop RuneWidth [] l runes).2).
Proof.
  revert strbuf l. induction runes as [|r runes IH]; intros strbuf l.
  - simpl. rewrite app_nil_r. reflexivity.
  - cbn [processTabs_loop].
    destruct (r =? TAB).
    + rewrite (IH (strbuf ++ _)), (IH ([] ++ _)). cbn [fst snd app].
      rewrite <- app_assoc. reflexivity.
    + rewrite (IH (strbuf ++ _)), (IH ([] ++ _)). cbn [fst snd app].
      rewrite <- app_assoc. reflexivity.
Qed.

Lemma processTabs_loop_app a b strbuf l :
  processTabs_loop RuneWidth strbuf l (a ++ b) =
  processTabs_loop RuneWidth (processTabs_loop RuneWidth strbuf l a).1
    (processTabs_loop RuneWidth strbuf l a).2 b.
Proof.
  revert strbuf l. induction a as [|r a IH]; intros strbuf l.
  - reflexivity.
  - cbn [app processTabs_loop]. destruct (r =? TAB); apply IH.
Qed.

(** [processTabs] on a text in two parts: the second part starts at the
    column the first part ends on. *)
Lemma processTabs_app a b l :
  processTabs RuneWidth (a ++ b) l =
  ((processTabs RuneWidth a l).1
     ++ (processTabs RuneWidth b (processTabs RuneWidth a l).2).1,
   (processTabs RuneWidth b (processTabs RuneWidth a l).2).2).
Proof.
  unfold processTabs. rewrite processTabs_loop_app.
  apply processTabs_loop_buf.
Qed.

Lemma displayWidth_loop_spaces (n : nat) l :
  0 <= l -> l + Z.of_nat n <= 4611686018427387904 ->
  displayWidth_loop RuneWidth l (replicate n SPACE) = l + Z.of_nat n.
Proof.
  revert l. induction n as [|n IH]; intros l Hl Hs.
  - simpl. lia.
  - cbn [replicate displayWidth_loop]. unfold runeWidth.
    cbn [Z.eqb SPACE TAB Pos.eqb]. rewrite RuneWidth_space.
    rewrite add_fits by lia. rewrite IH by lia. lia.
Qed.

Lemma processTabs_loop_spec runes l :
  0 <= l -> l + 8 * len runes <= 4611686018427387904 ->
  let res := processTabs_loop RuneWidth [] l runes in
  (TAB ∉ res.1) /\
  res.2 = displayWidth_loop RuneWidth l runes /\
  displayWidth_loop RuneWidth l res.1 = res.2.
Proof.
  cbv zeta. revert l. induction runes as [|r runes IH]; intros l Hl Hb.
  - simpl. split; [intros H; inversion H|]. split; reflexivity.
  - rewrite len_cons in Hb. pose proof (len_nonneg runes) as Hn.
    cbn [processTabs_loop displayWidth_loop].
    pose proof (runeWidth_range RuneWidth RuneWidth_range r l ltac:(lia))
      as Hw.
    set (w := runeWidth RuneWidth r l) in *.
    rewrite add_fits by lia.
    destruct (IH (l + w) ltac:(lia) ltac:(lia)) as (I1 & I2 & I3).
    destruct (r =? TAB) eqn:E.
    + rewrite processTabs_loop_buf. cbn [app fst snd].
      assert (Hw1 : 1 <= w).
      { apply Z.eqb_eq in E. subst r w. unfold runeWidth.
        cbn [Z.eqb TAB Pos.eqb]. unfold GoInt.rem.
        rewrite Z.rem_mod_nonneg by lia.
        pose proof (Z.mod_pos_bound l 8 ltac:(lia)).
        rewrite sub_fits by lia. lia. }
      split; [|split; [exact I2|]].
      * intros Hin. apply elem_of_app in Hin as [Hin|Hin]; [|exact (I1 Hin)].
        apply elem_of_replicate in Hin as [Hin _]. discriminate Hin.
      * rewrite displayWidth_loop_app, displayWidth_loop_spaces;
          [|lia|lia].
        rewrite Z2Nat.id by lia. exact I3.
    + rewrite processTabs_loop_buf. cbn [app fst snd].
      split; [|split; [exact I2|]].
      * intros Hin. apply elem_of_cons in Hin as [Hin|Hin]; [|exact (I1 Hin)].
        apply Z.eqb_neq in E. congruence.
      * cbn [displayWidth_loop]. fold w. rewrite add_fits by lia. exact I3.
Qed.

(** X25.  [processTabs] writes a string without tabs that takes the width of
    the text: started on the same column, with a space taking one
    column, it ends on the column the text ends on, which is the column
    [processTabs] returns. *)
Theorem processTabs_expands_tabs runes prefixWidth :
  0 <= prefixWidth ->
  prefixWidth + 8 * len runes <= 4611686018427387904 ->
  (TAB ∉ (processTabs RuneWidth runes prefixWidth).1) /\
  (processTabs RuneWidth runes prefixWidth).2
    = displayWidth_loop RuneWidth prefixWidth runes /\
  displayWidth_loop RuneWidth prefixWidth
    (processTabs RuneWidth runes prefixWidth).1
    = displayWidth_loop RuneWidth prefixWidth runes.
Proof.
  intros H0 Hb.
  destruct (processTabs_loop_spec runes prefixWidth H0 Hb) as (H1 & H2 & H3).
  unfold processTabs. split; [exact H1|]. split; [exact H2|].
  rewrite H3. exact H2.
Qed.

End TabFacts.

Section PaintFacts.

Variable RuneWidth : rune -> Z.

Lemma take_two_steps {A} (l : list A) i j :
  0 <= i -> i <= j ->
  take (Z.to_nat j) l
  = take (Z.to_nat i) l ++ take (Z.to_nat (j - i)) (drop (Z.to_nat i) l).
Proof.
  intros Hi Hij.
  replace (Z.to_nat j) with (Z.to_nat i + Z.to_nat (j - i))%nat by lia.
  symmetry. apply take_take_drop.
Qed.

Abbreviation painted := (painted_up_to RuneWidth).

Lemma painted_step text i j pw out col bold :
  0 <= i -> i <= j -> j <= len text ->
  painted text i pw out ->
  let piece := take (Z.to_nat (j - i)) (drop (Z.to_nat i) text) in
  painted text j (processTabs RuneWidth piece pw).2
    (out ++ [mkCPrint col bold i j (processTabs RuneWidth piece pw).1]).
Proof.
  intros Hi Hij Hj [H1 H2]. cbv zeta. unfold painted_up_to.
  rewrite (take_two_steps text i j Hi Hij), processTabs_app.
  cbn [fst snd]. rewrite <- H2, <- H1.
  rewrite fmap_app, concat_app. cbn [fmap list_fmap cp_str concat].
  rewrite app_nil_r. split; reflexivity.
Qed.

Lemma printHighlighted_loop_tiles text col1 bold offs :
  Forall ordered offs ->
  forall index prefixWidth out,
    0 <= index <= len text ->
    painted text index prefixWidth out ->
    exists index' prefixWidth' out',
      printHighlighted_loop RuneWidth text col1 bold (len text) offs
        index prefixWidth out = Some (index', prefixWidth', out') /\
      0 <= index' <= len text /\
      painted text index' prefixWidth' out'.
Proof.
  induction 1 as [|o offs Ho _ IH]; intros index pw out Hidx Hp.
  - eexists _, _, _. split; [reflexivity|]. split; assumption.
  - cbn [printHighlighted_loop].
    pose proof (Constrain32_range (co_offset o).1 index (len text)
                  ltac:(lia)) as Hb.
    pose proof (Constrain32_range (co_offset o).2 index (len text)
                  ltac:(lia)) as He.
    pose proof (Constrain32_mono (co_offset o).1 (co_offset o).2 index
                  (len text) ltac:(lia) Ho) as Hbe.
    set (b := Util.Constrain32 (co_offset o).1 index (len text)) in *.
    set (e := Util.Constrain32 (co_offset o).2 index (len text)) in *.
    rewrite (slice_Some text index b) by lia. cbn [mbind option_bind].
    pose proof (painted_step text index b pw out col1 bold
                  ltac:(lia) ltac:(lia) ltac:(lia) Hp) as Hp1.
    cbv zeta in Hp1.
    destruct (processTabs RuneWidth _ pw) as [substr pw1].
    cbn [fst snd] in Hp1.
    destruct (b <? e) eqn:E.
    + rewrite (slice_Some text b e) by lia. cbn [mbind option_bind].
      pose proof (painted_step text b e pw1 _ (co_color o) (co_bold o)
                    ltac:(lia) ltac:(lia) ltac:(lia) Hp1) as Hp2.
      cbv zeta in Hp2.
      destruct (processTabs RuneWidth _ pw1) as [substr2 pw2].
      cbn [fst snd] in Hp2. cbn [mbind option_bind].
      destruct (e >=? len text).
      * eexists _, _, _. split; [reflexivity|]. split; [lia|exact Hp2].
      * apply IH; [lia|exact Hp2].
    + cbn [mbind option_bind].
      assert (Hbe' : b = e) by lia. rewrite <- Hbe'.
      destruct (b >=? len text).
      * eexists _, _, _. split; [reflexivity|]. split; [lia|exact Hp1].
      * apply IH; [lia|exact Hp1].
Qed.

(** X26.  For offsets whose ends are not before their starts, the strings
    handed to [CPrint], put end to end, are the tab expansion of the
    whole text: every rune is painted, once and in order, whatever the
    offsets overlap or leave out. *)
Theorem printHighlighted_paints_whole_text text col1 bold offs :
  len text <= 2147483647 -> Forall ordered offs ->
  exists out,
    printHighlighted_paint RuneWidth text col1 bold offs = Some out /\
    concat (cp_str <$> out) = (processTabs RuneWidth text 0).1.
Proof.
  intros Hlen Hord. unfold printHighlighted_paint.
  pose proof (len_nonneg text) as H0.
  rewrite to_int32_fits by lia.
  destruct (printHighlighted_loop_tiles text col1 bold offs Hord 0 0 []
              ltac:(lia))
    as (index & pw & out & E & Hidx & Hp).
  { split; reflexivity. }
  rewrite E. cbn [mbind option_bind].
  destruct (index <? len text) eqn:El.
  - rewrite slice_from_Some by lia. cbn [mbind option_bind].
    pose proof (painted_step text index (len text) pw out col1 bold
                  ltac:(lia) ltac:(lia) ltac:(lia) Hp) as [Hp1 _].
    cbv zeta in Hp1.
    assert (Hall : take (Z.to_nat (len text)) text = text)
      by (apply take_ge; unfold len; lia).
    assert (Hrest : take (Z.to_nat (len text - index))
                      (drop (Z.to_nat index) text)
                    = drop (Z.to_nat index) text).
    { apply take_ge. rewrite length_drop. unfold len. lia. }
    rewrite Hall, Hrest in Hp1.
    destruct (processTabs RuneWidth _ pw) as [substr pw1].
    eexists. split; [reflexivity|]. exact Hp1.
  - eexists. split; [reflexivity|].
    destruct Hp as [Hp _]. rewrite Hp.
    rewrite take_ge by (unfold len in *; lia). reflexivity.
Qed.

End PaintFacts.

Lemma tab_reaches_next_stop_witness :
  1 <= runeWidth RuneWidth_table TAB 3 <= 8 /\
  (3 + runeWidth RuneWidth_table TAB 3) mod 8 = 0.
Proof.
  apply tab_reaches_next_stop. vm_compute. split; discriminate.
Defined.

Lemma processTabs_expands_tabs_witness :
  (TAB ∉ (processTabs RuneWidth_table (text tab_item) 2).1) /\
  (processTabs RuneWidth_table (text tab_item) 2).2
    = displayWidth_loop RuneWidth_table 2 (text tab_item) /\
  displayWidth_loop RuneWidth_table 2
    (processTabs RuneWidth_table (text tab_item) 2).1
    = displayWidth_loop RuneWidth_table 2 (text tab_item).
Proof.
  apply processTabs_expands_tabs.
  - exact RuneWidth_table_range.
  - reflexivity.
  - vm_compute. discriminate.
  - vm_compute. discriminate.
Defined.

(** An offset that ends before it starts has a part of the text
    painted twice. *)
Lemma printHighlighted_paint_repeats :
  fmap (M := option) (fmap (M := list) cp_str)
    (printHighlighted_paint RuneWidth_table (runes_of "abcdef") 0 false
       [mkColorOffset (3, 1) 1 false])
  = Some [runes_of "abc"; runes_of "bcdef"].
Proof. reflexivity. Qed.

Lemma printHighlighted_paints_whole_text_witness :
  exists out,
    printHighlighted_paint RuneWidth_table (text tab_item) 0 false
      (match_colorOffsets tab_item 1 false false) = Some out /\
    concat (cp_str <$> out) = (processTabs RuneWidth_table (text tab_item) 0).1.
Proof.
  apply printHighlighted_paints_whole_text.
  - vm_compute. discriminate.
  - repeat constructor. vm_compute. discriminate.
Defined.

(** ** [trimRight], [trimLeft] and [displayWidthWithLimit] as a whole *)

Section TrimFacts.

Variable RuneWidth : rune -> Z.
Hypothesis RuneWidth_range : forall r, 0 <= RuneWidth r <= 2.

Lemma trimRight_loop_count runes width rest :
  small (len runes) ->
  forall idx l,
    (idx + length rest <= length runes)%nat ->
    (trimRight_loop RuneWidth runes width idx l rest).2
    = len runes - len (trimRight_loop RuneWidth runes width idx l rest).1.
Proof.
  unfold small. intros Hs. induction rest as [|r rest IH]; intros idx l Hidx.
  - simpl. lia.
  - cbn [trimRight_loop]. cbn [length] in Hidx.
    destruct ((Z.of_nat idx >? 0) && (l +% runeWidth RuneWidth r l >? width)).
    + cbn [fst snd]. pose proof (len_nonneg runes).
      unfold len in *. rewrite length_take. rewrite sub_fits by lia. lia.
    + apply IH. lia.
Qed.

(** X27.  [trimRight] keeps the longest prefix of the text that fits: what it
    returns is a prefix, together with the number of runes it cut off;
    if the first rune fits, the prefix is no wider than [width]; and no
    prefix that is no wider than [width] is longer. *)
Theorem trimRight_longest_fitting_prefix runes width :
  8 * len runes <= 4611686018427387904 -> 0 <= width ->
  first_fits RuneWidth runes width ->
  exists k : nat,
    (k <= length runes)%nat /\
    trimRight RuneWidth runes width = (take k runes, len runes - Z.of_nat k) /\
    displayWidth RuneWidth (take k runes) <= width /\
    forall n : nat,
      (n <= length runes)%nat ->
      displayWidth RuneWidth (take n runes) <= width -> (n <= k)%nat.
Proof.
  intros Hb Hw Hfirst. pose proof (len_nonneg runes) as H0.
  destruct (trimRight_prefix RuneWidth runes width) as [k0 Hk0].
  pose proof (trimRight_width RuneWidth RuneWidth_range runes width Hb Hw
                Hfirst) as Hwidth.
  pose proof (trimRight_loop_count runes width runes ltac:(unfold small; lia)
                0%nat 0 ltac:(cbn [Nat.add]; lia)) as Hcount.
  fold (trimRight RuneWidth runes width) in Hcount.
  exists (length (trimRight RuneWidth runes width).1).
  assert (Htake : take (length (trimRight RuneWidth runes width).1) runes
                  = (trimRight RuneWidth runes width).1).
  { rewrite Hk0, length_take.
    destruct (decide (k0 <= length runes)%nat).
    - rewrite Nat.min_l by lia. reflexivity.
    - rewrite Nat.min_r by lia. rewrite !take_ge by lia. reflexivity. }
  split; [rewrite Hk0, length_take; lia|].
  split.
  - rewrite Htake. destruct (trimRight RuneWidth runes width) as [kept cut].
    cbn [fst snd] in *. rewrite Hcount. reflexivity.
  - rewrite Htake. split; [exact Hwidth|].
    intros n Hn Hfit.
    exact (trimRight_keeps RuneWidth RuneWidth_range runes width n Hb Hn Hfit).
Qed.

Lemma displayWidthWithLimit_loop_verdict prefixWidth limit runes :
  0 <= prefixWidth ->
  forall l,
    0 <= l -> l <= limit ->
    l + prefixWidth + 8 * len runes <= 4611686018427387904 ->
    let res := displayWidthWithLimit_loop RuneWidth prefixWidth limit l runes in
    let full := displayWidth_loop RuneWidth (l + prefixWidth) runes
                - prefixWidth in
    (res <= limit -> res = full) /\ (limit < res -> limit < full).
Proof.
  intros Hp. cbv zeta. induction runes as [|r runes IH]; intros l Hl Hlim Hb.
  - simpl. split; intros; lia.
  - rewrite len_cons in Hb. pose proof (len_nonneg runes) as Hn.
    cbn [displayWidthWithLimit_loop displayWidth_loop].
    rewrite (add_fits l prefixWidth) by lia.
    pose proof (runeWidth_range RuneWidth RuneWidth_range r (l + prefixWidth)
                  ltac:(lia)) as Hw.
    set (w := runeWidth RuneWidth r (l + prefixWidth)) in *.
    rewrite !add_fits by lia.
    destruct (l + w >? limit) eqn:E.
    + split; [lia|]. intros _.
      pose proof (displayWidth_loop_range RuneWidth RuneWidth_range runes
                    (l + prefixWidth + w) ltac:(lia) ltac:(lia)).
      lia.
    + replace (l + prefixWidth + w) with (l + w + prefixWidth) by lia.
      apply IH; lia.
Qed.

(** X29.  The early exit of [displayWidthWithLimit] does not change what it
    is asked for: its result is above the limit exactly when the width
    of the text after the prefix is, and when it is not above the limit
    it is that width. *)
Theorem displayWidthWithLimit_verdict runes prefixWidth limit :
  0 <= prefixWidth -> 0 <= limit ->
  prefixWidth + 8 * len runes <= 4611686018427387904 ->
  let full := displayWidth_loop RuneWidth prefixWidth runes - prefixWidth in
  (displayWidthWithLimit RuneWidth runes prefixWidth limit > limit
     <-> full > limit) /\
  (displayWidthWithLimit RuneWidth runes prefixWidth limit <= limit ->
     displayWidthWithLimit RuneWidth runes prefixWidth limit = full).
Proof.
  intros Hp Hl Hb. cbv zeta. unfold displayWidthWithLimit.
  destruct (displayWidthWithLimit_loop_verdict prefixWidth limit runes Hp 0
              ltac:(lia) Hl ltac:(lia)) as [H1 H2].
  cbv zeta in H1, H2. change (0 + prefixWidth) with prefixWidth in *.
  split; [|exact H1]. split; intros H; lia.
Qed.


Lemma trimLeft_loop_spec width runes :
  0 <= width ->
  forall trimmed cw,
    0 <= trimmed -> trimmed + len runes <= 2147483647 ->
    exists k : nat,
      (k <= length runes)%nat /\
      trimLeft_loop RuneWidth width runes trimmed cw
        = (drop k runes, trimmed + Z.of_nat k) /\
      (cw <= width \/ runes = [] -> k = 0%nat) /\
      (cw > width -> runes <> [] ->
         (1 <= k)%nat /\
         displayWidth_loop RuneWidth 2 (drop k runes) - 2 <= width /\
         forall j : nat,
           (1 <= j < k)%nat ->
           displayWidth_loop RuneWidth 2 (drop j runes) - 2 > width).
Proof.
  intros Hw. induction runes as [|r runes IH]; intros trimmed cw Ht Hb.
  - exists 0%nat. cbn [trimLeft_loop length]. rewrite drop_0.
    split; [lia|]. split; [f_equal; lia|]. split; [reflexivity|].
    intros _ H. contradiction H. reflexivity.
  - rewrite len_cons in Hb. pose proof (len_nonneg runes) as Hn.
    cbn [trimLeft_loop].
    destruct (cw >? width) eqn:E.
    + rewrite add32_fits by lia.
      set (cw' := displayWidthWithLimit RuneWidth runes 2 width).
      destruct (IH (trimmed + 1) cw' ltac:(lia) ltac:(lia))
        as (k & Hk & Hres & Hzero & Hpos).
      destruct (displayWidthWithLimit_loop_verdict 2 width runes ltac:(lia) 0
                  ltac:(lia) Hw ltac:(lia)) as [V1 V2].
      cbv zeta in V1, V2. change (0 + 2) with 2 in V1, V2.
      fold (displayWidthWithLimit RuneWidth runes 2 width) in V1, V2.
      fold cw' in V1, V2.
      exists (S k). cbn [drop length].
      split; [lia|]. split; [rewrite Hres; f_equal; lia|].
      split; [intros [H|H]; [lia|discriminate H]|].
      intros _ _. split; [lia|].
      destruct (decide (cw' <= width)) as [Hfit|Hnofit].
      * rewrite (Hzero (or_introl Hfit)), drop_0.
        split; [rewrite <- (V1 Hfit); exact Hfit|].
        intros j Hj. lia.
      * assert (Hne : runes <> []).
        { intros ->. subst cw'. cbn in Hnofit. lia. }
        destruct (Hpos ltac:(lia) Hne) as (Hk1 & Hfit & Hmin).
        split; [exact Hfit|].
        intros j Hj. destruct j as [|j]; [lia|]. cbn [drop].
        destruct j as [|j].
        -- rewrite drop_0. specialize (V2 ltac:(lia)). lia.
        -- apply Hmin. lia.
    + exists 0%nat. rewrite drop_0. cbn [length].
      split; [lia|]. split; [f_equal; lia|]. split; [reflexivity|].
      intros H. lia.
Qed.

(** X28.  [trimLeft] cuts as little as it can off the front.  What it returns
    is the text without its first [k] runes, and [k]; no rune is cut
    from a text that is no wider than [width]; from a wider one at least
    one is cut, what is left fits in [width] columns when it starts on
    column two, behind the ellipsis, and nothing shorter that was cut
    would have. *)
Theorem trimLeft_shortest_cut runes width :
  0 <= width -> len runes <= 2147483647 ->
  exists k : nat,
    (k <= length runes)%nat /\
    trimLeft RuneWidth runes width = (drop k runes, Z.of_nat k) /\
    (displayWidth RuneWidth runes <= width -> k = 0%nat) /\
    (displayWidth RuneWidth runes > width ->
       (1 <= k)%nat /\
       displayWidth_loop RuneWidth 2 (drop k runes) - 2 <= width /\
       forall j : nat,
         (1 <= j < k)%nat ->
         displayWidth_loop RuneWidth 2 (drop j runes) - 2 > width).
Proof.
  intros Hw Hb. unfold trimLeft.
  destruct (trimLeft_loop_spec width runes Hw 0 (displayWidth RuneWidth runes)
              ltac:(lia) ltac:(lia)) as (k & Hk & Hres & Hzero & Hpos).
  exists k. split; [exact Hk|]. split; [rewrite Hres; f_equal|].
  split; [intros H; apply Hzero; left; exact H|].
  intros H. apply Hpos; [exact H|].
  intros ->. cbn in H. lia.
Qed.

End TrimFacts.

Lemma trimRight_longest_fitting_prefix_witness :
  exists k : nat,
    (k <= length (text alphabet_item))%nat /\
    trimRight RuneWidth_table (text alphabet_item) 10
      = (take k (text alphabet_item),
         len (text alphabet_item) - Z.of_nat k) /\
    displayWidth RuneWidth_table (take k (text alphabet_item)) <= 10 /\
    forall n : nat,
      (n <= length (text alphabet_item))%nat ->
      displayWidth RuneWidth_table (take n (text alphabet_item)) <= 10 ->
      (n <= k)%nat.
Proof.
  apply (trimRight_longest_fitting_prefix RuneWidth_table
           RuneWidth_table_range).
  - vm_compute. discriminate.
  - vm_compute. discriminate.
  - vm_compute. discriminate.
Defined.

Lemma displayWidthWithLimit_verdict_witness :
  let full := displayWidth_loop RuneWidth_table 2 (text wide_item) - 2 in
  (displayWidthWithLimit RuneWidth_table (text wide_item) 2 5 > 5
     <-> full > 5) /\
  (displayWidthWithLimit RuneWidth_table (text wide_item) 2 5 <= 5 ->
     displayWidthWithLimit RuneWidth_table (text wide_item) 2 5 = full).
Proof.
  apply (displayWidthWithLimit_verdict RuneWidth_table RuneWidth_table_range).
  - vm_compute. discriminate.
  - vm_compute. discriminate.
  - vm_compute. discriminate.
Defined.

Lemma trimLeft_shortest_cut_witness :
  exists k : nat,
    (k <= length (text alphabet_item))%nat /\
    trimLeft RuneWidth_table (text alphabet_item) 10
      = (drop k (text alphabet_item), Z.of_nat k) /\
    (displayWidth RuneWidth_table (text alphabet_item) <= 10 -> k = 0%nat) /\
    (displayWidth RuneWidth_table (text alphabet_item) > 10 ->
       (1 <= k)%nat /\
       displayWidth_loop RuneWidth_table 2 (drop k (text alphabet_item)) - 2
         <= 10 /\
       forall j : nat,
         (1 <= j < k)%nat ->
         displayWidth_loop RuneWidth_table 2 (drop j (text alphabet_item)) - 2
           > 10).
Proof.
  apply (trimLeft_shortest_cut RuneWidth_table RuneWidth_table_range).
  - vm_compute. discriminate.
  - vm_compute. discriminate.
Defined.

(** ** The rows of the list *)

Section PaintList.

Context {History : Type}.
Variable RuneWidth : rune -> Z.
Variable P : ColorPairs.
Variable MaxX MaxY : Z.
Variable colorOffsets : Item -> Z -> bool -> bool -> list colorOffset.
Variable clock : nat -> Z.

Implicit Types t : @Terminal History.
Implicit Types s : @LoopState History.

Abbreviation printItem' := (printItem RuneWidth P MaxX colorOffsets).
Abbreviation printList_row' :=
  (printList_row RuneWidth P MaxX MaxY colorOffsets).
Abbreviation printList' := (printList RuneWidth P MaxX MaxY colorOffsets).

(** [printHighlighted] returns whenever the match offsets of the item
    end inside its text. *)
Lemma printHighlighted_returns hscroll item bold col1 col2 current :
  paintable item ->
  is_Some (printHighlighted RuneWidth hscroll MaxX colorOffsets item bold
             col1 col2 current).
Proof.
  intros [Hmaxe Hlen]. unfold printHighlighted.
  set (offs := colorOffsets item col2 bold current). clearbody offs.
  pose proof (maxe_of_nonneg (offsets item)) as Hm0.
  pose proof (len_nonneg (text item)) as Hl0.
  assert (Hover : exists text' offs',
             printHighlighted_overflow RuneWidth hscroll MaxX item offs
             = Some (text', offs') /\ len text' <= len (text item) + 4).
  { unfold printHighlighted_overflow. cbv zeta.
    destruct (trimRight_prefix RuneWidth (text item) (MaxX -% 3 -% 2))
      as [k Hk].
    assert (Hright : len ((trimRight RuneWidth (text item) (MaxX -% 3 -% 2)).1
                          ++ dots) <= len (text item) + 4).
    { rewrite len_app, Hk. change (len dots) with 2.
      unfold len. rewrite length_take. lia. }
    destruct (_ >? _); [|eexists _, _; split; [reflexivity|lia]].
    destruct hscroll; [|eexists _, _; split; [reflexivity|exact Hright]].
    rewrite slice_to_Some by lia. cbn [mbind option_bind].
    destruct (_ <=? _); [eexists _, _; split; [reflexivity|exact Hright]|].
    set (text1 := if _ <? _ then _ else _).
    assert (Ht1 : len text1 <= len (text item) + 2).
    { subst text1. destruct (_ <? _); [|lia].
      rewrite len_app. change (len dots) with 2.
      unfold len. rewrite length_take. lia. }
    destruct (trimLeft_drop RuneWidth text1 (MaxX -% 3 -% 2) ltac:(lia))
      as (k' & _ & Hd & _).
    destruct (trimLeft RuneWidth text1 _) as [text2 diff]. cbn [fst] in Hd.
    eexists _, _. split; [reflexivity|].
    rewrite len_app, Hd. change (len dots) with 2.
    unfold len in *. rewrite length_drop. lia. }
  destruct Hover as (text' & offs' & E & Hlen'). rewrite E.
  cbn [mbind option_bind].
  destruct (printHighlighted_paint_within RuneWidth text' col1 bold offs'
              ltac:(lia)) as (out & Eo & _).
  rewrite Eo. eexists; reflexivity.
Qed.

Lemma printItem_returns t item current :
  paintable item -> is_Some (printItem' t item current).
Proof.
  intros Hp. unfold printItem. destruct current.
  - destruct (printHighlighted_returns (hscroll t) item true (ColCurrent P)
                (ColCurrentMatch P) true Hp) as [body E].
    rewrite E. eexists; reflexivity.
  - destruct (printHighlighted_returns (hscroll t) item false 0
                (ColMatch P) false Hp) as [body E].
    rewrite E. eexists; reflexivity.
Qed.


Lemma Get_Some t (i : Z) :
  0 <= i < Length t -> is_Some (Get t i).
Proof.
  intros H. unfold Get. destruct (0 <=? i) eqn:E; [|lia].
  apply lookup_lt_is_Some. unfold Length, len in H. lia.
Qed.

Lemma Get_paintable t (i : Z) item :
  Forall paintable (merger t) -> Get t i = Some item -> paintable item.
Proof.
  intros Hall. unfold Get. destruct (0 <=? i); [|discriminate].
  intros H. exact (proj1 (Forall_lookup _ _) Hall _ _ H).
Qed.

(** What a row holds, read off [printList_row]. *)
Lemma printList_row_inv t (i : nat) row :
  0 <= offset t -> small (offset t) -> small (Length t) -> small (cy t) ->
  small (Z.of_nat i) ->
  printList_row' t (Length t -% offset t) (Z.of_nat i) = Some row ->
  row_move row
    = move MaxY t (Z.of_nat i + (if inlineInfo t then 1 else 2)) 0 true /\
  match row_item row with
  | Some (item, current, _) =>
      Get t (offset t + Z.of_nat i) = Some item /\
      (current = true <-> cy t = offset t + Z.of_nat i)
  | None => Length t <= offset t + Z.of_nat i
  end.
Proof.
  unfold small. intros Ho Hos Hls Hcs His. unfold printList_row. cbv zeta.
  assert (Hline : (if inlineInfo t then Z.of_nat i +% 1 else Z.of_nat i +% 2)
                  = Z.of_nat i + (if inlineInfo t then 1 else 2)).
  { destruct (inlineInfo t); rewrite add_fits by lia; reflexivity. }
  rewrite Hline.
  rewrite (sub_fits (Length t)) by lia.
  rewrite (add_fits (Z.of_nat i)) by lia.
  rewrite (sub_fits (cy t)) by lia.
  replace (Z.of_nat i + offset t) with (offset t + Z.of_nat i) by lia.
  destruct (Z.of_nat i <? Length t - offset t) eqn:E.
  - destruct (Get t (offset t + Z.of_nat i)) as [item|]; [|discriminate].
    cbn [mbind option_bind].
    destruct (printItem' t item _) as [body|]; [|discriminate].
    cbn [mbind option_bind]. intros [= <-]. cbn [row_move row_item].
    split; [reflexivity|]. split; [reflexivity|].
    rewrite Z.eqb_eq. lia.
  - intros [= <-]. cbn [row_move row_item]. split; [reflexivity|]. lia.
Qed.

Lemma printList_row_returns t (i : nat) :
  0 <= offset t -> small (offset t) -> small (Length t) ->
  small (Z.of_nat i) -> Forall paintable (merger t) ->
  is_Some (printList_row' t (Length t -% offset t) (Z.of_nat i)).
Proof.
  unfold small. intros Ho Hos Hls His Hall. unfold printList_row. cbv zeta.
  rewrite (sub_fits (Length t)) by lia.
  rewrite (add_fits (Z.of_nat i) (offset t)) by lia.
  destruct (Z.of_nat i <? Length t - offset t) eqn:E;
    [|eexists; reflexivity].
  destruct (Get_Some t (Z.of_nat i + offset t) ltac:(lia)) as [item Hitem].
  rewrite Hitem. cbn [mbind option_bind].
  destruct (printItem_returns t item (Z.of_nat i =? cy t -% offset t)
              (Get_paintable _ _ _ Hall Hitem)) as [body Hbody].
  rewrite Hbody. eexists; reflexivity.
Qed.

(** X5.  [printList] shows the window on the list.  From a state whose
    scroll offset is neither negative nor past the cursor row, on a list
    of paintable items that is not empty, it returns; it paints one row
    for each row of the window; the row [i] holds the item at
    [offset + i] of the list if there is one and is blank if not; the
    item under the cursor is among the rows, and its row is the only one
    painted as current. *)
Theorem printList_shows_window t :
  1 <= Length t -> 1 <= maxItems MaxY t -> 0 <= offset t <= cy t ->
  small (cy t) -> small (offset t) -> small (Length t) ->
  small (maxItems MaxY t) ->
  Forall paintable (merger t) ->
  let t' := constrain MaxY t in
  exists rows,
    printList' t = Some (t', rows) /\
    length rows = Z.to_nat (maxItems MaxY t) /\
    (forall (i : nat) row,
       rows !! i = Some row ->
       match row_item row with
       | Some (item, current, _) =>
           Get t' (offset t' + Z.of_nat i) = Some item /\
           (current = true <-> cy t' = offset t' + Z.of_nat i)
       | None => Length t <= offset t' + Z.of_nat i
       end) /\
    (exists row item body,
       rows !! Z.to_nat (cy t' - offset t') = Some row /\
       row_item row = Some (item, true, body) /\
       Get t' (cy t') = Some item).
Proof.
  intros Hcount Hheight Hoff Hcy Hos Hls Hhs Hall. cbv zeta.
  destruct (constrain_cy_offset MaxY t Hcy Hos Hls Hhs) as [E1 E2].
  cbv zeta in E1, E2.
  pose proof (constrain_Length MaxY t) as HL.
  pose proof (constrain_maxItems MaxY t) as HM.
  assert (Hmerger : merger (constrain MaxY t) = merger t)
    by (rewrite constrain_frame; reflexivity).
  set (t' := constrain MaxY t) in *.
  assert (Hwin : 0 <= offset t' /\ offset t' <= cy t' /\
                 cy t' <= offset t' + (maxItems MaxY t - 1) /\
                 cy t' <= Length t - 1).
  { rewrite E1, E2. unfold small, Util.Constrain in *.
    repeat case_match; lia. }
  destruct Hwin as (Ho' & Hoc & Hch & Hcl).
  assert (Hos' : small (offset t')) by (unfold small in *; lia).
  assert (Hcs' : small (cy t')) by (unfold small in *; lia).
  assert (Hls' : small (Length t')) by (rewrite HL; exact Hls).
  assert (Hall' : Forall paintable (merger t')) by (rewrite Hmerger; exact Hall).
  unfold printList. fold t'. cbv zeta. rewrite HM.
  set (f := fun i : nat => printList_row' t' (Length t' -% offset t')
                             (Z.of_nat i)).
  assert (Hi : forall i : nat,
             (i < Z.to_nat (maxItems MaxY t))%nat -> small (Z.of_nat i))
    by (unfold small in *; intros; lia).
  assert (Hsome : is_Some (mapM f (seq 0 (Z.to_nat (maxItems MaxY t))))).
  { apply mapM_is_Some. apply Forall_forall. intros i Hin.
    apply elem_of_seq in Hin. unfold compose, f.
    apply printList_row_returns; auto. apply Hi. lia. }
  destruct Hsome as [rows Hrows]. rewrite Hrows. cbn [mbind option_bind].
  exists rows. split; [reflexivity|].
  apply mapM_Some in Hrows.
  pose proof (Forall2_length _ _ _ Hrows) as Hlen. rewrite length_seq in Hlen.
  split; [symmetry; exact Hlen|].
  assert (Hrow : forall (i : nat) row,
             rows !! i = Some row -> f i = Some row /\ small (Z.of_nat i)).
  { intros i row Hr.
    destruct (Forall2_lookup_r _ _ _ _ _ Hrows Hr) as (j & Hj & Hf).
    apply lookup_seq in Hj as [-> Hlt]. cbn [Nat.add] in Hf.
    split; [exact Hf|]. apply Hi. exact Hlt. }
  split.
  - intros i row Hr. destruct (Hrow i row Hr) as [Hf Hsi].
    destruct (printList_row_inv t' i row Ho' Hos' Hls' Hcs' Hsi Hf)
      as [_ Hitem].
    rewrite HL in Hitem. exact Hitem.
  - set (i := Z.to_nat (cy t' - offset t')).
    assert (Hilt : (i < length rows)%nat) by (subst i; lia).
    destruct (lookup_lt_is_Some_2 rows i Hilt) as [row Hr].
    destruct (Hrow i row Hr) as [Hf Hsi].
    destruct (printList_row_inv t' i row Ho' Hos' Hls' Hcs' Hsi Hf)
      as [_ Hitem].
    assert (Hio : offset t' + Z.of_nat i = cy t') by (subst i; lia).
    rewrite Hio in Hitem.
    destruct (row_item row) as [[[item current] body]|] eqn:Eitem.
    + destruct Hitem as [Hget Hcur].
      assert (current = true) as -> by (apply Hcur; reflexivity).
      exists row, item, body. repeat split; assumption.
    + rewrite HL in Hitem. lia.
Qed.


Lemma Get_inv t (i : Z) item :
  Get t i = Some item -> 0 <= i < Length t.
Proof.
  unfold Get. destruct (0 <=? i) eqn:E; [|discriminate].
  intros H. apply lookup_lt_Some in H. unfold Length, len. lia.
Qed.

(** X6.  A click on a painted row lands on the item painted there.  If
    [printList] has painted an item on a row, then a plain click on the
    screen row that [printList] moved to for it puts the cursor on that
    very item and asks for the list to be painted again. *)
Theorem click_hits_painted_item t s event rows (i : nat) row y x item
    current body :
  printList' t = Some (term s, rows) ->
  rows !! i = Some row ->
  row_move row = DMoveAndClear y x ->
  row_item row = Some (item, current, body) ->
  me_S (ev_Mouse event) = 0 -> me_Double (ev_Mouse event) = false ->
  me_Down (ev_Mouse event) = true -> me_Mod (ev_Mouse event) = false ->
  me_Y (ev_Mouse event) = y ->
  0 <= offset (term s) -> small (offset (term s)) ->
  small (cy (term s)) -> small (Length (term s)) -> small MaxY ->
  exists s',
    mouse MaxY clock event s = Some s' /\
    cy (term s') = offset (term s) + Z.of_nat i /\
    Get (term s') (cy (term s')) = Some item /\
    events s' = events s ++ [reqList].
Proof.
  intros Hprint Hr Hmove Hitem HS HD HDn HMod HY Ho Hos Hcs Hls HMs.
  unfold printList in Hprint. cbv zeta in Hprint.
  destruct (mapM _ _) as [rows'|] eqn:Hrows; [|discriminate].
  cbn [mbind option_bind] in Hprint.
  injection Hprint as Ht' ->. rewrite Ht' in Hrows.
  apply mapM_Some in Hrows.
  destruct (Forall2_lookup_r _ _ _ _ _ Hrows Hr) as (j & Hj & Hf).
  apply lookup_seq in Hj as [-> Hlt]. cbn [Nat.add] in Hf.
  assert (Hsi : small (Z.of_nat i)).
  { pose proof (len_nonneg (merger (term s))).
    destruct (row_item row) as [[[it cu] bo]|] eqn:Er; [|discriminate].
    unfold printList_row in Hf. cbv zeta in Hf.
    unfold small in *. rewrite (sub_fits (Length _)) in Hf by lia.
    destruct (Z.of_nat i <? _) eqn:E in Hf; [lia|].
    injection Hf as <-. discriminate Er. }
  destruct (printList_row_inv (term s) i row Ho Hos Hls Hcs Hsi Hf)
    as [Hmv Hit].
  rewrite Hitem in Hit. destruct Hit as [Hget _].
  pose proof (Get_inv _ _ _ Hget) as Hrange.
  rewrite Hmove in Hmv. unfold move in Hmv. cbv zeta in Hmv.
  injection Hmv as Hy _.
  unfold small in *.
  set (min := if inlineInfo (term s) then 1 else 2) in *.
  assert (Hmin : 1 <= min <= 2) by (subst min; destruct (inlineInfo _); lia).
  unfold mouse. cbv zeta. rewrite HS, HD, HDn, HMod, HY. cbn [Z.eqb negb].
  fold min.
  set (my := if negb (reverse (term s)) then MaxY -% y -% 1 else y).
  assert (Hmy : my = Z.of_nat i + min).
  { subst my. rewrite Hy. destruct (reverse (term s)); cbn [negb];
      [reflexivity|].
    rewrite (sub_fits MaxY (Z.of_nat i + min)) by lia.
    rewrite (sub_fits (MaxY - (Z.of_nat i + min)) 1) by lia.
    rewrite (sub_fits MaxY) by lia. rewrite sub_fits by lia. lia. }
  clearbody my. subst my.
  destruct (Z.of_nat i + min =? 0) eqn:E0; [lia|]. cbn [andb].
  destruct (Z.of_nat i + min >=? min) eqn:E1; [|lia].
  unfold vset. cbv zeta. cbn [cy set_cy].
  change (Length (set_cy _ (term s))) with (Length (term s)).
  rewrite (add_fits (offset (term s))) by lia.
  rewrite (sub_fits _ min) by lia.
  rewrite (sub_fits (Length (term s)) 1) by lia.
  replace (offset (term s) + (Z.of_nat i + min) - min)
    with (offset (term s) + Z.of_nat i) by lia.
  rewrite Constrain_id by lia. rewrite Z.eqb_refl.
  rewrite andb_false_r. cbn [mbind option_bind].
  eexists. split; [reflexivity|].
  rewrite req_term, req_events. cbn [term with_term events cy set_cy].
  split; [reflexivity|]. split; [exact Hget|reflexivity].
Qed.

End PaintList.

(** ** A new list from the matcher *)

Section Update.

Context {History : Type}.
Variable C : KeyCodes.
Variable MaxY : Z.
Variable range_selected : gmap Z selectedItem -> list selectedItem.
Variable sort_Sort :
  (selectedItem -> selectedItem -> bool) -> list selectedItem ->
  list selectedItem.
Implicit Types t : @Terminal History.



End Update.

Lemma printList_shows_window_witness :
  let t' := constrain 5 bottom_term in
  exists rows,
    printList RuneWidth_table example_colors 80 5 match_colorOffsets
      bottom_term = Some (t', rows) /\
    length rows = Z.to_nat (maxItems 5 bottom_term) /\
    (forall (i : nat) row,
       rows !! i = Some row ->
       match row_item row with
       | Some (item, current, _) =>
           Get t' (offset t' + Z.of_nat i) = Some item /\
           (current = true <-> cy t' = offset t' + Z.of_nat i)
       | None => Length bottom_term <= offset t' + Z.of_nat i
       end) /\
    (exists row item body,
       rows !! Z.to_nat (cy t' - offset t') = Some row /\
       row_item row = Some (item, true, body) /\
       Get t' (cy t') = Some item).
Proof.
  apply (printList_shows_window RuneWidth_table example_colors 80 5
           match_colorOffsets bottom_term).
  - vm_compute. discriminate.
  - vm_compute. discriminate.
  - vm_compute. split; discriminate.
  - vm_compute. split; discriminate.
  - vm_compute. split; discriminate.
  - vm_compute. split; discriminate.
  - vm_compute. split; discriminate.
  - repeat (constructor; [split; vm_compute; discriminate|]). constructor.
Defined.

Lemma click_hits_painted_item_witness :
  exists s',
    mouse 5 Z.of_nat (click_event 1 0 false)
      (turn_state (constrain 5 bottom_term)) = Some s' /\
    cy (term s')
      = offset (term (turn_state (constrain 5 bottom_term))) + Z.of_nat 1 /\
    Get (term s') (cy (term s'))
      = Some (mkItem 3 (runes_of "item") [] (runes_of "item")) /\
    events s' = events (turn_state (constrain 5 bottom_term)) ++ [reqList].
Proof.
  eapply (click_hits_painted_item RuneWidth_table example_colors 80 5
            match_colorOffsets Z.of_nat bottom_term
            (turn_state (constrain 5 bottom_term)) (click_event 1 0 false)
            _ 1%nat _ 1 0 _ _ _).
  - vm_compute. reflexivity.
  - reflexivity.
  - reflexivity.
  - reflexivity.
  - reflexivity.
  - reflexivity.
  - reflexivity.
  - reflexivity.
  - reflexivity.
  - vm_compute. discriminate.
  - vm_compute. split; discriminate.
  - vm_compute. split; discriminate.
  - vm_compute. split; discriminate.
  - vm_compute. split; discriminate.
Defined.



(** ** The cursor invariant and the memo table on examples *)

Lemma turn_cursor_ok_witness :
  exists turn,
    example_turn (rune_event 120) (list_term false []) = Some turn /\
    cursor_ok (turn_term turn).
Proof.
  destruct (example_turn (rune_event 120) (list_term false []))
    as [turn|] eqn:E.
  - exists turn. split; [reflexivity|].
    apply (turn_cursor_ok no_override no_line no_line example_keys 24
             Z.of_nat GoRegexp.Compile GoRegexp.FindAllStringIndex
             GoRegexp.FindStringIndex (list_term false []) (rune_event 120)
             turn).
    + vm_compute. reflexivity.
    + vm_compute. split; discriminate.
    + vm_compute. split; discriminate.
    + vm_compute. split; discriminate.
    + exact E.
  - vm_compute in E. discriminate E.
Defined.

Lemma word_motion_single_byte_witness :
  exists flow,
    Loop_switch no_override no_line no_line 24 Z.of_nat GoRegexp.Compile
      GoRegexp.FindAllStringIndex GoRegexp.FindStringIndex
      actForwardWord KEY_FORWARD_WORD (key_event KEY_FORWARD_WORD)
      (turn_state (query_term (runes_of "ab cd") 0)) = Some flow /\
    cursor_ok (term (flow_state flow)).
Proof.
  apply word_motion_single_byte.
  - reflexivity.
  - vm_compute. split; discriminate.
  - vm_compute. split; discriminate.
  - unfold single_byte. vm_compute.
    repeat (constructor; [split; [discriminate|reflexivity]|]). constructor.
Defined.

Lemma runeWidth_memo_correct_witness :
  (runeWidth_memo RuneWidth_table ∅ 19990 0).1
    = runeWidth RuneWidth_table 19990 0 /\
  cache_ok RuneWidth_table (runeWidth_memo RuneWidth_table ∅ 19990 0).2.
Proof.
  apply runeWidth_memo_correct.
  intros r w H. rewrite lookup_empty in H. discriminate H.
Defined.

(** ** The consumer between two exits, and the two codes of a key *)

Section Consumer.

Context {History : Type}.
Variable C : KeyCodes.
Variable MaxY : Z.
Variable range_selected : gmap Z selectedItem -> list selectedItem.
Variable sort_Sort :
  (selectedItem -> selectedItem -> bool) -> list selectedItem ->
  list selectedItem.
Implicit Types t : @Terminal History.


(** X18.  An accept key and the key map know a typed character by the same
    code.  An accept key matches an event exactly if it is the type of
    the event or the key under which the event is looked up in the key
    map, which for a typed character is the character plus the code of
    alt-z. *)
Theorem accept_key_is_map_key t key event :
  small key -> small (ev_Char event) -> small (C_AltZ C) ->
  keyMatch C key event = true <->
  key = ev_Type event \/ key = (resolve C t event).2.
Proof.
  unfold small. intros Hk Hc Ha. unfold keyMatch, resolve.
  rewrite sub_fits by lia. rewrite add_fits by lia.
  rewrite orb_true_iff, andb_true_iff, !Z.eqb_eq.
  destruct (ev_Type event =? C_Rune C) eqn:E.
  - apply Z.eqb_eq in E.
    destruct (keymap t !! (ev_Char event + C_AltZ C)); cbn [snd];
      split; intros [H|H]; try (left; exact (eq_sym H)); try lia;
      try (right; split; lia); right; lia.
  - apply Z.eqb_neq in E. cbn [snd].
    split; intros [H|H]; try (left; lia); tauto.
Qed.

End Consumer.


Lemma accept_key_is_map_key_witness :
  keyMatch example_keys (120 + C_AltZ example_keys) (rune_event 120) = true
  <->
  120 + C_AltZ example_keys = ev_Type (rune_event 120) \/
  120 + C_AltZ example_keys
    = (resolve example_keys (list_term false []) (rune_event 120)).2.
Proof.
  apply accept_key_is_map_key; vm_compute; split; discriminate.
Defined.

(** ** A turn of the loop returns *)

Section TurnReturns.

Context {History : Type}.
Variable history_override : History -> list rune -> History.
Variable history_previous : History -> list rune * History.
Variable history_next : History -> list rune * History.
Variable C : KeyCodes.
Variable MaxY : Z.
Variable clock : nat -> Z.
Context {Regexp : Type}.
Variable regexp_Compile : string -> option Regexp.
Variable FindAllStringIndex : Regexp -> list Z -> list (Z * Z).
Variable FindStringIndex : Regexp -> list Z -> option (Z * Z).

Implicit Types t : @Terminal History.
Implicit Types s : @LoopState History.

Lemma toggleY_returns y t :
  0 <= y < Length t -> is_Some (toggleY clock y t).
Proof.
  intros Hy. unfold toggleY.
  destruct (Get_Some t y Hy) as [item E]. rewrite E.
  cbn [mbind option_bind].
  destruct (selectItem clock item t) as [fresh t1].
  destruct (negb fresh); eexists; reflexivity.
Qed.

Lemma toggle_returns s :
  0 <= cy (term s) -> is_Some (toggle clock s).
Proof.
  intros Hcy. unfold toggle.
  destruct (cy (term s) <? Length (term s)) eqn:E; [|eexists; reflexivity].
  destruct (toggleY_returns (cy (term s)) (term s) ltac:(lia)) as [t1 E1].
  rewrite E1. eexists; reflexivity.
Qed.

Lemma toggleAll_loop_returns t : is_Some (toggleAll_loop clock t).
Proof.
  unfold toggleAll_loop.
  pose proof (toggle_fold_seq clock (merger t) [] t eq_refl) as H.
  cbn [length] in H. rewrite H. eexists; reflexivity.
Qed.

Lemma mouse_returns event s :
  0 <= cy (term s) -> small (Length (term s)) ->
  is_Some (mouse MaxY clock event s).
Proof.
  intros Hcy Hlen. unfold mouse. cbv zeta.
  pose proof (len_nonneg (merger (term s))) as Hn.
  fold (Length (term s)) in Hn. unfold small in Hlen.
  assert (Hset : forall o,
             let t1 := (vset o (term s)).2 in
             (vset o (term s)).1 = true -> 0 <= cy t1).
  { intros o. unfold vset. cbv zeta. cbn [fst snd cy set_cy].
    change (Length (set_cy _ (term s))) with (Length (term s)).
    rewrite sub_fits by lia.
    unfold Util.Constrain. intros H. apply Z.eqb_eq in H.
    repeat case_match; lia. }
  destruct (negb (me_S (ev_Mouse event) =? 0)).
  { destruct (Length (term s) >? 0); [|eexists; reflexivity].
    destruct (multi (term s) && me_Mod (ev_Mouse event)).
    - destruct (toggle_returns s Hcy) as [s1 E]. rewrite E.
      eexists; reflexivity.
    - eexists; reflexivity. }
  destruct (me_Double (ev_Mouse event)).
  { destruct (_ >=? _); [|eexists; reflexivity].
    destruct (vset _ (term s)) as [ok t1].
    destruct (ok && _); eexists; reflexivity. }
  destruct (me_Down (ev_Mouse event)); [|eexists; reflexivity].
  destruct (_ && _); [eexists; reflexivity|].
  destruct (_ >=? _); [|eexists; reflexivity].
  match goal with
  | |- context [vset ?o (term s)] => specialize (Hset o)
  end.
  cbv zeta in Hset.
  destruct (vset _ (term s)) as [ok t1]. cbn [fst snd] in Hset.
  destruct ok; cbn [andb]; [|eexists; reflexivity].
  destruct (multi t1 && me_Mod (ev_Mouse event)); [|eexists; reflexivity].
  destruct (toggle_returns (with_term t1 s) (Hset eq_refl)) as [s1 E].
  rewrite E. eexists; reflexivity.
Qed.

Ltac returns := eexists; reflexivity.

(** Every action but a word motion returns, from a state whose cursor
    index lies in the query and whose cursor row is not negative. *)
Lemma switch_returns action mapkey event s :
  is_word_motion action = false ->
  cursor_ok (term s) -> 0 <= cy (term s) ->
  small (len (input (term s))) -> small (Length (term s)) ->
  is_Some (Loop_switch history_override history_previous history_next MaxY
             clock regexp_Compile FindAllStringIndex FindStringIndex
             action mapkey event s).
Proof.
  intros Hw Hok Hcy Hlen HL. unfold cursor_ok, small in Hok, Hlen.
  destruct action; try discriminate Hw; clear Hw; unfold Loop_switch.
  - (* actIgnore *) returns.
  - (* actInvalid *) returns.
  - (* actRune *)
    rewrite slice_to_Some, slice_from_Some by lia. returns.
  - (* actMouse *)
    destruct (mouse_returns event s Hcy HL) as [s1 E]. rewrite E. returns.
  - (* actBeginningOfLine *) returns.
  - (* actAbort *) returns.
  - (* actAccept *) returns.
  - (* actBackwardChar *) destruct (_ >? _); returns.
  - (* actBackwardDeleteChar *)
    destruct (_ >? _) eqn:E; [|returns].
    rewrite sub_fits by lia.
    rewrite slice_to_Some, slice_from_Some by lia. returns.
  - (* actClearScreen *) returns.
  - (* actDeleteChar *)
    unfold delChar.
    destruct ((len (input (term s)) >? 0)
              && (cx (term s) <? len (input (term s)))) eqn:E.
    + apply andb_prop in E as [E1 E2].
      rewrite add_fits by lia.
      rewrite slice_to_Some, slice_from_Some by lia.
      cbn [mbind option_bind negb andb]. returns.
    + cbn [mbind option_bind negb andb].
      destruct (cx (term s) =? 0); returns.
  - (* actEndOfLine *) returns.
  - (* actForwardChar *) destruct (_ <? _); returns.
  - (* actKillLine *)
    destruct (_ <? _) eqn:E; [|returns].
    rewrite slice_from_Some by lia. cbn [mbind option_bind].
    cbn [input cx set_yanked].
    rewrite slice_to_Some by lia. returns.
  - (* actUnixLineDiscard *)
    destruct (_ >? _) eqn:E; [|returns].
    rewrite slice_to_Some by lia. cbn [mbind option_bind].
    cbn [input cx set_yanked].
    rewrite slice_from_Some by lia. returns.
  - (* actYank *)
    rewrite slice_from_Some, slice_to_Some by lia. returns.
  - (* actSelectAll *) destruct (multi (term s)); returns.
  - (* actDeselectAll *) destruct (multi (term s)); returns.
  - (* actToggle *)
    destruct (_ && _); [|returns].
    destruct (toggle_returns s Hcy) as [s1 E]. rewrite E. returns.
  - (* actToggleAll *)
    destruct (multi (term s)); [|returns].
    destruct (toggleAll_loop_returns (term s)) as [t1 E]. rewrite E. returns.
  - (* actToggleDown *)
    destruct (_ && _); [|returns].
    destruct (toggle_returns s Hcy) as [s1 E]. rewrite E. returns.
  - (* actToggleUp *)
    destruct (_ && _); [|returns].
    destruct (toggle_returns s Hcy) as [s1 E]. rewrite E. returns.
  - (* actDown *) returns.
  - (* actUp *) returns.
  - (* actPageUp *) returns.
  - (* actPageDown *) returns.
  - (* actToggleSort *) returns.
  - (* actPreviousHistory *)
    destruct (history (term s)) as [h|]; [|returns].
    destruct (history_previous _) as [line h']. returns.
  - (* actNextHistory *)
    destruct (history (term s)) as [h|]; [|returns].
    destruct (history_next _) as [line h']. returns.
  - (* actExecute *)
    destruct (_ && _) eqn:E; [|returns].
    apply andb_prop in E as [E1 E2].
    destruct (Get_Some (term s) (cy (term s)) ltac:(lia)) as [item Ei].
    rewrite Ei. returns.
Qed.

(** X11.  A turn of the loop returns.  From a state whose cursor index lies in
    the query and whose cursor row is not negative, a turn on an event
    that resolves to anything but a word motion runs to its end: no
    slice expression and no access to the list is out of range. *)
Theorem turn_returns t event :
  is_word_motion (resolve C t event).1 = false ->
  cursor_ok t -> 0 <= cy t ->
  small (len (input t)) -> small (Length t) ->
  is_Some (Loop_turn history_override history_previous history_next C MaxY
             clock regexp_Compile FindAllStringIndex FindStringIndex
             event t).
Proof.
  intros Hw Hok Hcy Hlen HL. unfold Loop_turn.
  destruct (expect_scan_term C (expect t) event
              (mkLoopState t [reqPrompt] true [] [])) as [p Hp].
  cbn [term] in Hp.
  set (s1 := expect_scan C (expect t) event _) in *.
  rewrite (resolve_keymap C t (term s1) event) by (rewrite Hp; reflexivity).
  destruct (resolve C t event) as [action mapkey]. cbn [fst] in Hw.
  destruct (switch_returns action mapkey event s1 Hw) as [flow E];
    try (rewrite Hp; assumption).
  rewrite E. cbn [mbind option_bind]. destruct flow; eexists; reflexivity.
Qed.

End TurnReturns.

(** A negative cursor row can stop a turn: on a list that was empty
    when [constrain] last ran the cursor row is -1, and once the list
    has an item the toggle action reads the list at that row. *)
Lemma turn_panics_on_negative_row :
  example_turn (key_event KEY_TOGGLE)
    (set_cy (-1) (list_term true [])) = None.
Proof. reflexivity. Qed.

Lemma turn_returns_witness :
  is_Some (example_turn (click_event 19 0 false) (list_term true [])).
Proof.
  apply (turn_returns no_override no_line no_line example_keys 24 Z.of_nat
           GoRegexp.Compile GoRegexp.FindAllStringIndex
           GoRegexp.FindStringIndex (list_term true [])
           (click_event 19 0 false)).
  - vm_compute. reflexivity.
  - vm_compute. split; discriminate.
  - vm_compute. discriminate.
  - vm_compute. split; discriminate.
  - vm_compute. split; discriminate.
Defined.
